(** * RFID-Manager: the SM-6210 driver and the tag aggregator

    A shallow embedding of [lib/RFID/devices/SM_6210.cpp] (frame building,
    the ingress decoders, the write path), of [RFID_SerialManager::writeData],
    of the tag list management of [RFID.cpp] and of the padding done by the
    write handlers of [MainWindow.cpp], followed by the properties of the
    specification that concern them. *)

From Stdlib Require Import ZArith List Bool Lia Arith.
Import ListNotations.
Open Scope Z_scope.

(** ** Byte arrays

    A [QByteArray] is the list of its bytes, each kept as the unsigned value
    0..255 of the stored [char].  Indices and lengths are [nat]; every [int]
    the code computes from byte values is a [Z]. *)

Definition QByteArray := list Z.

(** [static_cast<char>(x)] and [static_cast<quint8>(x)]: the low eight bits. *)
Definition to_char (x : Z) : Z := x mod 256.
Definition to_quint8 (x : Z) : Z := x mod 256.

(** What the C++ implementation leaves open: whether plain [char] is signed,
    and what an unchecked read past the end of a byte array yields
    ([QByteArray::at] and the comparison operators of [QByteRef] do not check
    their index).  The general statements below hold for every platform, so
    also for one on which such a read yields 0. *)
Record Platform := {
  char_signed : bool;
  stray : nat -> Z
}.

(** Conversion of a stored [char] to [int]. *)
Definition char_to_int (P : Platform) (c : Z) : Z :=
  if char_signed P && (128 <=? c) then c - 256 else c.

Definition isEmpty (b : QByteArray) : bool :=
  match b with [] => true | _ => false end.

(** [b.at(i)]: unchecked. *)
Definition at_ (P : Platform) (b : QByteArray) (i : nat) : Z :=
  match nth_error b i with
  | Some c => c
  | None => to_char (stray P i)
  end.

(** [b[i] == c] on a non-const array ([QByteRef::operator==]): unchecked. *)
Definition ref_eq (P : Platform) (b : QByteArray) (i : nat) (c : Z) : bool :=
  at_ P b i =? c.

(** [char(b[i])] on a non-const array ([QByteRef::operator char]): a read past
    the end yields 0. *)
Definition ref_char (b : QByteArray) (i : nat) : Z := nth i b 0.

(** [b.mid(pos, len)] for [pos >= 0]: at most [len] bytes from [pos] on; a
    negative [len] means up to the end. *)
Definition mid (b : QByteArray) (pos : nat) (len : Z) : QByteArray :=
  if len <? 0 then skipn pos b else firstn (Z.to_nat len) (skipn pos b).

(** [b.remove(pos, len)]: nothing happens when [len <= 0] or [pos] is not an
    index of [b]; the removal is clipped at the end of [b]. *)
Definition remove (b : QByteArray) (pos : nat) (len : Z) : QByteArray :=
  if (len <=? 0) || (length b <=? pos)%nat then b
  else firstn pos b ++ skipn (pos + Z.to_nat len) b.

(** [b.insert(1, c)] on an array that has at least one byte. *)
Definition insert1 (b : QByteArray) (c : Z) : QByteArray :=
  firstn 1 b ++ c :: skipn 1 b.

(** Equality of byte arrays ([operator==]). *)
Fixpoint bytes_eqb (a b : QByteArray) : bool :=
  match a, b with
  | [], [] => true
  | x :: a', y :: b' => (x =? y) && bytes_eqb a' b'
  | _, _ => false
  end.

(** The unsigned byte sum of a frame. *)
Definition byte_sum (b : QByteArray) : Z := fold_right Z.add 0 b.

(** ** Protocol constants ([SM_6210.cpp], [RFID_Global.h]) *)

Definition HEADER_START_CODE : Z := 0xa0.
Definition HEADER_RESULT_CODE : Z := 0xe4.
Definition HEADER_RESPONSE_CODE : Z := 0xe0.
Definition COMM_RS232 : Z := 0x03.
Definition DEV_STOP_SEARCH : Z := 0xa8.
Definition DEV_WRITE_TAG_MW : Z := 0xab.
Definition DEV_GET_SINGLE_PARAM : Z := 0x61.
Definition DEV_READ_SINGLE_TAG : Z := 0x82.
Definition DEV_READ_TAG_DATA : Z := 0x80.
Definition RFU_LABEL : Z * Z := (0x00, 0x00).
Definition EPC_LABEL : Z * Z := (0x00, 0x01).
Definition TID_LABEL : Z * Z := (0x00, 0x02).
Definition USR_LABEL : Z * Z := (0x00, 0x03).
Definition CRP_ADD_USERCODE : Z := 0x64.

Definition RFID_RFU_LENGTH : nat := 8.
Definition RFID_EPC_LENGTH : nat := 12.
Definition RFID_USER_LENGTH : nat := 64.
Definition RFID_NUM_USER_DATAGRAMS : Z := 4.
Definition RFID_CURRENT_TAG_TIMEOUT : Z := 1000.
Definition RFID_MAX_BUFFER_SIZE : nat := 1024 * 16.

(** ** Checksum *)

(** [Checksum]: a [quint8] accumulator, then [(~checksum) + 1] cut to a
    [quint8]. *)
Definition Checksum (data : QByteArray) : Z :=
  let checksum := fold_left (fun c x => to_quint8 (c + x)) data 0 in
  to_quint8 (Z.lnot checksum + 1).

(** ** The request frames *)

(** The stop-and-reset frame of [scan]. *)
Definition stopFrame : QByteArray :=
  let data := [to_char HEADER_START_CODE; to_char COMM_RS232;
               to_char DEV_STOP_SEARCH; to_char 0x00] in
  data ++ [to_char (Checksum data)].

(** The tag read request ([GET_SINGLE_PARAM]) of [scan]. *)
Definition singleParamFrame : QByteArray :=
  let data := [to_char HEADER_START_CODE; to_char 0x05;
               to_char DEV_GET_SINGLE_PARAM; to_char 0x00; to_char 0x00;
               to_char CRP_ADD_USERCODE] in
  data ++ [to_char (Checksum data)].

(** The acknowledgement [readAckPacket] answers with. *)
Definition ackSingleFrame : QByteArray :=
  let data := [to_char HEADER_START_CODE; to_char COMM_RS232;
               to_char DEV_READ_SINGLE_TAG; to_char 0x00] in
  data ++ [to_char (Checksum data)].

(** The frame shared by [readEpc], [readTid], [readRfu] and [readUsr]. *)
Definition readFrame (label : Z * Z) (startAddress dataLength : Z)
  : QByteArray :=
  let data := [to_char HEADER_START_CODE; to_char 0x06;
               to_char DEV_READ_TAG_DATA; to_char (fst label);
               to_char (snd label); to_char startAddress;
               to_char dataLength] in
  data ++ [to_char (Checksum data)].

(** The packet of [writeData]: the length byte is inserted at index 1 once
    the payload is in place, then the checksum is appended. *)
Definition writePacket (data : QByteArray) (label : Z * Z)
    (startAddress length_ : Z) : QByteArray :=
  let packet := [to_char HEADER_START_CODE; to_char DEV_WRITE_TAG_MW;
                 to_char (fst label); to_char (snd label);
                 to_char startAddress; to_char length_] ++ data in
  let packet := insert1 packet (to_char (Z.of_nat (length packet))) in
  packet ++ [to_char (Checksum packet)].

(** The payload a write packet carries: what lies between the seven leading
    bytes and the checksum. *)
Definition packetPayload (packet : QByteArray) : QByteArray :=
  removelast (skipn 7 packet).

(** ** The serial manager *)

(** The connection, the answers of the device to the successive calls of
    [QSerialPort::write], and what has gone through [writeData]: [submitted]
    records every array handed to [writeData], [dataSent] the argument of each
    [dataSent] signal. *)
Record SerialManager := {
  connected : bool;
  baudRate : Z;
  device_write : nat -> QByteArray -> Z;
  writes : nat;
  submitted : list QByteArray;
  dataSent : list QByteArray
}.

(** [RFID_SerialManager::writeData]. *)
Definition SerialManager_writeData (data : QByteArray) (sm : SerialManager)
  : Z * SerialManager :=
  if connected sm then
    let bytes := device_write sm (writes sm) data in
    (bytes,
     {| connected := connected sm; baudRate := baudRate sm;
        device_write := device_write sm; writes := S (writes sm);
        submitted := submitted sm ++ [data];
        dataSent := dataSent sm ++ [firstn (Z.to_nat bytes) data] |})
  else
    (-1,
     {| connected := connected sm; baudRate := baudRate sm;
        device_write := device_write sm; writes := writes sm;
        submitted := submitted sm ++ [data];
        dataSent := dataSent sm |}).

(** ** The driver *)

(** A tag record is referred to by its address in the store of the
    aggregator. *)
Definition TagPtr := nat.

(** The signals of [RFID_Reader]. *)
Inductive ReaderSignal :=
| tidFound (tid : QByteArray)
| epcFound (epc : QByteArray)
| rfuFound (rfu : QByteArray)
| usrFound (usr : QByteArray) (datagram : Z).

(** The file-level [BUFFER], the members of [SM_6210] and the current tag
    pointer it inherits from [RFID_Reader]. *)
Record SM_6210 := {
  BUFFER : QByteArray;
  m_selector : Z;
  m_shitCount : Z;
  m_userStartAddress : Z;
  m_currentTag : option TagPtr
}.

Definition SM_6210_new : SM_6210 :=
  {| BUFFER := []; m_selector := 0; m_shitCount := 0;
     m_userStartAddress := 0; m_currentTag := None |}.

Definition set_BUFFER (b : QByteArray) (d : SM_6210) : SM_6210 :=
  {| BUFFER := b; m_selector := m_selector d; m_shitCount := m_shitCount d;
     m_userStartAddress := m_userStartAddress d;
     m_currentTag := m_currentTag d |}.

Definition set_selector (s : Z) (d : SM_6210) : SM_6210 :=
  {| BUFFER := BUFFER d; m_selector := s; m_shitCount := m_shitCount d;
     m_userStartAddress := m_userStartAddress d;
     m_currentTag := m_currentTag d |}.

Definition set_shitCount (s : Z) (d : SM_6210) : SM_6210 :=
  {| BUFFER := BUFFER d; m_selector := m_selector d; m_shitCount := s;
     m_userStartAddress := m_userStartAddress d;
     m_currentTag := m_currentTag d |}.

Definition set_userStartAddress (a : Z) (d : SM_6210) : SM_6210 :=
  {| BUFFER := BUFFER d; m_selector := m_selector d;
     m_shitCount := m_shitCount d; m_userStartAddress := a;
     m_currentTag := m_currentTag d |}.

Definition setCurrentTag (t : option TagPtr) (d : SM_6210) : SM_6210 :=
  {| BUFFER := BUFFER d; m_selector := m_selector d;
     m_shitCount := m_shitCount d;
     m_userStartAddress := m_userStartAddress d; m_currentTag := t |}.

(** [qint8] increment. *)
Definition incr_qint8 (x : Z) : Z := (x + 1 + 128) mod 256 - 128.

(** [SM_6210::loaded]. *)
Definition loaded (sm : SerialManager) : bool :=
  if connected sm then baudRate sm =? 9600 else false.

(** *** Read requests *)

Definition readEpc (d : SM_6210) (sm : SerialManager)
  : SM_6210 * SerialManager :=
  (d, snd (SerialManager_writeData (readFrame EPC_LABEL 2 6) sm)).

Definition readTid (d : SM_6210) (sm : SerialManager)
  : SM_6210 * SerialManager :=
  (d, snd (SerialManager_writeData (readFrame TID_LABEL 0 6) sm)).

Definition readRfu (d : SM_6210) (sm : SerialManager)
  : SM_6210 * SerialManager :=
  (d, snd (SerialManager_writeData (readFrame RFU_LABEL 0 4) sm)).

Definition readUsr (d : SM_6210) (sm : SerialManager)
  : SM_6210 * SerialManager :=
  let d := if m_userStartAddress d >? 24 then set_userStartAddress 0 d
           else d in
  let dataLength := 8 in
  let startAddress := m_userStartAddress d in
  let sm := snd (SerialManager_writeData
                   (readFrame USR_LABEL startAddress dataLength) sm) in
  (set_userStartAddress (to_quint8 (m_userStartAddress d + dataLength)) d,
   sm).

(** [SM_6210::scan]. *)
Definition scan (d : SM_6210) (sm : SerialManager)
  : SM_6210 * SerialManager :=
  match m_currentTag d with
  | None =>
      let d := set_selector 0 d in
      if m_shitCount d >? 10 then
        (set_shitCount 0 d, snd (SerialManager_writeData stopFrame sm))
      else
        (d, snd (SerialManager_writeData singleParamFrame sm))
  | Some _ =>
      let '(d, sm) :=
        if m_selector d =? 0 then readTid d sm
        else if m_selector d =? 1 then readRfu d sm
        else if m_selector d =? 2 then readUsr d sm
        else let '(d, sm) := readEpc d sm in (set_selector (-1) d, sm) in
      (set_selector (incr_qint8 (m_selector d)) d, sm)
  end.

(** *** The write path *)

(** The loop of [writeData]: the packet goes to the serial manager [n] times,
    and [ok] keeps track of whether each call took all of it. *)
Fixpoint sendRepeatedly (n : nat) (packet : QByteArray) (ok : bool)
    (sm : SerialManager) : bool * SerialManager :=
  match n with
  | O => (ok, sm)
  | S n' =>
      let '(bytes, sm) := SerialManager_writeData packet sm in
      sendRepeatedly n' packet (ok && (bytes =? Z.of_nat (length packet))) sm
  end.

(** [SM_6210::writeData]. *)
Definition writeData (data : QByteArray) (label : Z * Z)
    (startAddress length_ : Z) (sm : SerialManager) : bool * SerialManager :=
  sendRepeatedly 10 (writePacket data label startAddress length_) true sm.

Definition writeEpc (epc : QByteArray) (d : SM_6210) (sm : SerialManager)
  : bool * SerialManager :=
  match m_currentTag d with
  | Some _ => writeData epc EPC_LABEL 2 6 sm
  | None => (false, sm)
  end.

Definition writeRfu (rfu : QByteArray) (d : SM_6210) (sm : SerialManager)
  : bool * SerialManager :=
  match m_currentTag d with
  | Some _ => writeData rfu RFU_LABEL 0 4 sm
  | None => (false, sm)
  end.

Definition writeUserData (userData : QByteArray) (d : SM_6210)
    (sm : SerialManager) : bool * SerialManager :=
  match m_currentTag d with
  | Some _ =>
      let ok := true in
      let '(r, sm) := writeData (mid userData 0 16) USR_LABEL 0 8 sm in
      let ok := ok && r in
      let '(r, sm) := writeData (mid userData 16 32) USR_LABEL 8 8 sm in
      let ok := ok && r in
      let '(r, sm) := writeData (mid userData 32 48) USR_LABEL 16 8 sm in
      let ok := ok && r in
      let '(r, sm) := writeData (mid userData 48 64) USR_LABEL 24 8 sm in
      let ok := ok && r in
      (ok, sm)
  | None => (false, sm)
  end.

(** [SM_6210::eraseTag]; [&&] stops at the first write that fails. *)
Definition eraseTag (d : SM_6210) (sm : SerialManager)
  : bool * SerialManager :=
  let epc := repeat (to_char 0x00) 12 in
  let usr := repeat (to_char 0x00) 13 in
  let rfu := repeat (to_char 0x00) 8 in
  let '(r, sm) := writeEpc epc d sm in
  if r then
    let '(r, sm) := writeRfu rfu d sm in
    if r then writeUserData usr d sm else (false, sm)
  else (false, sm).

(** *** The ingress decoders *)

(** The header scan every decoder starts with: the index of the first byte
    equal to [h], the length of the array when there is none. *)
Fixpoint header_shift (h : Z) (b : QByteArray) : nat :=
  match b with
  | [] => O
  | c :: b' => if c =? to_char h then O else S (header_shift h b')
  end.

(** What [readInformationPacket] hands back: [*ok], the returned bytes, what
    [*startAddress] holds afterwards (it starts at 0 in the one caller that
    passes it) and the buffer it leaves. *)
Record InfoPacket := {
  info_ok : bool;
  info_data : QByteArray;
  info_start : Z;
  info_buffer : QByteArray
}.

Definition noPacket (start : Z) (b : QByteArray) : InfoPacket :=
  {| info_ok := false; info_data := []; info_start := start;
     info_buffer := b |}.

(** [SM_6210::readInformationPacket]. *)
Definition readInformationPacket (P : Platform) (label : Z * Z)
    (singleTag verifyChecksum : bool) (buffer : QByteArray) : InfoPacket :=
  let shift := header_shift HEADER_RESPONSE_CODE buffer in
  if (length buffer <? shift + 1)%nat then noPacket 0 buffer
  else
    let size := to_quint8 (at_ P buffer (shift + 1)) in
    if Z.of_nat (length buffer) >? Z.of_nat shift + size then
      let headerOk := true in
      let headerOk :=
        headerOk && ref_eq P buffer (shift + 3) (to_char (fst label)) in
      let headerOk :=
        headerOk && ref_eq P buffer (shift + 4) (to_char (snd label)) in
      let headerOk :=
        if singleTag
        then headerOk && ref_eq P buffer (shift + 2)
                                (to_char DEV_READ_SINGLE_TAG)
        else headerOk && ref_eq P buffer (shift + 2)
                                (to_char DEV_READ_TAG_DATA) in
      if negb headerOk then noPacket 0 buffer
      else
        let startAddress := char_to_int P (ref_char buffer (shift + 5)) in
        let len := to_quint8 (to_quint8 (ref_char buffer (shift + 6)) * 2) in
        let checksum :=
          to_quint8 (ref_char buffer (shift + Z.to_nat len + 7)) in
        if (checksum =? Checksum (mid buffer shift (len + 7)))
           || negb verifyChecksum
        then
          let data := map (fun j => at_ P buffer (shift + 7 + j))
                          (seq 0 (Z.to_nat len)) in
          {| info_ok := true; info_data := data; info_start := startAddress;
             info_buffer := remove buffer 0 (Z.of_nat shift + len + 7) |}
        else noPacket startAddress buffer
    else noPacket 0 buffer.

(** A decoder reports whether it read a packet, what it emitted, and leaves
    the driver and the serial manager behind. *)
Definition Decoded : Type :=
  bool * list ReaderSignal * SM_6210 * SerialManager.

(** [SM_6210::readAckPacket]. *)
Definition readAckPacket (P : Platform) (d : SM_6210) (sm : SerialManager)
  : Decoded :=
  let buffer := BUFFER d in
  let i := header_shift HEADER_RESPONSE_CODE buffer in
  if (length buffer <? i + 8)%nat then (false, [], d, sm)
  else
    let ok := true in
    let ok := ok && ref_eq P buffer (i + 0) (to_char HEADER_RESPONSE_CODE) in
    let ok := ok && ref_eq P buffer (i + 1) (to_char 0x06) in
    let ok := ok && ref_eq P buffer (i + 2) (to_char DEV_GET_SINGLE_PARAM) in
    let ok := ok && ref_eq P buffer (i + 3) (to_char 0x00) in
    let ok := ok && ref_eq P buffer (i + 4) (to_char 0x00) in
    let ok := ok && ref_eq P buffer (i + 5) (to_char CRP_ADD_USERCODE) in
    let ok := ok && ref_eq P buffer (i + 6) (to_char 0x00) in
    let ok :=
      ok && ref_eq P buffer (i + 7) (to_char (Checksum (mid buffer i 7))) in
    if ok then
      (true, [], set_BUFFER (remove buffer i 8) d,
       snd (SerialManager_writeData ackSingleFrame sm))
    else (false, [], d, sm).

(** [SM_6210::readStdResult]. *)
Definition readStdResult (P : Platform) (d : SM_6210) (sm : SerialManager)
  : Decoded :=
  let buffer := BUFFER d in
  let shift := header_shift HEADER_RESULT_CODE buffer in
  if (shift <? length buffer)%nat && (shift + 1 <? length buffer)%nat then
    let packetSize := char_to_int P (at_ P buffer (shift + 1)) in
    (true, [], set_BUFFER (remove buffer 0 (Z.of_nat shift + packetSize)) d,
     sm)
  else (false, [], d, sm).

(** [SM_6210::readStdResponse]. *)
Definition readStdResponse (P : Platform) (d : SM_6210) (sm : SerialManager)
  : Decoded :=
  let buffer := BUFFER d in
  let shift := header_shift HEADER_RESPONSE_CODE buffer in
  if (shift <? length buffer)%nat && (shift + 1 <? length buffer)%nat then
    let packetSize := char_to_int P (at_ P buffer (shift + 1)) in
    if packetSize <? 6 then
      (true, [],
       set_BUFFER (remove buffer 0 (Z.of_nat shift + packetSize)) d, sm)
    else (false, [], d, sm)
  else (false, [], d, sm).

Definition readTagIdPacket (P : Platform) (d : SM_6210) (sm : SerialManager)
  : Decoded :=
  let r := readInformationPacket P TID_LABEL false true (BUFFER d) in
  if info_ok r
  then (true, [tidFound (info_data r)], set_BUFFER (info_buffer r) d, sm)
  else (false, [], set_BUFFER (info_buffer r) d, sm).

Definition readEpcPacket (P : Platform) (d : SM_6210) (sm : SerialManager)
  : Decoded :=
  let r := readInformationPacket P EPC_LABEL false true (BUFFER d) in
  if info_ok r
  then (true, [epcFound (info_data r)], set_BUFFER (info_buffer r) d, sm)
  else (false, [], set_BUFFER (info_buffer r) d, sm).

Definition readRfuPacket (P : Platform) (d : SM_6210) (sm : SerialManager)
  : Decoded :=
  let r := readInformationPacket P RFU_LABEL false true (BUFFER d) in
  if info_ok r
  then (true, [rfuFound (info_data r)], set_BUFFER (info_buffer r) d, sm)
  else (false, [], set_BUFFER (info_buffer r) d, sm).

(** [SM_6210::readUsrPacket]; [/] on [int] rounds towards zero. *)
Definition readUsrPacket (P : Platform) (d : SM_6210) (sm : SerialManager)
  : Decoded :=
  let r := readInformationPacket P USR_LABEL false true (BUFFER d) in
  let startAddress := info_start r in
  if info_ok r then
    let datagram := Z.quot startAddress 8 in
    if (datagram >? RFID_NUM_USER_DATAGRAMS - 1) || (datagram <? 0)
    then (false, [], set_BUFFER (info_buffer r) d, sm)
    else (true, [usrFound (info_data r) datagram],
          set_BUFFER (info_buffer r) d, sm)
  else (false, [], set_BUFFER (info_buffer r) d, sm).

Definition readEpcPacketFromScan (P : Platform) (d : SM_6210)
    (sm : SerialManager) : Decoded :=
  let r := readInformationPacket P EPC_LABEL true false (BUFFER d) in
  if info_ok r
  then (true, [epcFound (info_data r)], set_BUFFER (info_buffer r) d, sm)
  else (false, [], set_BUFFER (info_buffer r) d, sm).

(** The decoders in the order [onDataReceived] tries them; the first that
    reads a packet ends the handler. *)
Definition decoders
  : list (Platform -> SM_6210 -> SerialManager -> Decoded) :=
  [readAckPacket; readEpcPacketFromScan; readEpcPacket; readTagIdPacket;
   readRfuPacket; readUsrPacket; readStdResponse; readStdResult].

Fixpoint tryDecoders (P : Platform)
    (ds : list (Platform -> SM_6210 -> SerialManager -> Decoded))
    (d : SM_6210) (sm : SerialManager) : Decoded :=
  match ds with
  | [] => (false, [], d, sm)
  | f :: ds' =>
      let '(ok, sigs, d', sm') := f P d sm in
      if ok then (true, sigs, d', sm') else tryDecoders P ds' d' sm'
  end.

(** [SM_6210::onDataReceived]: the driver and serial manager it leaves, and
    the signals it emitted. *)
Definition onDataReceived (P : Platform) (data : QByteArray) (d : SM_6210)
    (sm : SerialManager) : list ReaderSignal * SM_6210 * SerialManager :=
  if isEmpty data then ([], d, sm)
  else if negb (loaded sm) then ([], d, sm)
  else
    let d := set_BUFFER (BUFFER d ++ data) d in
    if (0 <? length (BUFFER d))%nat then
      let '(ok, sigs, d, sm) := tryDecoders P decoders d sm in
      if ok then (sigs, d, sm)
      else
        let d := set_shitCount (to_quint8 (m_shitCount d + 1)) d in
        if (RFID_MAX_BUFFER_SIZE <? length (BUFFER d))%nat
        then (sigs, set_BUFFER [] d, sm)
        else (sigs, d, sm)
    else ([], d, sm).

(** ** The tag aggregator ([RFID.cpp]) *)

(** [RFID_Tag]; the [keys] member is never touched by the code and is left
    out.  [usr] holds the [RFID_NUM_USER_DATAGRAMS] datagrams. *)
Record RFID_Tag := {
  epc : QByteArray;
  tid : QByteArray;
  rfu : QByteArray;
  usr : list QByteArray
}.

(** What [new RFID_Tag] yields. *)
Definition emptyTag : RFID_Tag :=
  {| epc := []; tid := []; rfu := []; usr := [[]; []; []; []] |}.

Inductive RfidSignal :=
| tagUpdated
| readerChanged
| tagCountChanged
| currentTagChanged.

(** The members of [RFID], the store the tag pointers point into, and the
    signals emitted so far.  [m_watchdog] is the time in milliseconds at
    which the watchdog timer was last started; it fires
    [RFID_CURRENT_TAG_TIMEOUT] later unless it is started again before. *)
Record RFID := {
  m_tags : list TagPtr;
  m_reader : option SM_6210;
  m_watchdog : option Z;
  store : list RFID_Tag;
  emitted : list RfidSignal
}.

Definition RFID_new : RFID :=
  {| m_tags := []; m_reader := None; m_watchdog := None; store := [];
     emitted := [] |}.

Definition deref (s : list RFID_Tag) (p : TagPtr) : RFID_Tag :=
  nth p s emptyTag.

Fixpoint setNth {A : Type} (i : nat) (x : A) (l : list A) : list A :=
  match l, i with
  | [], _ => []
  | _ :: l', O => x :: l'
  | y :: l', S i' => y :: setNth i' x l'
  end.

(** [QList::removeAt]. *)
Definition removeAt {A : Type} (j : nat) (l : list A) : list A :=
  firstn j l ++ skipn (S j) l.

(** [RFID::currentTag]. *)
Definition currentTag (r : RFID) : option TagPtr :=
  match m_reader r with
  | Some rd => m_currentTag rd
  | None => None
  end.

(** [RFID::updateTagData]: the new content of [*dest] and whether
    [tagUpdated] is emitted. *)
Definition updateTagData (dest src : QByteArray) : QByteArray * bool :=
  if negb (isEmpty src) && negb (bytes_eqb dest src) then (src, true)
  else (dest, false).

Definition signalIf (b : bool) (s : RfidSignal) : list RfidSignal :=
  if b then [s] else [].

(** The body of the first loop of [updateTagList] once [t] matches: the
    fields of [t] after the updates from [tag], and the signals. *)
Definition mergeInto (t tag : RFID_Tag) : RFID_Tag * list RfidSignal :=
  let '(e, ue) := updateTagData (epc t) (epc tag) in
  let '(i, ui) := updateTagData (tid t) (tid tag) in
  let '(f, uf) := updateTagData (rfu t) (rfu tag) in
  let us := map (fun k => updateTagData (nth k (usr t) []) (nth k (usr tag) []))
                (seq 0 (Z.to_nat RFID_NUM_USER_DATAGRAMS)) in
  ({| epc := e; tid := i; rfu := f; usr := map fst us |},
   signalIf ue tagUpdated ++ signalIf ui tagUpdated ++ signalIf uf tagUpdated
   ++ concat (map (fun u => signalIf (snd u) tagUpdated) us)).

(** The first loop of [updateTagList]: the first entry of the list whose
    [epc] or whose [tid] equals that of [tag]. *)
Fixpoint findTag (s : list RFID_Tag) (tag : RFID_Tag) (l : list TagPtr)
  : option TagPtr :=
  match l with
  | [] => None
  | t :: l' =>
      if bytes_eqb (epc (deref s t)) (epc tag)
         || bytes_eqb (tid (deref s t)) (tid tag)
      then Some t else findTag s tag l'
  end.

(** The inner loop of the duplicate cleanup, from index [j] on, for the fixed
    entry [ta]; [j] is incremented after every pass, also after a removal. *)
Fixpoint cleanupInner (fuel : nat) (s : list RFID_Tag) (ta : TagPtr)
    (j : nat) (tags : list TagPtr) (sigs : list RfidSignal)
  : list TagPtr * list RfidSignal :=
  match fuel with
  | O => (tags, sigs)
  | S fuel' =>
      if (j <? length tags)%nat then
        let tb := nth j tags O in
        let tags' :=
          if (ta =? tb)%nat then removeAt j tags
          else if bytes_eqb (tid (deref s ta)) (tid (deref s tb))
               then removeAt j tags
               else tags in
        let sigs' :=
          if (length tags =? length tags')%nat then sigs
          else sigs ++ [tagCountChanged] in
        cleanupInner fuel' s ta (S j) tags' sigs'
      else (tags, sigs)
  end.

(** The outer loop of the duplicate cleanup, from index [i] on. *)
Fixpoint cleanupOuter (fuel : nat) (s : list RFID_Tag) (i : nat)
    (tags : list TagPtr) (sigs : list RfidSignal)
  : list TagPtr * list RfidSignal :=
  match fuel with
  | O => (tags, sigs)
  | S fuel' =>
      if (i <? length tags)%nat then
        let ta := nth i tags O in
        let '(tags', sigs') :=
          cleanupInner (length tags) s ta (S i) tags sigs in
        cleanupOuter fuel' s (S i) tags' sigs'
      else (tags, sigs)
  end.

Definition set_reader (rd : SM_6210) (r : RFID) : RFID :=
  {| m_tags := m_tags r; m_reader := Some rd; m_watchdog := m_watchdog r;
     store := store r; emitted := emitted r |}.

(** [RFID::updateTagList] at time [now]; [None] when the assertion on the
    reader fails. *)
Definition updateTagList (now : Z) (tag : TagPtr) (r : RFID) : option RFID :=
  match m_reader r with
  | None => None
  | Some rd =>
      let s := store r in
      let '(s, tags, sigs) :=
        match findTag s (deref s tag) (m_tags r) with
        | Some t =>
            let '(t', sigs) := mergeInto (deref s t) (deref s tag) in
            (setNth t t' s, m_tags r, sigs)
        | None => (s, m_tags r ++ [tag], [tagCountChanged])
        end in
      let '(tags, sigs) := cleanupOuter (length tags) s O tags sigs in
      let '(rd, sigs) :=
        match m_currentTag rd with
        | Some c =>
            if (c =? tag)%nat then (rd, sigs)
            else (setCurrentTag (Some tag) rd, sigs ++ [currentTagChanged])
        | None => (setCurrentTag (Some tag) rd, sigs ++ [currentTagChanged])
        end in
      Some {| m_tags := tags; m_reader := Some rd; m_watchdog := Some now;
              store := s; emitted := emitted r ++ sigs |}
  end.

Definition set_store (s : list RFID_Tag) (sigs : list RfidSignal) (r : RFID)
  : RFID :=
  {| m_tags := m_tags r; m_reader := m_reader r; m_watchdog := m_watchdog r;
     store := s; emitted := emitted r ++ sigs |}.

(** [new RFID_Tag] followed by the assignment of one field: the address of
    the new record and the store that holds it. *)
Definition newTag (v : RFID_Tag) (r : RFID) : TagPtr * RFID :=
  (length (store r), set_store (store r ++ [v]) [] r).

(** [RFID::onEpcFound].  When the current tag takes the data, the list is
    not updated; [free(tag)] leaves the store as it is. *)
Definition onEpcFound (now : Z) (e : QByteArray) (r : RFID) : option RFID :=
  let '(tag, r) :=
    newTag {| epc := e; tid := []; rfu := []; usr := usr emptyTag |} r in
  match currentTag r with
  | Some c =>
      let cur := deref (store r) c in
      if negb (bytes_eqb (epc cur) e) && negb (isEmpty (epc cur))
      then updateTagList now tag r
      else
        let '(e', u) := updateTagData (epc cur) e in
        Some (set_store
                (setNth c {| epc := e'; tid := tid cur; rfu := rfu cur;
                             usr := usr cur |} (store r))
                (signalIf u tagUpdated) r)
  | None => updateTagList now tag r
  end.

(** [RFID::onTidFound]. *)
Definition onTidFound (now : Z) (i : QByteArray) (r : RFID) : option RFID :=
  let '(tag, r) :=
    newTag {| epc := []; tid := i; rfu := []; usr := usr emptyTag |} r in
  match currentTag r with
  | Some c =>
      let cur := deref (store r) c in
      if negb (bytes_eqb (tid cur) i) && negb (isEmpty (tid cur))
      then updateTagList now tag r
      else
        let '(i', u) := updateTagData (tid cur) i in
        updateTagList now c
          (set_store
             (setNth c {| epc := epc cur; tid := i'; rfu := rfu cur;
                          usr := usr cur |} (store r))
             (signalIf u tagUpdated) r)
  | None => updateTagList now tag r
  end.

(** [RFID::onUsrFound]; [None] when the assertion on [datagram] fails. *)
Definition onUsrFound (now : Z) (u : QByteArray) (datagram : Z) (r : RFID)
  : option RFID :=
  if (datagram <? RFID_NUM_USER_DATAGRAMS) && (0 <=? datagram) then
    let k := Z.to_nat datagram in
    let '(tag, r) :=
      newTag {| epc := []; tid := []; rfu := [];
                usr := setNth k u (usr emptyTag) |} r in
    match currentTag r with
    | Some c =>
        let cur := deref (store r) c in
        if negb (bytes_eqb (nth k (usr cur) []) u)
           && negb (isEmpty (nth k (usr cur) []))
        then updateTagList now tag r
        else
          let '(u', b) := updateTagData (nth k (usr cur) []) u in
          updateTagList now c
            (set_store
               (setNth c {| epc := epc cur; tid := tid cur; rfu := rfu cur;
                            usr := setNth k u' (usr cur) |} (store r))
               (signalIf b tagUpdated) r)
    | None => updateTagList now tag r
    end
  else None.

(** [RFID::onRfuFound]. *)
Definition onRfuFound (now : Z) (f : QByteArray) (r : RFID) : option RFID :=
  let '(tag, r) :=
    newTag {| epc := []; tid := []; rfu := f; usr := usr emptyTag |} r in
  match currentTag r with
  | Some c =>
      let cur := deref (store r) c in
      if negb (bytes_eqb (rfu cur) f) && negb (isEmpty (rfu cur))
      then updateTagList now tag r
      else
        let '(f', u) := updateTagData (rfu cur) f in
        updateTagList now c
          (set_store
             (setNth c {| epc := epc cur; tid := tid cur; rfu := f';
                          usr := usr cur |} (store r))
             (signalIf u tagUpdated) r)
  | None => updateTagList now tag r
  end.

(** [RFID::resetCurrentTag], the slot of the watchdog timeout. *)
Definition resetCurrentTag (now : Z) (r : RFID) : RFID :=
  match m_reader r with
  | Some rd =>
      {| m_tags := m_tags r; m_reader := Some (setCurrentTag None rd);
         m_watchdog := Some now; store := store r;
         emitted := emitted r ++ [currentTagChanged] |}
  | None =>
      {| m_tags := m_tags r; m_reader := None; m_watchdog := Some now;
         store := store r; emitted := emitted r |}
  end.

(** [RFID::clearHistory]. *)
Definition clearHistory (now : Z) (r : RFID) : RFID :=
  let r := {| m_tags := []; m_reader := m_reader r;
              m_watchdog := m_watchdog r; store := store r;
              emitted := emitted r |} in
  let r := resetCurrentTag now r in
  set_store (store r) [tagCountChanged] r.

(** The slot a reader signal is connected to. *)
Definition dispatch (now : Z) (sig : ReaderSignal) (r : RFID) : option RFID :=
  match sig with
  | epcFound e => onEpcFound now e r
  | tidFound i => onTidFound now i r
  | rfuFound f => onRfuFound now f r
  | usrFound u datagram => onUsrFound now u datagram r
  end.

Fixpoint dispatchAll (now : Z) (sigs : list ReaderSignal) (r : RFID)
  : option RFID :=
  match sigs with
  | [] => Some r
  | sig :: sigs' =>
      match dispatch now sig r with
      | Some r' => dispatchAll now sigs' r'
      | None => None
      end
  end.

(** A batch of bytes read from the port at time [now]: the driver of the
    loaded reader takes it, and what it emits reaches the slots above
    before the handler returns. *)
Definition dataReceived (P : Platform) (now : Z) (data : QByteArray)
    (r : RFID) (sm : SerialManager) : option (RFID * SerialManager) :=
  match m_reader r with
  | None => Some (r, sm)
  | Some rd =>
      let '(sigs, rd, sm) := onDataReceived P data rd sm in
      match dispatchAll now sigs (set_reader rd r) with
      | Some r' => Some (r', sm)
      | None => None
      end
  end.

(** *** The write entry points of [RFID] *)

Definition readerAccessible (r : RFID) (sm : SerialManager) : bool :=
  match m_reader r with
  | Some _ => loaded sm
  | None => false
  end.

Definition RFID_writeEpc (e : QByteArray) (r : RFID) (sm : SerialManager)
  : bool * SerialManager :=
  match m_reader r with
  | Some rd => if loaded sm then writeEpc e rd sm else (false, sm)
  | None => (false, sm)
  end.

Definition RFID_writeRfu (f : QByteArray) (r : RFID) (sm : SerialManager)
  : bool * SerialManager :=
  match m_reader r with
  | Some rd => if loaded sm then writeRfu f rd sm else (false, sm)
  | None => (false, sm)
  end.

Definition RFID_writeUserData (u : QByteArray) (r : RFID)
    (sm : SerialManager) : bool * SerialManager :=
  match m_reader r with
  | Some rd => if loaded sm then writeUserData u rd sm else (false, sm)
  | None => (false, sm)
  end.

(** ** The write handlers of the main window

    Each handler decodes the text of its field to bytes (not modelled: the
    handlers below start from the decoded bytes), appends zero bytes while
    the array is shorter than the bank, refuses an array that is longer, and
    calls the entry point of [RFID].  The result is [None] when the array is
    refused. *)

(** [while(b.length() < n) b.append(0x00)]. *)
Definition zeroPad (n : nat) (b : QByteArray) : QByteArray :=
  b ++ repeat (to_char 0x00) (n - length b).

Definition MainWindow_writeEpcData (e : QByteArray) (r : RFID)
    (sm : SerialManager) : option bool * SerialManager :=
  let e := zeroPad RFID_EPC_LENGTH e in
  if (RFID_EPC_LENGTH <? length e)%nat then (None, sm)
  else let '(ok, sm) := RFID_writeEpc e r sm in (Some ok, sm).

Definition MainWindow_writeRfuData (f : QByteArray) (r : RFID)
    (sm : SerialManager) : option bool * SerialManager :=
  let f := zeroPad RFID_RFU_LENGTH f in
  if (RFID_RFU_LENGTH <? length f)%nat then (None, sm)
  else let '(ok, sm) := RFID_writeRfu f r sm in (Some ok, sm).

Definition MainWindow_writeUserData (u : QByteArray) (r : RFID)
    (sm : SerialManager) : option bool * SerialManager :=
  let u := zeroPad RFID_USER_LENGTH u in
  if (RFID_USER_LENGTH <? length u)%nat then (None, sm)
  else let '(ok, sm) := RFID_writeUserData u r sm in (Some ok, sm).

(** ** The event loop, as far as the watchdog is concerned *)

(** The watchdog timeouts that fall due up to [now], each delivered to
    [resetCurrentTag] at the time it is due. *)
Fixpoint expire (fuel : nat) (now : Z) (r : RFID) : RFID :=
  match fuel with
  | O => r
  | S fuel' =>
      match m_watchdog r with
      | Some t =>
          if t + RFID_CURRENT_TAG_TIMEOUT <=? now
          then expire fuel' now (resetCurrentTag (t + RFID_CURRENT_TAG_TIMEOUT) r)
          else r
      | None => r
      end
  end.

Definition passTime (now : Z) (r : RFID) : RFID :=
  match m_watchdog r with
  | Some t => expire (Z.to_nat ((now - t) / RFID_CURRENT_TAG_TIMEOUT)) now r
  | None => r
  end.

(** A reader signal that arrives at time [now]. *)
Definition bankEvent (now : Z) (sig : ReaderSignal) (r : RFID) : option RFID :=
  dispatch now sig (passTime now r).

Fixpoint bankEvents (evs : list (Z * ReaderSignal)) (r : RFID) : option RFID :=
  match evs with
  | [] => Some r
  | (now, sig) :: evs' =>
      match bankEvent now sig r with
      | Some r' => bankEvents evs' r'
      | None => None
      end
  end.

(** ** The calls that make the driver transmit *)

Inductive DriverCall :=
| CallScan
| CallDataReceived (data : QByteArray)
| CallWriteEpc (e : QByteArray)
| CallWriteRfu (f : QByteArray)
| CallWriteUserData (u : QByteArray)
| CallEraseTag.

Definition runCall (P : Platform) (c : DriverCall) (d : SM_6210)
    (sm : SerialManager) : SM_6210 * SerialManager :=
  match c with
  | CallScan => scan d sm
  | CallDataReceived data =>
      let '(_, d, sm) := onDataReceived P data d sm in (d, sm)
  | CallWriteEpc e => (d, snd (writeEpc e d sm))
  | CallWriteRfu f => (d, snd (writeRfu f d sm))
  | CallWriteUserData u => (d, snd (writeUserData u d sm))
  | CallEraseTag => (d, snd (eraseTag d sm))
  end.

(** A frame whose last byte is the two's complement of the byte sum of the
    bytes before it, so that the byte sum of the whole frame is 0 modulo
    256. *)
Definition checksummed (f : QByteArray) : Prop :=
  byte_sum f mod 256 = 0 /\
  exists body c, f = body ++ [c] /\ c = (- byte_sum body) mod 256.

(** ** Observing the serial manager *)

(** Whether the [k]-th next call of [writeData] puts all of [pkt] on the
    wire. *)
Definition takesAll (pkt : QByteArray) (sm : SerialManager) (k : nat) : bool :=
  connected sm
  && (device_write sm (writes sm + k)%nat pkt =? Z.of_nat (length pkt)).

(** The serial managers [sm'] that [sm] can become by [n] calls of
    [writeData]: the connection and the device are the same. *)
Definition sameLink (sm sm' : SerialManager) (n : nat) : Prop :=
  connected sm' = connected sm /\ baudRate sm' = baudRate sm /\
  device_write sm' = device_write sm /\
  writes sm' = (if connected sm then writes sm + n else writes sm)%nat.


(** The frames a call adds to the record of the serial manager are all
    well-formed in the sense of [Q]. *)
Definition adds (Q : QByteArray -> Prop) (sm sm' : SerialManager) : Prop :=
  exists frames, submitted sm' = submitted sm ++ frames /\ Forall Q frames.


(** The number of payload bytes [readInformationPacket] takes a frame to
    carry: twice the word count at offset 6 of the frame, as a [quint8]. *)
Definition payloadLength (buffer : QByteArray) : nat :=
  Z.to_nat
    (to_quint8
       (to_quint8
          (ref_char buffer (header_shift HEADER_RESPONSE_CODE buffer + 6))
        * 2)).

(** The word start address [readInformationPacket] reads at offset 5 of the
    frame. *)
Definition wordStart (P : Platform) (buffer : QByteArray) : Z :=
  char_to_int P
    (ref_char buffer (header_shift HEADER_RESPONSE_CODE buffer + 5)).

(** The length byte of the frame led by the first byte equal to [h], as the
    [int] the result and response decoders read it. *)
Definition packetSize (P : Platform) (h : Z) (buffer : QByteArray) : Z :=
  char_to_int P (at_ P buffer (header_shift h buffer + 1)).

(** ** Sample inputs *)

(** A platform with signed [char] on which a stray read yields 0. *)
Definition x86 : Platform := {| char_signed := true; stray := fun _ => 0 |}.

(** An open port at 9600 baud whose device takes every byte it is given. *)
Definition openPort : SerialManager :=
  {| connected := true; baudRate := 9600;
     device_write := fun _ data => Z.of_nat (length data);
     writes := O; submitted := []; dataSent := [] |}.

(** The acknowledge packet of the reader, with its checksum. *)
Definition ackPacket : QByteArray :=
  [0xe0; 0x06; 0x61; 0x00; 0x00; 0x64; 0x00; 0x55].

(** A driver whose buffer holds one stray byte, the acknowledge packet and
    one more byte. *)
Definition ackAfterGarbage : SM_6210 :=
  set_BUFFER ([0xff] ++ ackPacket ++ [0x11]) SM_6210_new.

(** A response to an EPC bank read (start address 2, three words) with its
    checksum, between one stray byte and one more byte. *)
Definition epcReadAfterGarbage : SM_6210 :=
  set_BUFFER
    ([0xff] ++ [0xe0; 0x0c; 0x80; 0x00; 0x01; 0x02; 0x03;
                0xaa; 0xbb; 0xcc; 0xdd; 0xee; 0xff; 0x93] ++ [0x11])
    SM_6210_new.

(** A response to a user bank read of one word at word start address [a],
    with its checksum. *)
Definition usrRead (a : Z) : QByteArray :=
  let f := [0xe0; 0x08; 0x80; 0x00; 0x03; a; 0x01; 0xaa; 0xbb] in
  f ++ [Checksum f].



(** A driver with a current tag, and an aggregator that holds this driver
    and the record of the tag. *)
Definition taggedDriver : SM_6210 := setCurrentTag (Some O) SM_6210_new.

Definition taggedRFID : RFID :=
  {| m_tags := [O]; m_reader := Some taggedDriver; m_watchdog := Some 0;
     store := [{| epc := [0xaa; 0xbb]; tid := []; rfu := [];
                  usr := usr emptyTag |}];
     emitted := [] |}.

(** The 64 bytes 0, 1, ..., 63. *)
Definition sampleUserData : QByteArray := map Z.of_nat (seq 0 64).

(** Successive batches of bytes handed to [onDataReceived]. *)
Fixpoint ingress (P : Platform) (batches : list QByteArray) (d : SM_6210)
    (sm : SerialManager) : SM_6210 * SerialManager :=
  match batches with
  | [] => (d, sm)
  | data :: batches' =>
      let '(_, d, sm) := onDataReceived P data d sm in
      ingress P batches' d sm
  end.

(** Sixteen batches of 1024 zero bytes, then the acknowledge packet followed
    by eight zero bytes. *)
Definition floodBatches : list QByteArray :=
  repeat (repeat 0 1024) 16 ++ [ackPacket ++ repeat 0 8].

(** An aggregator with a reader and nothing else. *)
Definition freshRFID : RFID := set_reader SM_6210_new RFID_new.

Definition epcA : QByteArray :=
  [0x30; 0x00; 0xe2; 0x00; 0x10; 0x01; 0x02; 0x03; 0x04; 0x05; 0x06; 0x0a].
Definition epcB : QByteArray :=
  [0x30; 0x00; 0xe2; 0x00; 0x10; 0x01; 0x02; 0x03; 0x04; 0x05; 0x06; 0x0b].
Definition tidA : QByteArray :=
  [0xe2; 0x80; 0x11; 0x05; 0x20; 0x00; 0x30; 0x00; 0x00; 0x00; 0x00; 0x1a].
Definition tidB : QByteArray :=
  [0xe2; 0x80; 0x11; 0x05; 0x20; 0x00; 0x30; 0x00; 0x00; 0x00; 0x00; 0x1b].
Definition rfuB : QByteArray :=
  [0x00; 0x00; 0x00; 0x00; 0x12; 0x34; 0x56; 0x78].

(** Tag A (EPC A, TID A) is read and leaves the field; tag B (EPC B, TID B)
    is read and leaves the field; then a tag is read that reports the RFU
    bank, EPC A and TID B.  The times are in milliseconds. *)
Definition sharedEpcEvents : list (Z * ReaderSignal) :=
  [(0, epcFound epcA); (20, tidFound tidA);
   (2000, epcFound epcB); (2020, tidFound tidB);
   (4000, rfuFound rfuB); (4020, epcFound epcA); (4040, tidFound tidB)].

(** The records of the history, in order. *)
Definition history (r : RFID) : list RFID_Tag :=
  map (deref (store r)) (m_tags r).

(** A reader signal whose datagram index, if it has one, is an index of the
    [usr] array of a tag record. *)
Definition datagramInRange (sig : ReaderSignal) : Prop :=
  match sig with
  | usrFound _ datagram => 0 <= datagram < RFID_NUM_USER_DATAGRAMS
  | _ => True
  end.

(** A reader signal whose datagram index, if it has one, is the word start
    address of the frame at the head of [buffer] divided by 8. *)
Definition datagramFromWordStart (P : Platform) (buffer : QByteArray)
    (sig : ReaderSignal) : Prop :=
  match sig with
  | usrFound _ datagram => datagram = Z.quot (wordStart P buffer) 8
  | _ => True
  end.

(** The signals a decoder or the ingress handler emitted. *)
Definition signalsOf (r : Decoded) : list ReaderSignal := snd (fst (fst r)).

(** An aggregator that has a reader. *)
Definition hasReader (r : RFID) : Prop := m_reader r <> None.

(** ** Proof automation *)

(** A decoder that leaves the serial manager alone. *)
Ltac quiet_decoder f :=
  intros; unfold f;
  repeat match goal with
         | |- context [if ?c then _ else _] => destruct c
         end; reflexivity.

(** A decoder that emits no signal. *)
Ltac silent_decoder f :=
  intros; unfold f, signalsOf;
  repeat match goal with
         | |- context [if ?c then _ else _] => destruct c
         end; simpl; repeat constructor.

(** The case analysis of a slot, [total] being the totality of
    [updateTagList]. *)
Ltac slot_total total :=
  repeat match goal with
         | |- context [match currentTag ?r with _ => _ end] =>
             destruct (currentTag r)
         | |- context [if ?c then _ else _] => destruct c
         | |- context [let '(_, _) := updateTagData ?a ?b in _] =>
             destruct (updateTagData a b)
         | |- exists r', updateTagList _ _ _ = Some r' /\ _ =>
             apply total; assumption
         | |- exists r', Some ?x = Some r' /\ _ =>
             exists x; split; [reflexivity | assumption]
         end.


(** ** Further observations of the driver *)

(** Successive calls of the driver. *)
Fixpoint runCalls (P : Platform) (cs : list DriverCall) (d : SM_6210)
    (sm : SerialManager) : SM_6210 * SerialManager :=
  match cs with
  | [] => (d, sm)
  | c :: cs' =>
      let '(d, sm) := runCall P c d sm in
      runCalls P cs' d sm
  end.

(** The values [m_userStartAddress] takes between two calls. *)
Definition cursorInRange (d : SM_6210) : Prop :=
  In (m_userStartAddress d) [0; 8; 16; 24; 32].

(** What a decoder may do to the driver [d] and the serial manager [sm] it
    starts from: it keeps the members of the driver, does not lengthen the
    buffer, and either emits at most one signal and leaves the serial manager
    alone, or emits nothing and sends the acknowledgement; when it reports no
    packet it has emitted and sent nothing. *)
Definition decoderStep (d : SM_6210) (sm : SerialManager) (r : Decoded)
  : Prop :=
  let '(ok, sigs, d', sm') := r in
  m_selector d' = m_selector d /\
  m_shitCount d' = m_shitCount d /\
  m_userStartAddress d' = m_userStartAddress d /\
  m_currentTag d' = m_currentTag d /\
  (length (BUFFER d') <= length (BUFFER d))%nat /\
  (if ok
   then (sm' = sm /\ (length sigs <= 1)%nat) \/
        (sigs = [] /\ sm' = snd (SerialManager_writeData ackSingleFrame sm))
   else sigs = [] /\ sm' = sm).

(** A response frame as [readInformationPacket] reads it: header, length
    byte, opcode, bank label, word start address, word count, payload, and a
    last byte [c] where the checksum goes. *)
Definition responseBody (opcode : Z) (label : Z * Z) (size start : Z)
    (payload : QByteArray) : QByteArray :=
  [HEADER_RESPONSE_CODE; size; opcode; fst label; snd label; start;
   Z.of_nat (length payload) / 2] ++ payload.

Definition responseFrame (opcode : Z) (label : Z * Z) (size start : Z)
    (payload : QByteArray) (c : Z) : QByteArray :=
  responseBody opcode label size start payload ++ [c].

(** The opcode a bank read decoder expects. *)
Definition expectedOpcode (singleTag : bool) : Z :=
  if singleTag then DEV_READ_SINGLE_TAG else DEV_READ_TAG_DATA.

(** Bytes, and arrays of bytes. *)
Definition isByte (x : Z) : Prop := 0 <= x < 256.
Definition noHeader (h : Z) (b : QByteArray) : Prop :=
  Forall (fun c => c <> h) b.

(** The packets of [eraseTag]. *)
Definition eraseEpcPacket : QByteArray :=
  writePacket (repeat 0 12) EPC_LABEL 2 6.
Definition eraseRfuPacket : QByteArray :=
  writePacket (repeat 0 8) RFU_LABEL 0 4.
Definition eraseUsrPackets : list QByteArray :=
  repeat (writePacket (repeat 0 13) USR_LABEL 0 8) 10
  ++ repeat (writePacket [] USR_LABEL 8 8) 10
  ++ repeat (writePacket [] USR_LABEL 16 8) 10
  ++ repeat (writePacket [] USR_LABEL 24 8) 10.

(** The step of a bank read decoder, [len] being the bound on the buffer
    [readInformationPacket] leaves. *)
Ltac bank_decoder_step f len :=
  intros; unfold f, decoderStep;
  match goal with
  | |- context [readInformationPacket ?P ?l ?s ?v ?b] =>
      pose proof (len P l s v b);
      destruct (info_ok (readInformationPacket P l s v b))
  end;
  repeat match goal with
         | |- context [if ?c then _ else _] => destruct c
         end;
  simpl; repeat split; auto.


(** The shape shared by the decoders of EPC, TID and RFU responses. *)
Definition bankDecode (label : Z * Z) (singleTag verifyChecksum : bool)
    (sig : QByteArray -> ReaderSignal) (P : Platform) (d : SM_6210)
    (sm : SerialManager) : Decoded :=
  let r := readInformationPacket P label singleTag verifyChecksum
             (BUFFER d) in
  if info_ok r
  then (true, [sig (info_data r)], set_BUFFER (info_buffer r) d, sm)
  else (false, [], set_BUFFER (info_buffer r) d, sm).

(** The signal by which the driver reports the payload of a bank read
    response for the bank [label], read at word address [start]. *)
Definition bankSignal (label : Z * Z) (payload : QByteArray) (start : Z)
  : ReaderSignal :=
  if snd label =? 0 then rfuFound payload
  else if snd label =? 1 then epcFound payload
  else if snd label =? 2 then tidFound payload
  else usrFound payload (Z.quot start 8).

(** A complete bank read response for [label] with its checksum. *)
Definition bankReadResponse (label : Z * Z) (size start : Z)
    (payload : QByteArray) : QByteArray :=
  responseFrame DEV_READ_TAG_DATA label size start payload
    (Checksum (responseBody DEV_READ_TAG_DATA label size start payload)).

(** Two drivers that differ at most in the buffer. *)
Definition sameMembers (d d' : SM_6210) : Prop :=
  m_selector d' = m_selector d /\ m_shitCount d' = m_shitCount d /\
  m_userStartAddress d' = m_userStartAddress d /\
  m_currentTag d' = m_currentTag d.

(** A decoder that finds no packet in the buffer [buf] and leaves it. *)
Definition passesOver (P : Platform) (buf : QByteArray)
    (f : Platform -> SM_6210 -> SerialManager -> Decoded) : Prop :=
  forall d sm, BUFFER d = buf ->
    exists d', f P d sm = (false, [], d', sm) /\ BUFFER d' = buf /\
               sameMembers d d'.

(** Whether the ten calls of [writeData] from the [from]-th next on put all
    of [pkt] on the wire. *)
Definition allTaken (pkt : QByteArray) (sm : SerialManager) (from : nat)
  : bool :=
  forallb (fun k => takesAll pkt sm (from + k)) (seq 0 10).

(** A serial manager that is not connected and has sent nothing since
    [sm]. *)
Definition nothingSent (sm sm' : SerialManager) : Prop :=
  connected sm' = false /\ dataSent sm' = dataSent sm /\
  writes sm' = writes sm.

(** A response to a TID bank read with its checksum, split in two after
    three stray bytes and the first five bytes of the frame. *)
Definition tidResponse : QByteArray :=
  bankReadResponse TID_LABEL 0x0a 0 [0xe2; 0x80; 0x11; 0x05].

Definition tidResponseBegun : SM_6210 :=
  set_BUFFER ([0xff; 0xff; 0xff] ++ firstn 5 tidResponse) SM_6210_new.

(** A port that is not open. *)
Definition closedPort : SerialManager :=
  {| connected := false; baudRate := 0;
     device_write := fun _ data => Z.of_nat (length data);
     writes := O; submitted := []; dataSent := [] |}.

(** ** Further observations of the aggregator *)

(** The record [new RFID_Tag] becomes in the slot of a reader signal, once
    the payload is assigned. *)
Definition tagOfSignal (sig : ReaderSignal) : RFID_Tag :=
  match sig with
  | tidFound i => {| epc := []; tid := i; rfu := []; usr := usr emptyTag |}
  | epcFound e => {| epc := e; tid := []; rfu := []; usr := usr emptyTag |}
  | rfuFound f => {| epc := []; tid := []; rfu := f; usr := usr emptyTag |}
  | usrFound u datagram =>
      {| epc := []; tid := []; rfu := [];
         usr := setNth (Z.to_nat datagram) u (usr emptyTag) |}
  end.

(** [RFID::getUserData]. *)
Definition getUserData (tag : RFID_Tag) : QByteArray :=
  concat (map (fun i => nth i (usr tag) [])
              (seq 0 (Z.to_nat RFID_NUM_USER_DATAGRAMS))).

(** No field of [t] that holds data is empty in [t']. *)
Definition keepsData (t t' : RFID_Tag) : Prop :=
  (epc t <> [] -> epc t' <> []) /\
  (tid t <> [] -> tid t' <> []) /\
  (rfu t <> [] -> rfu t' <> []) /\
  (forall k, (k < Z.to_nat RFID_NUM_USER_DATAGRAMS)%nat ->
             nth k (usr t) [] <> [] -> nth k (usr t') [] <> []).

(** The same for every record of a store. *)
Definition storeKeepsData (s s' : list RFID_Tag) : Prop :=
  forall p, keepsData (deref s p) (deref s' p).

(** ** Hexadecimal text ([MainWindow.cpp])

    A [QString] is the list of its UTF-16 code units. *)

Definition QString := list Z.

(** The code unit of [" "]. *)
Definition SPACE : Z := 32.

(** What is left to the Qt library: the result of [toUInt(ok, 16)] on a
    string that is not made of two hexadecimal digits ([None] when the
    conversion fails), and what [QString::at] yields past the end of the
    string, which it does not check. *)
Record TextLib := {
  toUInt_other : QString -> option Z;
  at_past_end : nat -> Z
}.

(** The digit [QByteArray::toHex] writes for a nibble, from
    ["0123456789abcdef"]. *)
Definition hexDigit (n : Z) : Z := if n <? 10 then 48 + n else 87 + n.

(** [data.toHex()], read back by [QString::fromUtf8]: two digits per byte,
    the high nibble first. *)
Definition toHex (data : QByteArray) : QString :=
  flat_map (fun c => [hexDigit (c / 16); hexDigit (c mod 16)]) data.

(** The value of a hexadecimal digit, in either case. *)
Definition digitValue (c : Z) : option Z :=
  if (48 <=? c) && (c <=? 57) then Some (c - 48)
  else if (97 <=? c) && (c <=? 102) then Some (c - 87)
  else if (65 <=? c) && (c <=? 70) then Some (c - 55)
  else None.

(** [str.toUInt(ok, 16)]: the number, or [None] when [*ok] is set to false. *)
Definition toUInt16 (T : TextLib) (str : QString) : option Z :=
  match str with
  | [a; b] =>
      match digitValue a, digitValue b with
      | Some x, Some y => Some (16 * x + y)
      | _, _ => toUInt_other T str
      end
  | _ => toUInt_other T str
  end.

(** [s.at(i)]: unchecked. *)
Definition qat (T : TextLib) (s : QString) (i : nat) : Z :=
  match nth_error s i with
  | Some c => c
  | None => at_past_end T i
  end.

(** The first loop of [ByteArrayToHex], from index [i] on: two characters
    and a space, or the last character alone. *)
Fixpoint separateFrom (fuel : nat) (hex : QString) (i : nat) (str : QString)
  : QString :=
  match fuel with
  | O => str
  | S fuel' =>
      if (i <? length hex)%nat then
        let str := str ++ [nth i hex 0] in
        if (i + 1 <? length hex)%nat then
          separateFrom fuel' hex (i + 2)
                       ((str ++ [nth (i + 1) hex 0]) ++ [SPACE])
        else separateFrom fuel' hex (i + 1) str
      else str
  end.

(** The first loop of [ByteArrayToHex] by recursion on the characters that
    are left. *)
Fixpoint separated (hex : QString) : QString :=
  match hex with
  | a :: b :: rest => a :: b :: SPACE :: separated rest
  | _ => hex
  end.

(** [while(str.startsWith(" ")) str.remove(0, 1)]. *)
Fixpoint stripLeading (str : QString) : QString :=
  match str with
  | c :: str' => if c =? SPACE then stripLeading str' else str
  | [] => []
  end.

(** [while(str.endsWith(" ")) str.chop(1)]. *)
Definition stripTrailing (str : QString) : QString :=
  rev (stripLeading (rev str)).

(** [ByteArrayToHex]. *)
Definition ByteArrayToHex (data : QByteArray) : QString :=
  let hex := toHex data in
  stripTrailing (stripLeading (separateFrom (length hex) hex 0 [])).

(** [data.remove(" ")]. *)
Definition removeSpaces (data : QString) : QString :=
  filter (fun c => negb (c =? SPACE)) data.

(** The loop of [HexToBinary] from index [i] on, called with a validation
    pointer: the bytes and [*ok]. *)
Fixpoint hexLoop (T : TextLib) (fuel : nat) (data : QString) (i : nat)
    (binary : QByteArray) : QByteArray * bool :=
  match fuel with
  | O => (binary, true)
  | S fuel' =>
      if (i <? length data)%nat then
        match toUInt16 T [qat T data i; qat T data (i + 1)] with
        | Some n =>
            hexLoop T fuel' data (i + 2)
                    (binary ++ [to_char (to_quint8 n)])
        | None => ([], false)
        end
      else (binary, true)
  end.

(** [HexToBinary(hex, &ok)]. *)
Definition HexToBinary (T : TextLib) (hex : QString) : QByteArray * bool :=
  let data := removeSpaces hex in
  hexLoop T (length data) data 0 [].

(** A library that fails every conversion it is asked for. *)
Definition strictText : TextLib :=
  {| toUInt_other := fun _ => None; at_past_end := fun _ => 0 |}.

(** ** Further sample inputs *)

(** A platform with unsigned [char] on which a stray read yields 0. *)
Definition arm : Platform := {| char_signed := false; stray := fun _ => 0 |}.


(** Two drivers that differ at most in the current tag. *)
Definition sameButTag (d d' : SM_6210) : Prop :=
  BUFFER d' = BUFFER d /\ m_selector d' = m_selector d /\
  m_shitCount d' = m_shitCount d /\
  m_userStartAddress d' = m_userStartAddress d.

(** The aggregator [r'] holds the driver of [r], but for its current tag. *)
Definition keepsDriver (r r' : RFID) : Prop :=
  forall rd, m_reader r = Some rd ->
  exists rd', m_reader r' = Some rd' /\ sameButTag rd rd'.
(** * Properties *)

(** ** Byte arrays and checksum *)

Lemma byte_sum_app (a b : QByteArray) :
  byte_sum (a ++ b) = byte_sum a + byte_sum b.
Proof.
  induction a as [|x a IH]; simpl; [reflexivity | rewrite IH; lia].
Qed.

Lemma accumulate_sum (data : QByteArray) : forall a,
  fold_left (fun c x => to_quint8 (c + x)) data a mod 256
  = (a + byte_sum data) mod 256.
Proof.
  unfold to_quint8.
  induction data as [|x data IH]; intro a; simpl.
  - now rewrite Z.add_0_r.
  - rewrite IH, Zplus_mod_idemp_l. f_equal. lia.
Qed.

Lemma Checksum_spec (data : QByteArray) :
  Checksum data = (- byte_sum data) mod 256.
Proof.
  unfold Checksum, to_quint8.
  replace (Z.lnot (fold_left (fun c x => (c + x) mod 256) data 0) + 1)
    with (- fold_left (fun c x => (c + x) mod 256) data 0)
    by (unfold Z.lnot; lia).
  pose proof (accumulate_sum data 0) as H. unfold to_quint8 in H.
  simpl in H.
  rewrite <- (Z.sub_0_l (fold_left _ data 0)), <- Zminus_mod_idemp_r, H.
  rewrite Zminus_mod_idemp_r. f_equal.
Qed.

Lemma Checksum_byte (data : QByteArray) : 0 <= Checksum data < 256.
Proof. rewrite Checksum_spec. apply Z.mod_pos_bound. lia. Qed.

Lemma checksummed_append (data : QByteArray) :
  checksummed (data ++ [to_char (Checksum data)]).
Proof.
  unfold to_char. rewrite (Z.mod_small _ _ (Checksum_byte data)).
  split.
  - rewrite byte_sum_app, Checksum_spec. simpl. rewrite Z.add_0_r.
    rewrite Zplus_mod_idemp_r. now replace (_ + - _) with 0 by lia.
  - exists data, (Checksum data). split; [reflexivity | apply Checksum_spec].
Qed.

(** ** What the serial manager records *)

Lemma sameLink_loaded sm sm' n : sameLink sm sm' n -> loaded sm' = loaded sm.
Proof. intros (Hc & Hb & _). unfold loaded. now rewrite Hc, Hb. Qed.

Lemma forallb_seq_shift (f : nat -> bool) (n : nat) : forall a,
  forallb f (seq (S a) n) = forallb (fun k => f (S k)) (seq a n).
Proof.
  induction n as [|n IH]; intro a; simpl; [reflexivity | now rewrite IH].
Qed.

Lemma forallb_pointwise {A : Type} (f g : A -> bool) (l : list A) :
  (forall x, f x = g x) -> forallb f l = forallb g l.
Proof.
  intro H. induction l as [|x l IH]; simpl; [reflexivity | now rewrite H, IH].
Qed.

Lemma writeData_once (data : QByteArray) (sm : SerialManager) :
  let r := SerialManager_writeData data sm in
  submitted (snd r) = submitted sm ++ [data] /\
  sameLink sm (snd r) 1 /\
  (fst r =? Z.of_nat (length data)) = takesAll data sm 0.
Proof.
  unfold SerialManager_writeData, sameLink, takesAll.
  destruct (connected sm) eqn:Hc; simpl; rewrite ?Hc, ?Nat.add_0_r;
    repeat split; try reflexivity; try lia.
  destruct (length data); reflexivity.
Qed.

Lemma sendRepeatedly_spec (pkt : QByteArray) (n : nat) : forall ok sm,
  let r := sendRepeatedly n pkt ok sm in
  submitted (snd r) = submitted sm ++ repeat pkt n /\
  sameLink sm (snd r) n /\
  fst r = ok && forallb (takesAll pkt sm) (seq 0 n).
Proof.
  induction n as [|n IH]; intros ok sm; simpl.
  - rewrite app_nil_r, andb_true_r. unfold sameLink.
    rewrite Nat.add_0_r. repeat split; destruct (connected sm); reflexivity.
  - destruct (writeData_once pkt sm) as (Hs & Hl & Ht).
    destruct (SerialManager_writeData pkt sm) as [bytes sm1] eqn:Hw.
    simpl in Hs, Hl, Ht.
    specialize (IH (ok && (bytes =? Z.of_nat (length pkt))) sm1).
    destruct IH as (IHs & IHl & IHt).
    destruct Hl as (Hc & Hb & Hd & Hn).
    destruct IHl as (Hc' & Hb' & Hd' & Hn').
    repeat split.
    + rewrite IHs, Hs, <- app_assoc. reflexivity.
    + congruence.
    + congruence.
    + congruence.
    + rewrite Hn', Hc, Hn. destruct (connected sm); lia.
    + rewrite IHt, Ht, forallb_seq_shift, <- andb_assoc. f_equal. f_equal.
      apply forallb_pointwise. intro k. unfold takesAll.
      rewrite Hc, Hd, Hn. destruct (connected sm); simpl; [|reflexivity].
      now replace (writes sm + 1 + k)%nat with (writes sm + S k)%nat by lia.
Qed.

Lemma sameLink_trans sm sm1 sm2 n m :
  sameLink sm sm1 n -> sameLink sm1 sm2 m -> sameLink sm sm2 (n + m).
Proof.
  intros (Hc & Hb & Hd & Hn) (Hc' & Hb' & Hd' & Hn').
  repeat split; try congruence.
  rewrite Hn', Hc, Hn. destruct (connected sm); lia.
Qed.

(** [writeData]: ten submissions of the one packet. *)
Lemma writeData_spec data label startAddress length_ sm :
  let pkt := writePacket data label startAddress length_ in
  let r := writeData data label startAddress length_ sm in
  submitted (snd r) = submitted sm ++ repeat pkt 10 /\
  sameLink sm (snd r) 10 /\
  fst r = forallb (takesAll pkt sm) (seq 0 10).
Proof.
  intros pkt r.
  destruct (sendRepeatedly_spec pkt 10 true sm) as (Hs & Hl & Ht).
  split; [exact Hs | split; [exact Hl | exact Ht]].
Qed.

(** ** Request frames *)

Lemma stopFrame_checksummed : checksummed stopFrame.
Proof. apply checksummed_append. Qed.

Lemma singleParamFrame_checksummed : checksummed singleParamFrame.
Proof. apply checksummed_append. Qed.

Lemma ackSingleFrame_checksummed : checksummed ackSingleFrame.
Proof. apply checksummed_append. Qed.

Lemma readFrame_checksummed label startAddress dataLength :
  checksummed (readFrame label startAddress dataLength).
Proof. apply checksummed_append. Qed.

Lemma writePacket_checksummed data label startAddress length_ :
  checksummed (writePacket data label startAddress length_).
Proof. apply checksummed_append. Qed.

Lemma adds_refl Q sm : adds Q sm sm.
Proof. exists []. now rewrite app_nil_r. Qed.

Lemma adds_trans Q sm1 sm2 sm3 : adds Q sm1 sm2 -> adds Q sm2 sm3 -> adds Q sm1 sm3.
Proof.
  intros (f1 & H1 & F1) (f2 & H2 & F2). exists (f1 ++ f2). split.
  - now rewrite H2, H1, app_assoc.
  - apply Forall_app. now split.
Qed.

Lemma adds_one Q data sm :
  Q data -> adds Q sm (snd (SerialManager_writeData data sm)).
Proof.
  intro H. exists [data]. split.
  - apply (writeData_once data sm).
  - now constructor.
Qed.

Lemma adds_writeData Q data label startAddress length_ sm :
  Q (writePacket data label startAddress length_) ->
  adds Q sm (snd (writeData data label startAddress length_ sm)).
Proof.
  intro H. exists (repeat (writePacket data label startAddress length_) 10).
  split.
  - apply (writeData_spec data label startAddress length_ sm).
  - apply Forall_forall. intros x Hx. now rewrite (repeat_spec _ _ _ Hx).
Qed.

Lemma adds_writeEpc e d sm : adds checksummed sm (snd (writeEpc e d sm)).
Proof.
  unfold writeEpc. destruct (m_currentTag d); [|apply adds_refl].
  apply adds_writeData, writePacket_checksummed.
Qed.

Lemma adds_writeRfu f d sm : adds checksummed sm (snd (writeRfu f d sm)).
Proof.
  unfold writeRfu. destruct (m_currentTag d); [|apply adds_refl].
  apply adds_writeData, writePacket_checksummed.
Qed.

Lemma adds_writeUserData u d sm :
  adds checksummed sm (snd (writeUserData u d sm)).
Proof.
  unfold writeUserData. destruct (m_currentTag d); [|apply adds_refl].
  pose proof (adds_writeData checksummed (mid u 0 16) USR_LABEL 0 8 sm
                (writePacket_checksummed _ _ _ _)) as H1.
  destruct (writeData (mid u 0 16) USR_LABEL 0 8 sm) as [r1 sm1].
  pose proof (adds_writeData checksummed (mid u 16 32) USR_LABEL 8 8 sm1
                (writePacket_checksummed _ _ _ _)) as H2.
  destruct (writeData (mid u 16 32) USR_LABEL 8 8 sm1) as [r2 sm2].
  pose proof (adds_writeData checksummed (mid u 32 48) USR_LABEL 16 8 sm2
                (writePacket_checksummed _ _ _ _)) as H3.
  destruct (writeData (mid u 32 48) USR_LABEL 16 8 sm2) as [r3 sm3].
  pose proof (adds_writeData checksummed (mid u 48 64) USR_LABEL 24 8 sm3
                (writePacket_checksummed _ _ _ _)) as H4.
  destruct (writeData (mid u 48 64) USR_LABEL 24 8 sm3) as [r4 sm4].
  simpl in *. eauto using adds_trans.
Qed.

Lemma adds_eraseTag d sm : adds checksummed sm (snd (eraseTag d sm)).
Proof.
  unfold eraseTag.
  pose proof (adds_writeEpc (repeat (to_char 0) 12) d sm) as H1.
  destruct (writeEpc (repeat (to_char 0) 12) d sm) as [r1 sm1].
  simpl in H1. destruct r1; [|exact H1].
  pose proof (adds_writeRfu (repeat (to_char 0) 8) d sm1) as H2.
  destruct (writeRfu (repeat (to_char 0) 8) d sm1) as [r2 sm2].
  simpl in H2. destruct r2; [|simpl; eauto using adds_trans].
  pose proof (adds_writeUserData (repeat (to_char 0) 13) d sm2) as H3.
  eauto using adds_trans.
Qed.

Lemma adds_scan d sm : adds checksummed sm (snd (scan d sm)).
Proof.
  unfold scan. destruct (m_currentTag d).
  - destruct (m_selector d =? 0); [|destruct (m_selector d =? 1);
      [|destruct (m_selector d =? 2)]]; simpl;
      apply adds_one, readFrame_checksummed.
  - destruct (m_shitCount (set_selector 0 d) >? 10); simpl; apply adds_one.
    + apply stopFrame_checksummed.
    + apply singleParamFrame_checksummed.
Qed.

Lemma readEpcPacketFromScan_quiet P d sm :
  snd (readEpcPacketFromScan P d sm) = sm.
Proof. quiet_decoder readEpcPacketFromScan. Qed.

Lemma readEpcPacket_quiet P d sm : snd (readEpcPacket P d sm) = sm.
Proof. quiet_decoder readEpcPacket. Qed.

Lemma readTagIdPacket_quiet P d sm : snd (readTagIdPacket P d sm) = sm.
Proof. quiet_decoder readTagIdPacket. Qed.

Lemma readRfuPacket_quiet P d sm : snd (readRfuPacket P d sm) = sm.
Proof. quiet_decoder readRfuPacket. Qed.

Lemma readUsrPacket_quiet P d sm : snd (readUsrPacket P d sm) = sm.
Proof. quiet_decoder readUsrPacket. Qed.

Lemma readStdResponse_quiet P d sm : snd (readStdResponse P d sm) = sm.
Proof. quiet_decoder readStdResponse. Qed.

Lemma readStdResult_quiet P d sm : snd (readStdResult P d sm) = sm.
Proof. quiet_decoder readStdResult. Qed.

Lemma adds_readAckPacket P d sm :
  adds checksummed sm (snd (readAckPacket P d sm)).
Proof.
  unfold readAckPacket.
  destruct (length (BUFFER d) <? _)%nat; [apply adds_refl|].
  match goal with |- context [if ?c then _ else _] => destruct c end.
  - apply adds_one, ackSingleFrame_checksummed.
  - apply adds_refl.
Qed.

Lemma adds_tryDecoders P ds :
  Forall (fun f => forall d sm, adds checksummed sm (snd (f P d sm))) ds ->
  forall d sm, adds checksummed sm (snd (tryDecoders P ds d sm)).
Proof.
  induction 1 as [|f ds Hf _ IH]; intros d sm; simpl.
  - apply adds_refl.
  - specialize (Hf d sm).
    destruct (f P d sm) as [[[ok sigs] d'] sm']. simpl in Hf.
    destruct ok; [exact Hf|].
    eapply adds_trans; [exact Hf | apply IH].
Qed.

Lemma adds_decoders P :
  Forall (fun f => forall d sm, adds checksummed sm (snd (f P d sm)))
         decoders.
Proof.
  unfold decoders.
  repeat constructor; intros d sm;
    rewrite ?readEpcPacketFromScan_quiet, ?readEpcPacket_quiet,
      ?readTagIdPacket_quiet, ?readRfuPacket_quiet, ?readUsrPacket_quiet,
      ?readStdResponse_quiet, ?readStdResult_quiet;
    try apply adds_refl.
  apply adds_readAckPacket.
Qed.

Lemma adds_onDataReceived P data d sm :
  adds checksummed sm (snd (onDataReceived P data d sm)).
Proof.
  unfold onDataReceived.
  destruct (isEmpty data); [apply adds_refl|].
  destruct (negb (loaded sm)); [apply adds_refl|].
  destruct (0 <? _)%nat; [|apply adds_refl].
  pose proof (adds_tryDecoders P decoders (adds_decoders P)
                (set_BUFFER (BUFFER d ++ data) d) sm) as H.
  destruct (tryDecoders P decoders _ sm) as [[[ok sigs] d'] sm'].
  simpl in H. destruct ok; [exact H|].
  destruct (_ <? _)%nat; exact H.
Qed.

(** C1. Every frame that a call of the driver hands to the serial manager
    (the stop frame and the GET_SINGLE_PARAM request of [scan], its bank read
    requests, the acknowledgement sent by the ingress handler, and the
    packets of the write and erase operations) ends in the two's complement
    of the byte sum of the bytes before it, and its byte sum is 0 modulo
    256. *)
Theorem transmitted_frames_checksummed (P : Platform) (c : DriverCall)
    (d : SM_6210) (sm : SerialManager) :
  exists frames,
    submitted (snd (runCall P c d sm)) = submitted sm ++ frames /\
    Forall checksummed frames.
Proof.
  change (adds checksummed sm (snd (runCall P c d sm))).
  destruct c; simpl.
  - apply adds_scan.
  - pose proof (adds_onDataReceived P data d sm) as H.
    destruct (onDataReceived P data d sm) as [[sigs d'] sm']. exact H.
  - apply adds_writeEpc.
  - apply adds_writeRfu.
  - apply adds_writeUserData.
  - apply adds_eraseTag.
Qed.

(** ** What a successful decoder removes from the buffer *)

Lemma remove_front (b : QByteArray) (n : Z) :
  remove b 0 n = skipn (Z.to_nat n) b.
Proof.
  unfold remove. destruct (n <=? 0) eqn:Hn; simpl.
  - apply Z.leb_le in Hn. now replace (Z.to_nat n) with O by lia.
  - destruct b; simpl; [now rewrite skipn_nil | reflexivity].
Qed.

Lemma remove_inside (b : QByteArray) (i : nat) (n : Z) :
  (i < length b)%nat -> 0 < n ->
  remove b i n = firstn i b ++ skipn (i + Z.to_nat n) b.
Proof.
  intros Hi Hn. unfold remove.
  replace (n <=? 0) with false by (symmetry; apply Z.leb_gt; lia).
  replace (length b <=? i)%nat with false
    by (symmetry; apply Nat.leb_gt; lia).
  reflexivity.
Qed.

(** A bank read that fails leaves the buffer as it is. *)
Lemma readInformationPacket_fail P label singleTag verifyChecksum buffer :
  let r := readInformationPacket P label singleTag verifyChecksum buffer in
  info_ok r = false -> info_buffer r = buffer.
Proof.
  unfold readInformationPacket.
  repeat match goal with
         | |- context [if ?c then _ else _] => destruct c
         end; simpl; intros; try reflexivity; discriminate.
Qed.

(** A bank read that succeeds returns as many bytes as the word count says,
    reports the word start address of the frame, and removes the bytes before
    the frame together with the seven leading bytes and the payload. *)
Lemma readInformationPacket_ok P label singleTag verifyChecksum buffer :
  let r := readInformationPacket P label singleTag verifyChecksum buffer in
  info_ok r = true ->
  info_buffer r
  = skipn (header_shift HEADER_RESPONSE_CODE buffer + payloadLength buffer + 7)
          buffer /\
  length (info_data r) = payloadLength buffer /\
  info_start r = wordStart P buffer.
Proof.
  unfold readInformationPacket, payloadLength, wordStart.
  set (shift := header_shift HEADER_RESPONSE_CODE buffer).
  set (len := to_quint8 (to_quint8 (ref_char buffer (shift + 6)) * 2)).
  assert (Hlen : 0 <= len) by (apply Z.mod_pos_bound; lia).
  repeat match goal with
         | |- context [if ?c then _ else _] => destruct c
         end; simpl; intros; try discriminate.
  all: rewrite remove_front, length_map, length_seq;
    repeat split; f_equal; lia.
Qed.







(** A successful bank read decode at work: the stray byte and the frame up
    to its last payload byte go, the checksum byte 0x93 of the frame stays in
    front of the byte that followed the frame. *)
Example bank_read_leaves_checksum :
  info_ok (readInformationPacket x86 EPC_LABEL false true
             (BUFFER epcReadAfterGarbage)) = true /\
  info_data (readInformationPacket x86 EPC_LABEL false true
               (BUFFER epcReadAfterGarbage))
  = [0xaa; 0xbb; 0xcc; 0xdd; 0xee; 0xff] /\
  info_buffer (readInformationPacket x86 EPC_LABEL false true
                 (BUFFER epcReadAfterGarbage)) = [0x93; 0x11].
Proof. repeat split; vm_compute; reflexivity. Qed.

(** The acknowledge handshake: the packet is consumed and answered. *)
Example ack_handshake :
  onDataReceived x86 ackPacket SM_6210_new openPort
  = ([], SM_6210_new, snd (SerialManager_writeData ackSingleFrame openPort))
  /\ ackSingleFrame = [0xa0; 0x03; 0x82; 0x00; 0xdb].
Proof. split; vm_compute; reflexivity. Qed.

(** User bank reads at word start 24 and 32: the first is reported as
    datagram 3, the second is dropped; a start address byte of 0xff is -1 on
    a platform with signed [char] and is reported as datagram 0. *)
Example usr_read_datagrams :
  fst (fst (onDataReceived x86 (usrRead 0x18) SM_6210_new openPort))
  = [usrFound [0xaa; 0xbb] 3] /\
  fst (fst (onDataReceived x86 (usrRead 0x20) SM_6210_new openPort)) = [] /\
  fst (fst (onDataReceived x86 (usrRead 0xff) SM_6210_new openPort))
  = [usrFound [0xaa; 0xbb] 0].
Proof. repeat split; vm_compute; reflexivity. Qed.

(** ** The write path *)

Lemma packetPayload_writePacket data label startAddress length_ :
  packetPayload (writePacket data label startAddress length_) = data.
Proof.
  unfold packetPayload, writePacket, insert1. simpl.
  apply removelast_last.
Qed.

Lemma zeroPad_length (n : nat) (b : QByteArray) :
  (length b <= n)%nat -> length (zeroPad n b) = n.
Proof.
  intro H. unfold zeroPad. rewrite length_app, repeat_length. lia.
Qed.

(** C10. Without a current tag, [writeEpc], [writeRfu] and [writeUserData]
    return [false] and leave the serial manager untouched, so that nothing
    is transmitted, whatever the payload and whatever the state of the
    connection. *)
Theorem write_without_current_tag (payload : QByteArray) (d : SM_6210)
    (sm : SerialManager) :
  m_currentTag d = None ->
  writeEpc payload d sm = (false, sm) /\
  writeRfu payload d sm = (false, sm) /\
  writeUserData payload d sm = (false, sm).
Proof.
  intro H. unfold writeEpc, writeRfu, writeUserData. rewrite H. auto.
Qed.

Lemma write_without_current_tag_witness :
  m_currentTag SM_6210_new = None /\
  loaded openPort = true /\
  writeEpc [0x01; 0x02] SM_6210_new openPort = (false, openPort) /\
  writeRfu [0x01; 0x02] SM_6210_new openPort = (false, openPort) /\
  writeUserData [0x01; 0x02] SM_6210_new openPort = (false, openPort).
Proof.
  split; [reflexivity|]. split; [reflexivity|].
  apply (write_without_current_tag [0x01; 0x02] SM_6210_new openPort).
  reflexivity.
Defined.

Lemma forallb_seq0 (f : nat -> bool) (n : nat) :
  forallb f (seq 0 n) = true <-> forall k, (k < n)%nat -> f k = true.
Proof.
  rewrite forallb_forall. split.
  - intros H k Hk. apply H, in_seq. lia.
  - intros H k Hk. apply in_seq in Hk. apply H. lia.
Qed.

Lemma takesAll_later pkt sm sm' n k :
  sameLink sm sm' n -> takesAll pkt sm' k = takesAll pkt sm (n + k).
Proof.
  intros (Hc & _ & Hd & Hn). unfold takesAll. rewrite Hc, Hd, Hn.
  destruct (connected sm); [|reflexivity]. simpl.
  now rewrite Nat.add_assoc.
Qed.

(** [writeUserData] with a current tag: four packets, ten submissions
    each. *)
Lemma writeUserData_spec u d c sm :
  m_currentTag d = Some c ->
  let p1 := writePacket (mid u 0 16) USR_LABEL 0 8 in
  let p2 := writePacket (mid u 16 32) USR_LABEL 8 8 in
  let p3 := writePacket (mid u 32 48) USR_LABEL 16 8 in
  let p4 := writePacket (mid u 48 64) USR_LABEL 24 8 in
  submitted (snd (writeUserData u d sm))
  = submitted sm ++ repeat p1 10 ++ repeat p2 10 ++ repeat p3 10
    ++ repeat p4 10 /\
  fst (writeUserData u d sm)
  = forallb (takesAll p1 sm) (seq 0 10)
    && forallb (fun k => takesAll p2 sm (10 + k)) (seq 0 10)
    && forallb (fun k => takesAll p3 sm (20 + k)) (seq 0 10)
    && forallb (fun k => takesAll p4 sm (30 + k)) (seq 0 10).
Proof.
  intros Hc p1 p2 p3 p4. unfold writeUserData. rewrite Hc.
  destruct (writeData_spec (mid u 0 16) USR_LABEL 0 8 sm) as (S1 & L1 & R1).
  destruct (writeData (mid u 0 16) USR_LABEL 0 8 sm) as [r1 sm1].
  destruct (writeData_spec (mid u 16 32) USR_LABEL 8 8 sm1)
    as (S2 & L2 & R2).
  destruct (writeData (mid u 16 32) USR_LABEL 8 8 sm1) as [r2 sm2].
  destruct (writeData_spec (mid u 32 48) USR_LABEL 16 8 sm2)
    as (S3 & L3 & R3).
  destruct (writeData (mid u 32 48) USR_LABEL 16 8 sm2) as [r3 sm3].
  destruct (writeData_spec (mid u 48 64) USR_LABEL 24 8 sm3)
    as (S4 & L4 & R4).
  destruct (writeData (mid u 48 64) USR_LABEL 24 8 sm3) as [r4 sm4].
  simpl fst in *. simpl snd in *.
  pose proof (sameLink_trans _ _ _ _ _ L1 L2) as L12.
  pose proof (sameLink_trans _ _ _ _ _ L12 L3) as L123.
  split.
  - rewrite S4, S3, S2, S1, <- !app_assoc. reflexivity.
  - rewrite R1, R2, R3, R4. f_equal; [f_equal; [f_equal|]|];
      apply forallb_pointwise; intro k.
    + apply (takesAll_later _ _ _ _ _ L1).
    + apply (takesAll_later _ _ _ _ _ L12).
    + apply (takesAll_later _ _ _ _ _ L123).
Qed.

(** C5, as the code has it.  With a current tag, [writeEpc] and [writeRfu]
    hand their packet to the serial manager ten times in a row, and
    [writeUserData] does so for each of its four packets in turn; the result
    is [true] exactly when every one of these submissions put the whole
    packet on the wire. *)
Theorem write_repeats_ten_times (payload : QByteArray) (d : SM_6210)
    (c : TagPtr) (sm : SerialManager) :
  m_currentTag d = Some c ->
  (submitted (snd (writeEpc payload d sm))
   = submitted sm ++ repeat (writePacket payload EPC_LABEL 2 6) 10 /\
   (fst (writeEpc payload d sm) = true <->
    forall k, (k < 10)%nat ->
              takesAll (writePacket payload EPC_LABEL 2 6) sm k = true)) /\
  (submitted (snd (writeRfu payload d sm))
   = submitted sm ++ repeat (writePacket payload RFU_LABEL 0 4) 10 /\
   (fst (writeRfu payload d sm) = true <->
    forall k, (k < 10)%nat ->
              takesAll (writePacket payload RFU_LABEL 0 4) sm k = true)) /\
  (submitted (snd (writeUserData payload d sm))
   = submitted sm
     ++ repeat (writePacket (mid payload 0 16) USR_LABEL 0 8) 10
     ++ repeat (writePacket (mid payload 16 32) USR_LABEL 8 8) 10
     ++ repeat (writePacket (mid payload 32 48) USR_LABEL 16 8) 10
     ++ repeat (writePacket (mid payload 48 64) USR_LABEL 24 8) 10 /\
   (fst (writeUserData payload d sm) = true <->
    forall k, (k < 10)%nat ->
      takesAll (writePacket (mid payload 0 16) USR_LABEL 0 8) sm k = true /\
      takesAll (writePacket (mid payload 16 32) USR_LABEL 8 8) sm (10 + k)
      = true /\
      takesAll (writePacket (mid payload 32 48) USR_LABEL 16 8) sm (20 + k)
      = true /\
      takesAll (writePacket (mid payload 48 64) USR_LABEL 24 8) sm (30 + k)
      = true)).
Proof.
  intro Hc. split; [|split].
  - unfold writeEpc. rewrite Hc.
    destruct (writeData_spec payload EPC_LABEL 2 6 sm) as (Hs & _ & Hr).
    split; [exact Hs|]. rewrite Hr. apply forallb_seq0.
  - unfold writeRfu. rewrite Hc.
    destruct (writeData_spec payload RFU_LABEL 0 4 sm) as (Hs & _ & Hr).
    split; [exact Hs|]. rewrite Hr. apply forallb_seq0.
  - destruct (writeUserData_spec payload d c sm Hc) as (Hs & Hr).
    split; [exact Hs|]. rewrite Hr, !andb_true_iff, !forallb_seq0.
    split.
    + intros (((H1 & H2) & H3) & H4) k Hk. auto.
    + intro H. repeat split; intros k Hk; apply (H k Hk).
Qed.

Lemma write_repeats_ten_times_witness :
  submitted (snd (writeEpc [0x01; 0x02] taggedDriver openPort))
  = repeat [0xa0; 0x08; 0xab; 0x00; 0x01; 0x02; 0x06; 0x01; 0x02; 0xa1] 10 /\
  length (submitted (snd (writeUserData sampleUserData taggedDriver
                            openPort))) = 40%nat.
Proof.
  pose proof (write_repeats_ten_times [0x01; 0x02] taggedDriver O openPort
                eq_refl) as H.
  pose proof (write_repeats_ten_times sampleUserData taggedDriver O openPort
                eq_refl) as H'.
  split.
  - rewrite (proj1 (proj1 H)). reflexivity.
  - rewrite (proj1 (proj2 (proj2 H'))). reflexivity.
Defined.

(** C5 as stated fails when there is no current tag: on an open port whose
    device would take every byte of the packet at each of the ten attempts,
    [writeEpc] submits nothing and returns [false]. *)
Lemma write_without_tag_submits_nothing :
  (forall k, (k < 10)%nat ->
             takesAll (writePacket [0x01; 0x02] EPC_LABEL 2 6) openPort k
             = true) /\
  fst (writeEpc [0x01; 0x02] SM_6210_new openPort) = false /\
  submitted (snd (writeEpc [0x01; 0x02] SM_6210_new openPort)) = [] /\
  submitted (snd (writeEpc [0x01; 0x02] SM_6210_new openPort))
  <> submitted openPort ++ repeat (writePacket [0x01; 0x02] EPC_LABEL 2 6) 10.
Proof.
  split; [intros k _; reflexivity|].
  split; [reflexivity|]. split; [reflexivity|]. discriminate.
Qed.

(** C4: [writeUserData] on the bytes 0..63, with a current tag and an open
    port.  The four packets go out ten times each at word offsets 0, 8, 16
    and 24, but the second carries the 32 bytes 16..47 and the third the 32
    bytes 32..63: the second argument of [mid] is a length, not an end
    position. *)
Theorem writeUserData_segments :
  fst (writeUserData sampleUserData taggedDriver openPort) = true /\
  map packetPayload
      (submitted (snd (writeUserData sampleUserData taggedDriver openPort)))
  = repeat (map Z.of_nat (seq 0 16)) 10
    ++ repeat (map Z.of_nat (seq 16 32)) 10
    ++ repeat (map Z.of_nat (seq 32 32)) 10
    ++ repeat (map Z.of_nat (seq 48 16)) 10 /\
  map (fun pkt => nth 5 pkt 0)
      (submitted (snd (writeUserData sampleUserData taggedDriver openPort)))
  = repeat 0 10 ++ repeat 8 10 ++ repeat 16 10 ++ repeat 24 10 /\
  mid sampleUserData 16 32 <> map Z.of_nat (seq 16 16).
Proof.
  split; [vm_compute; reflexivity|].
  split; [vm_compute; reflexivity|].
  split; [vm_compute; reflexivity|].
  vm_compute. discriminate.
Qed.

Lemma writeEpc_carries_payload payload d c sm :
  m_currentTag d = Some c ->
  exists pkt,
    submitted (snd (writeEpc payload d sm)) = submitted sm ++ repeat pkt 10 /\
    packetPayload pkt = payload.
Proof.
  intro Hc. unfold writeEpc. rewrite Hc.
  exists (writePacket payload EPC_LABEL 2 6). split.
  - apply (writeData_spec payload EPC_LABEL 2 6 sm).
  - apply packetPayload_writePacket.
Qed.

Lemma writeRfu_carries_payload payload d c sm :
  m_currentTag d = Some c ->
  exists pkt,
    submitted (snd (writeRfu payload d sm)) = submitted sm ++ repeat pkt 10 /\
    packetPayload pkt = payload.
Proof.
  intro Hc. unfold writeRfu. rewrite Hc.
  exists (writePacket payload RFU_LABEL 0 4). split.
  - apply (writeData_spec payload RFU_LABEL 0 4 sm).
  - apply packetPayload_writePacket.
Qed.

Lemma MainWindow_writeEpcData_pads e r rd sm :
  m_reader r = Some rd -> loaded sm = true ->
  (length e <= RFID_EPC_LENGTH)%nat ->
  MainWindow_writeEpcData e r sm
  = (Some (fst (writeEpc (zeroPad RFID_EPC_LENGTH e) rd sm)),
     snd (writeEpc (zeroPad RFID_EPC_LENGTH e) rd sm)).
Proof.
  intros Hr Hl Hlen. unfold MainWindow_writeEpcData, RFID_writeEpc.
  rewrite (zeroPad_length _ _ Hlen), Nat.ltb_irrefl, Hr, Hl.
  now destruct (writeEpc _ rd sm).
Qed.

Lemma MainWindow_writeRfuData_pads f r rd sm :
  m_reader r = Some rd -> loaded sm = true ->
  (length f <= RFID_RFU_LENGTH)%nat ->
  MainWindow_writeRfuData f r sm
  = (Some (fst (writeRfu (zeroPad RFID_RFU_LENGTH f) rd sm)),
     snd (writeRfu (zeroPad RFID_RFU_LENGTH f) rd sm)).
Proof.
  intros Hr Hl Hlen. unfold MainWindow_writeRfuData, RFID_writeRfu.
  rewrite (zeroPad_length _ _ Hlen), Nat.ltb_irrefl, Hr, Hl.
  now destruct (writeRfu _ rd sm).
Qed.

Lemma MainWindow_writeUserData_pads u r rd sm :
  m_reader r = Some rd -> loaded sm = true ->
  (length u <= RFID_USER_LENGTH)%nat ->
  MainWindow_writeUserData u r sm
  = (Some (fst (writeUserData (zeroPad RFID_USER_LENGTH u) rd sm)),
     snd (writeUserData (zeroPad RFID_USER_LENGTH u) rd sm)).
Proof.
  intros Hr Hl Hlen. unfold MainWindow_writeUserData, RFID_writeUserData.
  rewrite (zeroPad_length _ _ Hlen), Nat.ltb_irrefl, Hr, Hl.
  now destruct (writeUserData _ rd sm).
Qed.

(** C3, as the code has it.  The driver transmits the payload it is given:
    with a current tag, the ten packets of [writeEpc] and of [writeRfu] carry
    exactly the bytes passed in.  The padding is done by the write handlers
    of the main window: for a payload shorter than the bank, the handler
    appends zero bytes up to the size of the bank (12 for the EPC, 8 for the
    RFU, 64 for the user bank) and passes the result on, so that the ten
    packets of an EPC or RFU write entered there carry the padded payload. *)
Theorem padding_happens_in_the_main_window (payload : QByteArray) (r : RFID)
    (rd : SM_6210) (c : TagPtr) (sm : SerialManager) :
  m_reader r = Some rd -> m_currentTag rd = Some c -> loaded sm = true ->
  (exists pkt,
      submitted (snd (writeEpc payload rd sm))
      = submitted sm ++ repeat pkt 10 /\
      packetPayload pkt = payload) /\
  (exists pkt,
      submitted (snd (writeRfu payload rd sm))
      = submitted sm ++ repeat pkt 10 /\
      packetPayload pkt = payload) /\
  ((length payload < RFID_EPC_LENGTH)%nat ->
   exists pkt,
     submitted (snd (MainWindow_writeEpcData payload r sm))
     = submitted sm ++ repeat pkt 10 /\
     packetPayload pkt
     = payload ++ repeat 0 (RFID_EPC_LENGTH - length payload) /\
     length (packetPayload pkt) = RFID_EPC_LENGTH) /\
  ((length payload < RFID_RFU_LENGTH)%nat ->
   exists pkt,
     submitted (snd (MainWindow_writeRfuData payload r sm))
     = submitted sm ++ repeat pkt 10 /\
     packetPayload pkt
     = payload ++ repeat 0 (RFID_RFU_LENGTH - length payload) /\
     length (packetPayload pkt) = RFID_RFU_LENGTH) /\
  ((length payload < RFID_USER_LENGTH)%nat ->
   length (payload ++ repeat 0 (RFID_USER_LENGTH - length payload))
   = RFID_USER_LENGTH /\
   MainWindow_writeUserData payload r sm
   = (Some (fst (writeUserData
                   (payload ++ repeat 0 (RFID_USER_LENGTH - length payload))
                   rd sm)),
      snd (writeUserData
             (payload ++ repeat 0 (RFID_USER_LENGTH - length payload))
             rd sm))).
Proof.
  intros Hr Hc Hl.
  destruct (writeEpc_carries_payload payload rd c sm Hc) as (pe & He).
  destruct (writeRfu_carries_payload payload rd c sm Hc) as (pf & Hf).
  split; [exists pe; exact He|]. split; [exists pf; exact Hf|].
  split; [|split].
  - intro Hlen.
    rewrite (MainWindow_writeEpcData_pads payload r rd sm Hr Hl) by lia.
    destruct (writeEpc_carries_payload
                (zeroPad RFID_EPC_LENGTH payload) rd c sm Hc)
      as (pkt & Hs & Hp).
    exists pkt. simpl snd. split; [exact Hs|]. split; [exact Hp|].
    rewrite Hp. apply zeroPad_length. lia.
  - intro Hlen.
    rewrite (MainWindow_writeRfuData_pads payload r rd sm Hr Hl) by lia.
    destruct (writeRfu_carries_payload
                (zeroPad RFID_RFU_LENGTH payload) rd c sm Hc)
      as (pkt & Hs & Hp).
    exists pkt. simpl snd. split; [exact Hs|]. split; [exact Hp|].
    rewrite Hp. apply zeroPad_length. lia.
  - intro Hlen. split.
    + apply (zeroPad_length RFID_USER_LENGTH payload). lia.
    + apply (MainWindow_writeUserData_pads payload r rd sm Hr Hl). lia.
Qed.

Lemma padding_happens_in_the_main_window_witness :
  (exists pkt,
      submitted (snd (MainWindow_writeEpcData [0x01; 0x02] taggedRFID
                        openPort))
      = submitted openPort ++ repeat pkt 10 /\
      packetPayload pkt = [0x01; 0x02; 0; 0; 0; 0; 0; 0; 0; 0; 0; 0] /\
      length (packetPayload pkt) = 12%nat) /\
  (exists pkt,
      submitted (snd (writeEpc [0x01; 0x02] taggedDriver openPort))
      = submitted openPort ++ repeat pkt 10 /\
      packetPayload pkt = [0x01; 0x02]).
Proof.
  pose proof (padding_happens_in_the_main_window [0x01; 0x02] taggedRFID
                taggedDriver O openPort eq_refl eq_refl eq_refl) as H.
  assert (Hlen : (length [0x01; 0x02] < RFID_EPC_LENGTH)%nat)
    by (unfold RFID_EPC_LENGTH; simpl; lia).
  destruct (proj1 (proj2 (proj2 H)) Hlen) as (pkt & Hs & Hp & Hn).
  destruct (proj1 H) as (pkt' & Hs' & Hp').
  split.
  - exists pkt. split; [exact Hs | split; [exact Hp | exact Hn]].
  - exists pkt'. split; [exact Hs' | exact Hp'].
Defined.

(** C3 as stated fails: [writeEpc] called with the two bytes 01 02, with a
    current tag and an open port, submits ten packets that carry the two
    bytes 01 02, not twelve; the same holds when the call goes through
    [RFID::writeEpc]. *)
Lemma writeEpc_does_not_pad :
  submitted (snd (writeEpc [0x01; 0x02] taggedDriver openPort))
  = repeat [0xa0; 0x08; 0xab; 0x00; 0x01; 0x02; 0x06; 0x01; 0x02; 0xa1] 10 /\
  submitted (snd (RFID_writeEpc [0x01; 0x02] taggedRFID openPort))
  = repeat [0xa0; 0x08; 0xab; 0x00; 0x01; 0x02; 0x06; 0x01; 0x02; 0xa1] 10 /\
  packetPayload [0xa0; 0x08; 0xab; 0x00; 0x01; 0x02; 0x06; 0x01; 0x02; 0xa1]
  = [0x01; 0x02] /\
  packetPayload [0xa0; 0x08; 0xab; 0x00; 0x01; 0x02; 0x06; 0x01; 0x02; 0xa1]
  <> [0x01; 0x02; 0; 0; 0; 0; 0; 0; 0; 0; 0; 0].
Proof.
  split; [vm_compute; reflexivity|].
  split; [vm_compute; reflexivity|].
  split; [reflexivity | discriminate].
Qed.

(** ** The ingress buffer *)

(** When no decoder reads a packet, the handler leaves at most
    [RFID_MAX_BUFFER_SIZE] bytes in the buffer. *)
Lemma onDataReceived_unmatched_cap P data d sm sigs d' sm' :
  isEmpty data = false -> loaded sm = true ->
  tryDecoders P decoders (set_BUFFER (BUFFER d ++ data) d) sm
  = (false, sigs, d', sm') ->
  (length (BUFFER (snd (fst (onDataReceived P data d sm))))
   <= RFID_MAX_BUFFER_SIZE)%nat.
Proof.
  intros He Hl Ht. unfold onDataReceived. rewrite He, Hl. simpl negb.
  cbv iota.
  destruct (0 <? length (BUFFER (set_BUFFER (BUFFER d ++ data) d)))%nat
    eqn:Hpos.
  - rewrite Ht.
    destruct (RFID_MAX_BUFFER_SIZE <? _)%nat eqn:Hcap.
    + simpl. lia.
    + apply Nat.ltb_ge in Hcap. exact Hcap.
  - apply Nat.ltb_ge in Hpos. simpl in *. lia.
Qed.

(** C6: sixteen batches in which no decoder finds a packet fill the buffer
    up to [RFID_MAX_BUFFER_SIZE]; the next batch starts with an acknowledge
    packet, which [readAckPacket] reads, so that the handler returns before
    it looks at the size of the buffer: 16392 bytes stay buffered. *)
Theorem buffer_exceeds_cap_after_decode :
  Z.of_nat RFID_MAX_BUFFER_SIZE = 16384 /\
  loaded openPort = true /\
  Z.of_nat (length (BUFFER (fst (ingress x86 (repeat (repeat 0 1024) 16)
                                   SM_6210_new openPort)))) = 16384 /\
  Z.of_nat (length (BUFFER (fst (ingress x86 floodBatches SM_6210_new
                                   openPort)))) = 16392 /\
  submitted (snd (ingress x86 floodBatches SM_6210_new openPort))
  = [ackSingleFrame].
Proof.
  split; [reflexivity|]. split; [reflexivity|].
  split; [vm_compute; reflexivity|].
  split; vm_compute; reflexivity.
Qed.

(** ** The loops that run on fuel *)

Lemma removeAt_length {A : Type} (j : nat) (l : list A) :
  (length (removeAt j l) <= length l)%nat.
Proof.
  unfold removeAt. rewrite length_app, length_firstn, length_skipn. lia.
Qed.

Lemma cleanupInner_length fuel s ta : forall j tags sigs,
  (length (fst (cleanupInner fuel s ta j tags sigs)) <= length tags)%nat.
Proof.
  induction fuel as [|fuel IH]; intros j tags sigs; simpl; [lia|].
  destruct (j <? length tags)%nat; [|simpl; lia].
  eapply Nat.le_trans; [apply IH|].
  destruct (ta =? nth j tags O)%nat; [apply removeAt_length|].
  destruct (bytes_eqb _ _); [apply removeAt_length | lia].
Qed.

(** The inner loop has ended once the fuel is what is left of the list. *)
Lemma cleanupInner_fuel s ta fuel : forall j tags sigs,
  (length tags - j <= fuel)%nat ->
  cleanupInner (S fuel) s ta j tags sigs = cleanupInner fuel s ta j tags sigs.
Proof.
  induction fuel as [|fuel IH]; intros j tags sigs Hf.
  - simpl. destruct (j <? length tags)%nat eqn:E; [|reflexivity].
    apply Nat.ltb_lt in E. lia.
  - change (cleanupInner (S (S fuel)) s ta j tags sigs)
      with (if (j <? length tags)%nat then
              let tb := nth j tags O in
              let tags' :=
                if (ta =? tb)%nat then removeAt j tags
                else if bytes_eqb (tid (deref s ta)) (tid (deref s tb))
                     then removeAt j tags else tags in
              let sigs' :=
                if (length tags =? length tags')%nat then sigs
                else sigs ++ [tagCountChanged] in
              cleanupInner (S fuel) s ta (S j) tags' sigs'
            else (tags, sigs)).
    change (cleanupInner (S fuel) s ta j tags sigs)
      with (if (j <? length tags)%nat then
              let tb := nth j tags O in
              let tags' :=
                if (ta =? tb)%nat then removeAt j tags
                else if bytes_eqb (tid (deref s ta)) (tid (deref s tb))
                     then removeAt j tags else tags in
              let sigs' :=
                if (length tags =? length tags')%nat then sigs
                else sigs ++ [tagCountChanged] in
              cleanupInner fuel s ta (S j) tags' sigs'
            else (tags, sigs)).
    destruct (j <? length tags)%nat; [|reflexivity].
    cbv zeta. apply IH.
    assert (H : forall b : bool,
               (length (if b then removeAt j tags else tags)
                <= length tags)%nat)
      by (intros []; [apply removeAt_length | lia]).
    destruct (ta =? nth j tags O)%nat.
    + specialize (H true). simpl in H. lia.
    + specialize (H (bytes_eqb (tid (deref s ta))
                               (tid (deref s (nth j tags O))))). lia.
Qed.

(** The same for the outer loop. *)
Lemma cleanupOuter_fuel s fuel : forall i tags sigs,
  (length tags - i <= fuel)%nat ->
  cleanupOuter (S fuel) s i tags sigs = cleanupOuter fuel s i tags sigs.
Proof.
  induction fuel as [|fuel IH]; intros i tags sigs Hf.
  - simpl. destruct (i <? length tags)%nat eqn:E; [|reflexivity].
    apply Nat.ltb_lt in E. lia.
  - change (cleanupOuter (S (S fuel)) s i tags sigs)
      with (if (i <? length tags)%nat then
              let ta := nth i tags O in
              let '(tags', sigs') :=
                cleanupInner (length tags) s ta (S i) tags sigs in
              cleanupOuter (S fuel) s (S i) tags' sigs'
            else (tags, sigs)).
    change (cleanupOuter (S fuel) s i tags sigs)
      with (if (i <? length tags)%nat then
              let ta := nth i tags O in
              let '(tags', sigs') :=
                cleanupInner (length tags) s ta (S i) tags sigs in
              cleanupOuter fuel s (S i) tags' sigs'
            else (tags, sigs)).
    destruct (i <? length tags)%nat; [|reflexivity].
    cbv zeta.
    pose proof (cleanupInner_length (length tags) s (nth i tags O) (S i)
                  tags sigs) as Hl.
    destruct (cleanupInner (length tags) s (nth i tags O) (S i) tags sigs)
      as [tags' sigs'].
    simpl in Hl. apply IH. lia.
Qed.

(** Once the time has passed, the watchdog is not due. *)
Lemma expire_settles now fuel : forall r t,
  m_watchdog r = Some t ->
  (now - t) / RFID_CURRENT_TAG_TIMEOUT <= Z.of_nat fuel ->
  exists t', m_watchdog (expire fuel now r) = Some t' /\
             now < t' + RFID_CURRENT_TAG_TIMEOUT.
Proof.
  unfold RFID_CURRENT_TAG_TIMEOUT.
  induction fuel as [|fuel IH]; intros r t Hw Hf.
  - exists t. split; [exact Hw|].
    assert (now - t < 1000); [|lia].
    apply Z.nle_gt. intro Hge.
    pose proof (Z.div_le_mono 1000 (now - t) 1000 ltac:(lia) Hge) as Hd.
    rewrite Z.div_same in Hd by lia. simpl in Hf. lia.
  - simpl. rewrite Hw. unfold RFID_CURRENT_TAG_TIMEOUT.
    destruct (t + 1000 <=? now) eqn:E.
    + apply Z.leb_le in E.
      apply (IH _ (t + 1000)).
      * unfold resetCurrentTag. now destruct (m_reader r).
      * replace (now - (t + 1000)) with ((now - t) + (-1) * 1000) by lia.
        rewrite Z.div_add by lia. lia.
    + apply Z.leb_gt in E. exists t. split; [exact Hw | lia].
Qed.

Lemma passTime_settles now r t :
  m_watchdog r = Some t ->
  exists t', m_watchdog (passTime now r) = Some t' /\
             now < t' + RFID_CURRENT_TAG_TIMEOUT.
Proof.
  intro Hw. unfold passTime. rewrite Hw.
  apply (expire_settles now _ r t Hw). lia.
Qed.

(** ** The history *)

(** C7: after the events of [sharedEpcEvents] the history holds two distinct
    records with the same non-empty TID.  The last event makes the first
    record of the list take TID B; the cleanup then removes the second
    record and, having removed it, skips the record that follows, which also
    has TID B. *)
Theorem history_keeps_duplicate_tid :
  exists r,
    bankEvents sharedEpcEvents freshRFID = Some r /\
    m_tags r = [0; 4]%nat /\
    map tid (history r) = [tidB; tidB] /\
    map epc (history r) = [epcA; epcA] /\
    isEmpty tidB = false.
Proof.
  eexists. split; [vm_compute; reflexivity|].
  repeat split.
Qed.

(** ** The watchdog *)

Lemma resetCurrentTag_effect now r rd :
  m_reader r = Some rd ->
  currentTag (resetCurrentTag now r) = None /\
  m_tags (resetCurrentTag now r) = m_tags r /\
  store (resetCurrentTag now r) = store r /\
  emitted (resetCurrentTag now r) = emitted r ++ [currentTagChanged] /\
  m_watchdog (resetCurrentTag now r) = Some now.
Proof.
  intro H. unfold resetCurrentTag, currentTag. rewrite H. simpl. auto.
Qed.

Lemma updateTagList_rearms now tag r r' :
  updateTagList now tag r = Some r' ->
  m_watchdog r' = Some now /\ currentTag r' = Some tag.
Proof.
  unfold updateTagList, currentTag.
  destruct (m_reader r) as [rd|]; [|discriminate].
  destruct (findTag _ _ _) as [t|].
  - destruct (mergeInto _ _) as [t' sigs].
    destruct (cleanupOuter _ _ _ _ _) as [tags sigs'].
    destruct (m_currentTag rd) as [c|] eqn:Hc;
      [destruct (c =? tag)%nat eqn:E|]; intro H; injection H as <-; simpl;
      split; try reflexivity.
    apply Nat.eqb_eq in E. now subst.
  - destruct (cleanupOuter _ _ _ _ _) as [tags sigs'].
    destruct (m_currentTag rd) as [c|] eqn:Hc;
      [destruct (c =? tag)%nat eqn:E|]; intro H; injection H as <-; simpl;
      split; try reflexivity.
    apply Nat.eqb_eq in E. now subst.
Qed.

(** C8: tag A becomes the current tag by an EPC event at time 0 and the same
    EPC is reported again at 600 ms.  The second event does not start the
    watchdog again, which therefore fires at 1000 ms and clears the current
    tag 400 ms after a bank event; the record stays in the history.  A TID
    event at 600 ms does start the watchdog again, and the tag is still
    current at 1000 ms. *)
Theorem epc_event_does_not_rearm_watchdog :
  exists r1 r2 r2',
    bankEvent 0 (epcFound epcA) freshRFID = Some r1 /\
    currentTag r1 = Some O /\ m_watchdog r1 = Some 0 /\
    bankEvent 600 (epcFound epcA) r1 = Some r2 /\
    currentTag r2 = Some O /\ m_watchdog r2 = Some 0 /\
    currentTag (passTime 1000 r2) = None /\
    emitted (passTime 1000 r2) = emitted r2 ++ [currentTagChanged] /\
    map epc (history (passTime 1000 r2)) = [epcA] /\
    bankEvent 600 (tidFound tidA) r1 = Some r2' /\
    m_watchdog r2' = Some 600 /\
    currentTag (passTime 1000 r2') = Some O.
Proof.
  eexists _, _, _.
  split; [vm_compute; reflexivity|]. split; [reflexivity|].
  split; [reflexivity|].
  split; [vm_compute; reflexivity|]. split; [reflexivity|].
  split; [reflexivity|]. split; [reflexivity|]. split; [reflexivity|].
  split; [reflexivity|].
  split; [vm_compute; reflexivity|]. split; reflexivity.
Qed.

(** ** The user datagram index *)

Lemma readUsrPacket_datagram P d sm :
  Forall (fun sig => datagramFromWordStart P (BUFFER d) sig /\
                     datagramInRange sig)
         (signalsOf (readUsrPacket P d sm)).
Proof.
  unfold readUsrPacket, signalsOf.
  destruct (info_ok _) eqn:Hok; simpl; [|constructor].
  destruct (readInformationPacket_ok P USR_LABEL false true (BUFFER d) Hok)
    as (_ & _ & Hstart).
  rewrite Hstart.
  destruct (_ || _) eqn:Hrange; simpl; constructor; [|constructor].
  apply orb_false_iff in Hrange. destruct Hrange as [Hhi Hlo].
  split; [reflexivity|]. simpl. unfold RFID_NUM_USER_DATAGRAMS in *. lia.
Qed.

Lemma decoders_in_range P :
  Forall (fun f => forall d sm,
              Forall datagramInRange (signalsOf (f P d sm)))
         decoders.
Proof.
  unfold decoders. repeat constructor.
  - silent_decoder readAckPacket.
  - silent_decoder readEpcPacketFromScan.
  - silent_decoder readEpcPacket.
  - silent_decoder readTagIdPacket.
  - silent_decoder readRfuPacket.
  - intros d sm. eapply Forall_impl; [|apply readUsrPacket_datagram].
    now intros sig [_ H].
  - silent_decoder readStdResponse.
  - silent_decoder readStdResult.
Qed.

Lemma tryDecoders_in_range P ds :
  Forall (fun f => forall d sm,
              Forall datagramInRange (signalsOf (f P d sm))) ds ->
  forall d sm, Forall datagramInRange (signalsOf (tryDecoders P ds d sm)).
Proof.
  induction 1 as [|f ds Hf _ IH]; intros d sm; simpl.
  - constructor.
  - specialize (Hf d sm).
    destruct (f P d sm) as [[[ok sigs] d'] sm']. destruct ok.
    + exact Hf.
    + apply IH.
Qed.

Lemma onDataReceived_in_range P data d sm :
  Forall datagramInRange (fst (fst (onDataReceived P data d sm))).
Proof.
  unfold onDataReceived.
  destruct (isEmpty data); [constructor|].
  destruct (negb (loaded sm)); [constructor|].
  destruct (0 <? _)%nat; [|constructor].
  pose proof (tryDecoders_in_range P decoders (decoders_in_range P)
                (set_BUFFER (BUFFER d ++ data) d) sm) as H.
  destruct (tryDecoders P decoders _ sm) as [[[ok sigs] d'] sm'].
  unfold signalsOf in H. simpl in H.
  destruct ok; [exact H|]. destruct (_ <? _)%nat; exact H.
Qed.

Lemma updateTagList_total now tag r :
  hasReader r ->
  exists r', updateTagList now tag r = Some r' /\ hasReader r'.
Proof.
  unfold hasReader, updateTagList.
  destruct (m_reader r) as [rd|]; [intros _|congruence].
  destruct (findTag _ _ _) as [t|].
  - destruct (mergeInto _ _) as [t' sigs].
    destruct (cleanupOuter _ _ _ _ _) as [tags sigs'].
    destruct (m_currentTag rd) as [c|]; [destruct (c =? tag)%nat|];
      eexists; (split; [reflexivity | simpl; discriminate]).
  - destruct (cleanupOuter _ _ _ _ _) as [tags sigs'].
    destruct (m_currentTag rd) as [c|]; [destruct (c =? tag)%nat|];
      eexists; (split; [reflexivity | simpl; discriminate]).
Qed.

Lemma hasReader_set_store s sigs r : hasReader r -> hasReader (set_store s sigs r).
Proof. exact (fun H => H). Qed.

Lemma onEpcFound_total now e r :
  hasReader r -> exists r', onEpcFound now e r = Some r' /\ hasReader r'.
Proof. intro H. unfold onEpcFound, newTag. slot_total updateTagList_total. Qed.

Lemma onTidFound_total now i r :
  hasReader r -> exists r', onTidFound now i r = Some r' /\ hasReader r'.
Proof. intro H. unfold onTidFound, newTag. slot_total updateTagList_total. Qed.

Lemma onRfuFound_total now f r :
  hasReader r -> exists r', onRfuFound now f r = Some r' /\ hasReader r'.
Proof. intro H. unfold onRfuFound, newTag. slot_total updateTagList_total. Qed.

Lemma onUsrFound_total now u datagram r :
  hasReader r -> 0 <= datagram < RFID_NUM_USER_DATAGRAMS ->
  exists r', onUsrFound now u datagram r = Some r' /\ hasReader r'.
Proof.
  intros H Hk. unfold onUsrFound, newTag.
  replace ((datagram <? RFID_NUM_USER_DATAGRAMS) && (0 <=? datagram))
    with true by (symmetry; apply andb_true_iff; split;
                  [apply Z.ltb_lt | apply Z.leb_le]; lia).
  slot_total updateTagList_total.
Qed.

Lemma dispatchAll_total now sigs : forall r,
  hasReader r -> Forall datagramInRange sigs ->
  exists r', dispatchAll now sigs r = Some r' /\ hasReader r'.
Proof.
  induction sigs as [|sig sigs IH]; intros r Hr Hs; simpl.
  - now exists r.
  - inversion Hs as [|? ? Hsig Hrest]; subst.
    assert (exists r1, dispatch now sig r = Some r1 /\ hasReader r1)
      as (r1 & Hd & Hr1).
    { destruct sig; simpl.
      - now apply onTidFound_total.
      - now apply onEpcFound_total.
      - now apply onRfuFound_total.
      - now apply onUsrFound_total. }
    rewrite Hd. now apply IH.
Qed.

(** What the driver does guarantee of the datagram index.  The index of a
    [usrFound] signal emitted by [readUsrPacket] is the word start address,
    as the [int] the decoder read it, divided by 8 and rounded towards zero,
    and lies in [0, RFID_NUM_USER_DATAGRAMS); every signal the ingress
    handler emits, for any batch of bytes in any state of the driver, has
    its datagram index in that range; and the slots of the aggregator, which
    check the index before they use it on the [usr] array, go through for
    every batch. *)
Theorem usr_datagram_in_range (P : Platform) (now : Z) (data : QByteArray)
    (d : SM_6210) (r : RFID) (sm : SerialManager) :
  Forall (fun sig => datagramFromWordStart P (BUFFER d) sig /\
                     datagramInRange sig)
         (signalsOf (readUsrPacket P d sm)) /\
  Forall datagramInRange (fst (fst (onDataReceived P data d sm))) /\
  dataReceived P now data r sm <> None.
Proof.
  split; [apply readUsrPacket_datagram|].
  split; [apply onDataReceived_in_range|].
  unfold dataReceived. destruct (m_reader r) as [rd|]; [|discriminate].
  pose proof (onDataReceived_in_range P data rd sm) as Hs.
  destruct (onDataReceived P data rd sm) as [[sigs rd'] sm']. simpl in Hs.
  destruct (dispatchAll_total now sigs (set_reader rd' r)) as (r' & Hd & _);
    [discriminate | exact Hs |].
  rewrite Hd. discriminate.
Qed.

(** C9: a user bank response whose word start byte is 0xFF names the words
    from 255 on, datagram 31, and is to be discarded.  Where [char] is
    signed the decoder reads the byte as -1, the division by 8 rounds
    towards zero, and the response is emitted as datagram 0: its payload
    ends up in [usr[0]] of a tag record.  The same happens for every start
    byte from 0xF9 to 0xFF.  Where [char] is unsigned the response is
    discarded, as is, on either platform, one for the word address 32; and
    the start byte 0xF8, read as -8, gives the index -1 and is discarded. *)
Theorem signed_word_start_reaches_datagram_0 :
  usrRead 0xff
  = [0xe0; 0x08; 0x80; 0x00; 0x03; 0xff; 0x01; 0xaa; 0xbb; 0x30] /\
  loaded openPort = true /\
  wordStart x86 (usrRead 0xff) = -1 /\
  wordStart arm (usrRead 0xff) = 255 /\
  signalsOf (readUsrPacket x86 (set_BUFFER (usrRead 0xff) SM_6210_new)
               openPort)
  = [usrFound [0xaa; 0xbb] 0] /\
  Forall (fun a => fst (fst (onDataReceived x86 (usrRead a) SM_6210_new
                               openPort))
                   = [usrFound [0xaa; 0xbb] 0])
         [0xf9; 0xfa; 0xfb; 0xfc; 0xfd; 0xfe; 0xff] /\
  (exists r',
      dataReceived x86 0 (usrRead 0xff) freshRFID openPort
      = Some (r', openPort) /\
      map usr (history r') = [[[0xaa; 0xbb]; []; []; []]]) /\
  fst (fst (onDataReceived arm (usrRead 0xff) SM_6210_new openPort)) = [] /\
  fst (fst (onDataReceived x86 (usrRead 0x20) SM_6210_new openPort)) = [] /\
  fst (fst (onDataReceived arm (usrRead 0x20) SM_6210_new openPort)) = [] /\
  fst (fst (onDataReceived x86 (usrRead 0xf8) SM_6210_new openPort)) = [].
Proof.
  split; [reflexivity|]. split; [reflexivity|].
  split; [reflexivity|]. split; [reflexivity|].
  split; [vm_compute; reflexivity|].
  split; [repeat constructor|].
  split; [eexists; split; [vm_compute; reflexivity | reflexivity]|].
  repeat split.
Qed.

(** * Further properties of the driver *)

(** ** The scan cycle *)

Lemma submitted_once data sm :
  submitted (snd (SerialManager_writeData data sm)) = submitted sm ++ [data].
Proof. apply (writeData_once data sm). Qed.

Lemma scan_step_tid d c sm :
  m_currentTag d = Some c -> m_selector d = 0 ->
  scan d sm = (set_selector 1 d,
               snd (SerialManager_writeData (readFrame TID_LABEL 0 6) sm)).
Proof.
  intros Hc Hs. unfold scan, readTid. rewrite Hc, Hs. simpl. rewrite Hs.
  reflexivity.
Qed.

Lemma scan_step_rfu d c sm :
  m_currentTag d = Some c -> m_selector d = 1 ->
  scan d sm = (set_selector 2 d,
               snd (SerialManager_writeData (readFrame RFU_LABEL 0 4) sm)).
Proof.
  intros Hc Hs. unfold scan, readRfu. rewrite Hc, Hs. simpl. rewrite Hs.
  reflexivity.
Qed.

Lemma scan_step_usr d c sm :
  m_currentTag d = Some c -> m_selector d = 2 ->
  scan d sm = (set_selector 3 (fst (readUsr d sm)), snd (readUsr d sm)).
Proof.
  intros Hc Hs. unfold scan. rewrite Hc, Hs. simpl.
  unfold readUsr. destruct (m_userStartAddress d >? 24); simpl;
    rewrite Hs; reflexivity.
Qed.

Lemma scan_step_epc d c sm :
  m_currentTag d = Some c -> m_selector d = 3 ->
  scan d sm = (set_selector 0 d,
               snd (SerialManager_writeData (readFrame EPC_LABEL 2 6) sm)).
Proof.
  intros Hc Hs. unfold scan, readEpc. rewrite Hc, Hs. reflexivity.
Qed.

Lemma scan_selector_range d sm : 0 <= m_selector (fst (scan d sm)) <= 3.
Proof.
  unfold scan. destruct (m_currentTag d).
  - destruct (m_selector d =? 0) eqn:E0.
    { apply Z.eqb_eq in E0. simpl. rewrite E0. vm_compute. split; discriminate. }
    destruct (m_selector d =? 1) eqn:E1.
    { apply Z.eqb_eq in E1. simpl. rewrite E1. vm_compute. split; discriminate. }
    destruct (m_selector d =? 2) eqn:E2.
    { apply Z.eqb_eq in E2. unfold readUsr.
      destruct (m_userStartAddress d >? 24); simpl; rewrite E2; vm_compute;
        split; discriminate. }
    simpl. vm_compute. split; discriminate.
  - destruct (m_shitCount (set_selector 0 d) >? 10); simpl; lia.
Qed.

Lemma readUsr_effect d sm :
  let a := if m_userStartAddress d >? 24 then 0 else m_userStartAddress d in
  submitted (snd (readUsr d sm))
  = submitted sm ++ [readFrame USR_LABEL a 8] /\
  m_userStartAddress (fst (readUsr d sm)) = to_quint8 (a + 8) /\
  m_selector (fst (readUsr d sm)) = m_selector d /\
  m_shitCount (fst (readUsr d sm)) = m_shitCount d /\
  m_currentTag (fst (readUsr d sm)) = m_currentTag d /\
  BUFFER (fst (readUsr d sm)) = BUFFER d.
Proof.
  unfold readUsr. destruct (m_userStartAddress d >? 24); simpl;
    rewrite submitted_once; repeat split; reflexivity.
Qed.

(** X1. With a current tag and the selector at 0, four calls of [scan] send
    the read requests for the TID, the RFU, the user bank and the EPC, in
    this order and nothing else, and bring the selector back to 0; the user
    request asks for the eight words at the cursor (at 0 if the cursor is
    beyond 24), and the cursor moves on by 8.  After any call of [scan] the
    selector is between 0 and 3. *)
Theorem scan_cycle (P : Platform) (d : SM_6210) (c : TagPtr)
    (sm : SerialManager) :
  m_currentTag d = Some c -> m_selector d = 0 ->
  submitted (snd (runCalls P [CallScan; CallScan; CallScan; CallScan] d sm))
  = submitted sm
    ++ [readFrame TID_LABEL 0 6; readFrame RFU_LABEL 0 4;
        readFrame USR_LABEL
          (if m_userStartAddress d >? 24 then 0 else m_userStartAddress d) 8;
        readFrame EPC_LABEL 2 6] /\
  m_selector (fst (runCalls P [CallScan; CallScan; CallScan; CallScan] d sm))
  = 0 /\
  m_userStartAddress
    (fst (runCalls P [CallScan; CallScan; CallScan; CallScan] d sm))
  = to_quint8
      ((if m_userStartAddress d >? 24 then 0 else m_userStartAddress d) + 8) /\
  m_currentTag
    (fst (runCalls P [CallScan; CallScan; CallScan; CallScan] d sm))
  = Some c /\
  forall d0 sm0, 0 <= m_selector (fst (scan d0 sm0)) <= 3.
Proof.
  intros Hc Hs.
  assert (H : runCalls P [CallScan; CallScan; CallScan; CallScan] d sm
              = scan (fst (scan (fst (scan (fst (scan d sm))
                                           (snd (scan d sm))))
                                (snd (scan (fst (scan d sm))
                                           (snd (scan d sm))))))
                     (snd (scan (fst (scan (fst (scan d sm))
                                           (snd (scan d sm))))
                                (snd (scan (fst (scan d sm))
                                           (snd (scan d sm))))))).
  { simpl. destruct (scan d sm) as [d1 sm1]. simpl.
    destruct (scan d1 sm1) as [d2 sm2]. simpl.
    destruct (scan d2 sm2) as [d3 sm3]. simpl.
    now destruct (scan d3 sm3). }
  rewrite H. clear H.
  rewrite (scan_step_tid d c sm Hc Hs). cbn [fst snd].
  rewrite (scan_step_rfu (set_selector 1 d) c _ Hc eq_refl).
  cbn [fst snd].
  rewrite (scan_step_usr (set_selector 2 (set_selector 1 d)) c _ Hc eq_refl).
  cbn [fst snd].
  destruct (readUsr_effect (set_selector 2 (set_selector 1 d))
              (snd (SerialManager_writeData (readFrame RFU_LABEL 0 4)
                      (snd (SerialManager_writeData (readFrame TID_LABEL 0 6)
                              sm)))))
    as (Hsub & Hcur & _ & _ & Htag & _).
  change (m_currentTag (set_selector 2 (set_selector 1 d)))
    with (m_currentTag d) in Htag.
  change (m_userStartAddress (set_selector 2 (set_selector 1 d)))
    with (m_userStartAddress d) in Hsub, Hcur.
  rewrite Hc in Htag.
  rewrite (scan_step_epc
             (set_selector 3
                (fst (readUsr (set_selector 2 (set_selector 1 d))
                        (snd (SerialManager_writeData
                                (readFrame RFU_LABEL 0 4)
                                (snd (SerialManager_writeData
                                        (readFrame TID_LABEL 0 6) sm)))))))
             c _ Htag eq_refl). cbn [fst snd].
  split; [|split; [|split; [|split]]].
  - rewrite submitted_once, Hsub, !submitted_once, <- !app_assoc.
    reflexivity.
  - reflexivity.
  - exact Hcur.
  - exact Htag.
  - intros d0 sm0. apply scan_selector_range.
Qed.

Lemma scan_cycle_witness :
  submitted (snd (runCalls x86 [CallScan; CallScan; CallScan; CallScan]
                    taggedDriver openPort))
  = [readFrame TID_LABEL 0 6; readFrame RFU_LABEL 0 4;
     readFrame USR_LABEL 0 8; readFrame EPC_LABEL 2 6] /\
  m_selector (fst (runCalls x86 [CallScan; CallScan; CallScan; CallScan]
                     taggedDriver openPort)) = 0.
Proof.
  pose proof (scan_cycle x86 taggedDriver O openPort eq_refl eq_refl) as H.
  split; [exact (proj1 H) | exact (proj1 (proj2 H))].
Defined.

(** ** What the ingress handler does to the driver *)

Lemma remove_length (b : QByteArray) (pos : nat) (n : Z) :
  (length (remove b pos n) <= length b)%nat.
Proof.
  unfold remove. destruct (_ || _); [lia|].
  rewrite length_app, length_firstn, length_skipn. lia.
Qed.

Lemma readInformationPacket_length P label singleTag verifyChecksum buffer :
  (length (info_buffer (readInformationPacket P label singleTag
                          verifyChecksum buffer)) <= length buffer)%nat.
Proof.
  destruct (info_ok (readInformationPacket P label singleTag verifyChecksum
                       buffer)) eqn:Hok.
  - destruct (readInformationPacket_ok _ _ _ _ _ Hok) as (Hb & _).
    rewrite Hb, length_skipn. lia.
  - rewrite (readInformationPacket_fail _ _ _ _ _ Hok). lia.
Qed.

Lemma readEpcPacketFromScan_step P d sm :
  decoderStep d sm (readEpcPacketFromScan P d sm).
Proof. bank_decoder_step readEpcPacketFromScan readInformationPacket_length. Qed.

Lemma readEpcPacket_step P d sm : decoderStep d sm (readEpcPacket P d sm).
Proof. bank_decoder_step readEpcPacket readInformationPacket_length. Qed.

Lemma readTagIdPacket_step P d sm : decoderStep d sm (readTagIdPacket P d sm).
Proof. bank_decoder_step readTagIdPacket readInformationPacket_length. Qed.

Lemma readRfuPacket_step P d sm : decoderStep d sm (readRfuPacket P d sm).
Proof. bank_decoder_step readRfuPacket readInformationPacket_length. Qed.

Lemma readUsrPacket_step P d sm : decoderStep d sm (readUsrPacket P d sm).
Proof. bank_decoder_step readUsrPacket readInformationPacket_length. Qed.

Lemma readAckPacket_step P d sm : decoderStep d sm (readAckPacket P d sm).
Proof.
  unfold readAckPacket, decoderStep.
  destruct (length (BUFFER d) <? _)%nat; [simpl; repeat split; auto|].
  match goal with |- context [if ?c then _ else _] => destruct c end;
    simpl; repeat split; auto using remove_length.
Qed.

Lemma readStdResponse_step P d sm : decoderStep d sm (readStdResponse P d sm).
Proof.
  unfold readStdResponse, decoderStep.
  repeat match goal with
         | |- context [if ?c then _ else _] => destruct c
         end; simpl; repeat split; auto using remove_length.
Qed.

Lemma readStdResult_step P d sm : decoderStep d sm (readStdResult P d sm).
Proof.
  unfold readStdResult, decoderStep.
  repeat match goal with
         | |- context [if ?c then _ else _] => destruct c
         end; simpl; repeat split; auto using remove_length.
Qed.

Lemma decoders_step P :
  Forall (fun f => forall d sm, decoderStep d sm (f P d sm)) decoders.
Proof.
  unfold decoders. repeat constructor; intros d sm.
  - apply readAckPacket_step.
  - apply readEpcPacketFromScan_step.
  - apply readEpcPacket_step.
  - apply readTagIdPacket_step.
  - apply readRfuPacket_step.
  - apply readUsrPacket_step.
  - apply readStdResponse_step.
  - apply readStdResult_step.
Qed.

Lemma tryDecoders_step P ds :
  Forall (fun f => forall d sm, decoderStep d sm (f P d sm)) ds ->
  forall d sm, decoderStep d sm (tryDecoders P ds d sm).
Proof.
  induction 1 as [|f ds Hf _ IH]; intros d sm; simpl.
  - unfold decoderStep. repeat split; auto.
  - specialize (Hf d sm).
    destruct (f P d sm) as [[[ok sigs] d1] sm1]. destruct ok; [exact Hf|].
    specialize (IH d1 sm1).
    destruct (tryDecoders P ds d1 sm1) as [[[ok2 sigs2] d2] sm2].
    unfold decoderStep in *.
    destruct Hf as (H1 & H2 & H3 & H4 & H5 & _ & ->).
    destruct IH as (I1 & I2 & I3 & I4 & I5 & I6).
    split; [congruence|]. split; [congruence|]. split; [congruence|].
    split; [congruence|]. split; [lia | exact I6].
Qed.

(** The handler as a whole: the members other than the failure counter stay,
    the buffer grows by no more than the batch, at most one signal is
    emitted and at most the acknowledgement is sent, never both; the failure
    counter stays or, when nothing was emitted or sent, goes up by one. *)
Lemma onDataReceived_shape P data d sm :
  let d' := snd (fst (onDataReceived P data d sm)) in
  let sigs := fst (fst (onDataReceived P data d sm)) in
  let sm' := snd (onDataReceived P data d sm) in
  m_selector d' = m_selector d /\
  m_userStartAddress d' = m_userStartAddress d /\
  m_currentTag d' = m_currentTag d /\
  (length (BUFFER d') <= length (BUFFER d) + length data)%nat /\
  ((sm' = sm /\ (length sigs <= 1)%nat) \/
   (sigs = [] /\ sm' = snd (SerialManager_writeData ackSingleFrame sm))) /\
  (m_shitCount d' = m_shitCount d \/
   (sigs = [] /\ sm' = sm /\
    m_shitCount d' = to_quint8 (m_shitCount d + 1))).
Proof.
  assert (Hidle : forall (d0 : SM_6210) (sm0 : SerialManager),
             m_selector d0 = m_selector d0 /\
             m_userStartAddress d0 = m_userStartAddress d0 /\
             m_currentTag d0 = m_currentTag d0 /\
             (length (BUFFER d0) <= length (BUFFER d0) + length data)%nat /\
             ((sm0 = sm0 /\ (length (@nil ReaderSignal) <= 1)%nat) \/
              (@nil ReaderSignal = [] /\
               sm0 = snd (SerialManager_writeData ackSingleFrame sm0))) /\
             (m_shitCount d0 = m_shitCount d0 \/
              (@nil ReaderSignal = [] /\ sm0 = sm0 /\
               m_shitCount d0 = to_quint8 (m_shitCount d0 + 1)))).
  { intros d0 sm0. repeat split; try lia;
      try (left; split; [reflexivity | simpl; lia]);
      try (left; reflexivity). }
  unfold onDataReceived.
  destruct (isEmpty data); [apply Hidle|].
  destruct (negb (loaded sm)); [apply Hidle|].
  destruct (0 <? _)%nat;
    [|simpl; rewrite length_app; repeat split; try lia;
      try (left; split; [reflexivity | simpl; lia]);
      try (left; reflexivity)].
  pose proof (tryDecoders_step P decoders (decoders_step P)
                (set_BUFFER (BUFFER d ++ data) d) sm) as H.
  destruct (tryDecoders P decoders _ sm) as [[[ok sigs] d1] sm1].
  unfold decoderStep in H. simpl in H. rewrite length_app in H.
  destruct H as (H1 & H2 & H3 & H4 & H5 & H6).
  destruct ok.
  - simpl. repeat split; auto.
  - destruct H6 as [-> ->].
    destruct (RFID_MAX_BUFFER_SIZE <? _)%nat; simpl;
      (split; [exact H1|]; split; [exact H3|]; split; [exact H4|];
       split; [lia|]; split;
       [left; split; [reflexivity | simpl; lia]
       |right; rewrite H2; repeat split]).
Qed.

(** The slots of the aggregator touch the driver through [setCurrentTag]
    alone. *)
Lemma sameButTag_refl d : sameButTag d d.
Proof. repeat split. Qed.

Lemma keepsDriver_refl r : keepsDriver r r.
Proof. intros rd H. exists rd. split; [exact H | apply sameButTag_refl]. Qed.

Lemma keepsDriver_trans r1 r2 r3 :
  keepsDriver r1 r2 -> keepsDriver r2 r3 -> keepsDriver r1 r3.
Proof.
  intros H12 H23 rd H.
  destruct (H12 rd H) as (rd2 & H2 & (A1 & A2 & A3 & A4)).
  destruct (H23 rd2 H2) as (rd3 & H3 & (B1 & B2 & B3 & B4)).
  exists rd3. split; [exact H3|]. repeat split; congruence.
Qed.

Lemma keepsDriver_set_store s sigs r : keepsDriver r (set_store s sigs r).
Proof. intros rd H. exists rd. split; [exact H | apply sameButTag_refl]. Qed.

Lemma updateTagList_driver now tag r r' :
  updateTagList now tag r = Some r' -> keepsDriver r r'.
Proof.
  unfold updateTagList. intros H rd Hr. rewrite Hr in H.
  destruct (findTag _ _ _) as [t|].
  - destruct (mergeInto _ _) as [t' sigs].
    destruct (cleanupOuter _ _ _ _ _) as [tags sigs'].
    destruct (m_currentTag rd) as [c|]; [destruct (c =? tag)%nat|];
      injection H as <-; eexists; (split; [reflexivity | repeat split]).
  - destruct (cleanupOuter _ _ _ _ _) as [tags sigs'].
    destruct (m_currentTag rd) as [c|]; [destruct (c =? tag)%nat|];
      injection H as <-; eexists; (split; [reflexivity | repeat split]).
Qed.

Lemma updateTagList_after_store now tag s sigs r r' :
  updateTagList now tag (set_store s sigs r) = Some r' -> keepsDriver r r'.
Proof.
  intro H. apply (keepsDriver_trans r (set_store s sigs r) r').
  - apply keepsDriver_set_store.
  - apply (updateTagList_driver now tag _ _ H).
Qed.

Lemma updateTagList_after_stores now tag s sigs s' sigs' r r' :
  updateTagList now tag (set_store s sigs (set_store s' sigs' r)) = Some r' ->
  keepsDriver r r'.
Proof.
  intro H. apply (keepsDriver_trans r (set_store s' sigs' r) r').
  - apply keepsDriver_set_store.
  - apply (updateTagList_after_store now tag s sigs _ _ H).
Qed.

Lemma dispatch_driver now sig r r' :
  dispatch now sig r = Some r' -> keepsDriver r r'.
Proof.
  destruct sig as [i|e|f|u k]; simpl;
    unfold onTidFound, onEpcFound, onRfuFound, onUsrFound, newTag;
    repeat match goal with
           | |- context [match currentTag ?x with _ => _ end] =>
               destruct (currentTag x)
           | |- context [if ?c then _ else _] => destruct c
           | |- context [let '(_, _) := updateTagData ?a ?b in _] =>
               destruct (updateTagData a b)
           end;
    try discriminate;
    try apply updateTagList_after_stores;
    try apply updateTagList_after_store.
  intro H. injection H as <-.
  eapply keepsDriver_trans; apply keepsDriver_set_store.
Qed.

Lemma dispatchAll_driver now sigs : forall r r',
  dispatchAll now sigs r = Some r' -> keepsDriver r r'.
Proof.
  induction sigs as [|sig sigs IH]; intros r r'; simpl.
  - intro H. injection H as <-. apply keepsDriver_refl.
  - destruct (dispatch now sig r) as [r1|] eqn:Hd; [|discriminate].
    intro H. apply (keepsDriver_trans r r1 r').
    + apply (dispatch_driver now sig r r1 Hd).
    + apply (IH r1 r' H).
Qed.

(** X3. A batch of bytes read from the port, with the slots of the
    aggregator that run on the signal it yields, never changes the bank
    selector or the user cursor of the driver.  The failure counter either
    stays as it is, or it has gone up by one, as a [quint8]; in that case
    nothing was sent and no signal was emitted, so that the current tag and
    the signals of the aggregator are as before.  The current tag is the one
    member the slots may set. *)
Theorem ingress_keeps_driver_members (P : Platform) (now : Z)
    (data : QByteArray) (r : RFID) (rd : SM_6210) (sm : SerialManager) :
  m_reader r = Some rd ->
  exists r' rd' sm',
    dataReceived P now data r sm = Some (r', sm') /\
    m_reader r' = Some rd' /\
    m_selector rd' = m_selector rd /\
    m_userStartAddress rd' = m_userStartAddress rd /\
    (m_shitCount rd' = m_shitCount rd \/
     (m_shitCount rd' = to_quint8 (m_shitCount rd + 1) /\
      sm' = sm /\ m_currentTag rd' = m_currentTag rd /\
      emitted r' = emitted r)).
Proof.
  intro Hr. unfold dataReceived. rewrite Hr.
  pose proof (onDataReceived_shape P data rd sm) as Hs.
  pose proof (onDataReceived_in_range P data rd sm) as Hin.
  destruct (onDataReceived P data rd sm) as [[sigs rd1] sm1].
  simpl in Hs, Hin. destruct Hs as (H1 & H2 & H3 & _ & _ & H6).
  destruct (dispatchAll_total now sigs (set_reader rd1 r)) as (r' & Hd & _);
    [discriminate | exact Hin |].
  rewrite Hd.
  destruct (dispatchAll_driver now sigs _ _ Hd rd1 eq_refl)
    as (rd' & Hr' & (_ & B2 & B3 & B4)).
  exists r', rd', sm1. split; [reflexivity|]. split; [exact Hr'|].
  split; [congruence|]. split; [congruence|].
  destruct H6 as [H6|(Hnil & Hsm & H6)]; [left; congruence|].
  right. subst sigs. simpl in Hd. injection Hd as <-.
  simpl in Hr'. injection Hr' as <-.
  repeat split; assumption.
Qed.

Lemma ingress_keeps_driver_members_witness :
  exists r' rd' sm',
    dataReceived x86 0 (usrRead 0x08) freshRFID openPort = Some (r', sm') /\
    m_reader r' = Some rd' /\
    m_selector rd' = 0 /\ m_userStartAddress rd' = 0 /\
    m_currentTag rd' = Some O.
Proof.
  destruct (ingress_keeps_driver_members x86 0 (usrRead 0x08) freshRFID
              SM_6210_new openPort eq_refl)
    as (r' & rd' & sm' & H & Hr' & Hs & Hc & _).
  exists r', rd', sm'.
  split; [exact H|]. split; [exact Hr'|].
  split; [exact Hs|]. split; [exact Hc|].
  vm_compute in H. injection H as <- _.
  simpl in Hr'. injection Hr' as <-. reflexivity.
Defined.

(** X4. One batch yields at most one signal, however many frames it holds,
    and makes the driver send at most one frame, the acknowledgement, in
    which case no signal is emitted; the buffer grows by no more than the
    length of the batch. *)
Theorem ingress_one_packet_per_batch (P : Platform) (data : QByteArray)
    (d : SM_6210) (sm : SerialManager) :
  (length (fst (fst (onDataReceived P data d sm))) <= 1)%nat /\
  ((snd (onDataReceived P data d sm) = sm) \/
   (fst (fst (onDataReceived P data d sm)) = [] /\
    snd (onDataReceived P data d sm)
    = snd (SerialManager_writeData ackSingleFrame sm))) /\
  (length (BUFFER (snd (fst (onDataReceived P data d sm))))
   <= length (BUFFER d) + length data)%nat.
Proof.
  destruct (onDataReceived_shape P data d sm) as (_ & _ & _ & H4 & H5 & _).
  split; [|split; [|exact H4]].
  - destruct H5 as [[_ H]|[-> _]]; [exact H | simpl; lia].
  - destruct H5 as [[H _]|H]; [left; exact H | right; exact H].
Qed.

(** ** The user cursor *)

Lemma readUsr_cursor d sm :
  cursorInRange d ->
  cursorInRange (fst (readUsr d sm)) /\
  exists a, In a [0; 8; 16; 24] /\
            submitted (snd (readUsr d sm))
            = submitted sm ++ [readFrame USR_LABEL a 8].
Proof.
  intro H. destruct (readUsr_effect d sm) as (Hs & Hc & _).
  unfold cursorInRange in *. rewrite Hc.
  simpl in H. unfold to_quint8.
  destruct H as [H|[H|[H|[H|[H|[]]]]]]; rewrite <- H in *; simpl in *;
    (split; [|eexists; split; [|exact Hs]]); simpl; auto 6.
Qed.

Lemma scan_cursor d sm : cursorInRange d -> cursorInRange (fst (scan d sm)).
Proof.
  intro H. unfold scan. destruct (m_currentTag d).
  - destruct (m_selector d =? 0); [exact H|].
    destruct (m_selector d =? 1); [exact H|].
    destruct (m_selector d =? 2); [|exact H].
    destruct (readUsr_cursor d sm H) as [Hc _].
    destruct (readUsr d sm) as [d1 sm1]. exact Hc.
  - destruct (m_shitCount (set_selector 0 d) >? 10); exact H.
Qed.

Lemma runCall_cursor P c d sm :
  cursorInRange d -> cursorInRange (fst (runCall P c d sm)).
Proof.
  intro H. destruct c; simpl; try exact H.
  - now apply scan_cursor.
  - destruct (onDataReceived_shape P data d sm) as (_ & H2 & _).
    destruct (onDataReceived P data d sm) as [[sigs d1] sm1].
    unfold cursorInRange. simpl in *. now rewrite H2.
Qed.

(** X2. The user cursor starts at 0 and, whatever calls the driver goes
    through, is one of 0, 8, 16, 24, 32 between two calls; a user bank read
    request issued then asks for the eight words at 0, 8, 16 or 24. *)
Theorem user_cursor_in_range (P : Platform) (cs : list DriverCall)
    (d : SM_6210) (sm : SerialManager) :
  cursorInRange d ->
  cursorInRange (fst (runCalls P cs d sm)) /\
  exists a, In a [0; 8; 16; 24] /\
            submitted (snd (readUsr (fst (runCalls P cs d sm))
                              (snd (runCalls P cs d sm))))
            = submitted (snd (runCalls P cs d sm))
              ++ [readFrame USR_LABEL a 8].
Proof.
  intro H.
  assert (Hinv : cursorInRange (fst (runCalls P cs d sm))).
  { revert d sm H. induction cs as [|c cs IH]; intros d sm H; simpl.
    - exact H.
    - pose proof (runCall_cursor P c d sm H) as H1.
      destruct (runCall P c d sm) as [d1 sm1]. now apply IH. }
  split; [exact Hinv|].
  apply (readUsr_cursor _ _ Hinv).
Qed.

Lemma user_cursor_in_range_witness :
  cursorInRange SM_6210_new /\
  cursorInRange
    (fst (runCalls x86 [CallScan; CallDataReceived ackPacket; CallScan]
            taggedDriver openPort)).
Proof.
  assert (H : cursorInRange SM_6210_new) by (left; reflexivity).
  split; [exact H|].
  apply (user_cursor_in_range x86
           [CallScan; CallDataReceived ackPacket; CallScan] taggedDriver
           openPort).
  left. reflexivity.
Defined.

(** ** Decoding a response frame *)

Lemma header_shift_app (h : Z) (G rest : QByteArray) :
  isByte h -> noHeader h G ->
  header_shift h (G ++ h :: rest) = length G.
Proof.
  intros Hh HG. unfold to_char.
  induction HG as [|c G Hc _ IH]; simpl; unfold to_char;
    rewrite (Z.mod_small h 256 Hh).
  - now rewrite Z.eqb_refl.
  - replace (c =? h) with false by (symmetry; now apply Z.eqb_neq).
    f_equal. exact IH.
Qed.

Lemma nth_error_skip {A : Type} (G l : list A) (k : nat) :
  nth_error (G ++ l) (length G + k) = nth_error l k.
Proof. induction G; simpl; auto. Qed.

Lemma at_skip P (G l : QByteArray) (k : nat) (x : Z) :
  nth_error l k = Some x -> at_ P (G ++ l) (length G + k) = x.
Proof. intro H. unfold at_. now rewrite nth_error_skip, H. Qed.

Lemma ref_char_skip (G l : QByteArray) (k : nat) (x : Z) :
  nth_error l k = Some x -> ref_char (G ++ l) (length G + k) = x.
Proof.
  intro H. unfold ref_char.
  apply nth_error_nth with (d := 0). now rewrite nth_error_skip.
Qed.

Lemma read_payload P (A payload B : QByteArray) :
  map (fun j => at_ P (A ++ payload ++ B) (length A + j))
      (seq 0 (length payload)) = payload.
Proof.
  apply nth_ext with (d := 0) (d' := 0).
  - now rewrite length_map, length_seq.
  - intros n Hn. rewrite length_map, length_seq in Hn.
    rewrite (nth_indep _ 0 (at_ P (A ++ payload ++ B) (length A + 0)))
      by (now rewrite length_map, length_seq).
    rewrite (map_nth (fun j => at_ P (A ++ payload ++ B) (length A + j))).
    rewrite seq_nth by exact Hn. simpl.
    apply at_skip. rewrite nth_error_app1 by exact Hn.
    now apply nth_error_nth'.
Qed.

(** What [readInformationPacket] makes of a buffer that holds, after bytes
    that are no header, a complete response frame for the bank and opcode it
    expects, [c] being the byte in the place of the checksum. *)
Lemma readInformationPacket_frame P label singleTag verifyChecksum
    (G G' payload : QByteArray) (size start c : Z) (n : nat) :
  noHeader HEADER_RESPONSE_CODE G ->
  isByte (fst label) -> isByte (snd label) ->
  isByte size -> isByte start -> isByte c ->
  length payload = (2 * n)%nat -> (n <= 127)%nat ->
  size <= Z.of_nat (length payload + length G') + 7 ->
  readInformationPacket P label singleTag verifyChecksum
    (G ++ responseFrame (expectedOpcode singleTag) label size start payload c
       ++ G')
  = if (c =? Checksum (responseBody (expectedOpcode singleTag) label size
                         start payload))
       || negb verifyChecksum
    then {| info_ok := true; info_data := payload;
            info_start := char_to_int P start; info_buffer := c :: G' |}
    else noPacket (char_to_int P start)
           (G ++ responseFrame (expectedOpcode singleTag) label size start
              payload c ++ G').
Proof.
  intros HG Hl0 Hl1 Hsize Hstart Hc Hlen Hn Hfit.
  set (op := expectedOpcode singleTag).
  set (cnt := Z.of_nat (length payload) / 2).
  assert (Hcnt : cnt = Z.of_nat n).
  { unfold cnt. rewrite Hlen, Nat2Z.inj_mul, Z.mul_comm.
    apply Z.div_mul. discriminate. }
  set (l := HEADER_RESPONSE_CODE :: size :: op :: fst label :: snd label
            :: start :: cnt :: payload ++ c :: G').
  assert (Hbuf : G ++ responseFrame op label size start payload c ++ G'
                 = G ++ l).
  { unfold responseFrame, responseBody, l. simpl.
    now rewrite <- app_assoc. }
  rewrite Hbuf.
  unfold readInformationPacket.
  assert (Hshift : header_shift HEADER_RESPONSE_CODE (G ++ l) = length G).
  { unfold l. apply header_shift_app; [unfold isByte, HEADER_RESPONSE_CODE; lia
                                      | exact HG]. }
  rewrite Hshift.
  assert (Hlong : (length (G ++ l) <? length G + 1)%nat = false).
  { apply Nat.ltb_ge. rewrite length_app. unfold l. simpl. lia. }
  rewrite Hlong.
  rewrite (at_skip P G l 1 size eq_refl).
  unfold to_quint8 at 1. rewrite (Z.mod_small size 256 Hsize).
  assert (Hfits : (Z.of_nat (length (G ++ l)) >? Z.of_nat (length G) + size)
                  = true).
  { apply Z.gtb_lt. rewrite length_app. unfold l. simpl length.
    rewrite length_app. simpl length. lia. }
  rewrite Hfits.
  unfold ref_eq.
  rewrite (at_skip P G l 3 (fst label) eq_refl).
  rewrite (at_skip P G l 4 (snd label) eq_refl).
  rewrite (at_skip P G l 2 op eq_refl).
  unfold to_char. rewrite (Z.mod_small _ 256 Hl0), (Z.mod_small _ 256 Hl1).
  rewrite !Z.eqb_refl.
  assert (Hop : (if singleTag
                 then true && true && true
                      && (op =? DEV_READ_SINGLE_TAG mod 256)
                 else true && true && true
                      && (op =? DEV_READ_TAG_DATA mod 256))
                = true).
  { unfold op, expectedOpcode. destruct singleTag; reflexivity. }
  rewrite Hop. cbn [negb].
  rewrite (ref_char_skip G l 5 start eq_refl).
  rewrite (ref_char_skip G l 6 cnt eq_refl).
  assert (Hlenz : to_quint8 (to_quint8 cnt * 2) = Z.of_nat (length payload)).
  { unfold to_quint8. rewrite Hcnt, Hlen.
    rewrite (Z.mod_small (Z.of_nat n)) by lia.
    rewrite Z.mod_small by lia. lia. }
  rewrite Hlenz, Nat2Z.id.
  replace (length G + length payload + 7)%nat
    with (length G + (7 + length payload))%nat by lia.
  assert (Hcs : nth_error l (7 + length payload) = Some c).
  { unfold l. simpl. rewrite nth_error_app2 by lia.
    now rewrite Nat.sub_diag. }
  rewrite (ref_char_skip G l _ c Hcs).
  unfold to_quint8 at 1. rewrite (Z.mod_small c 256 Hc).
  assert (Hmid : mid (G ++ l) (length G) (Z.of_nat (length payload) + 7)
                 = responseBody op label size start payload).
  { unfold mid.
    replace (Z.of_nat (length payload) + 7 <? 0) with false
      by (symmetry; apply Z.ltb_ge; lia).
    rewrite skipn_app, Nat.sub_diag, skipn_all. simpl skipn.
    replace (Z.to_nat (Z.of_nat (length payload) + 7))
      with (7 + length payload)%nat by lia.
    unfold l, responseBody. simpl. do 7 f_equal.
    rewrite firstn_app, Nat.sub_diag, firstn_all. simpl.
    now rewrite app_nil_r. }
  rewrite Hmid.
  destruct ((c =? Checksum (responseBody op label size start payload))
            || negb verifyChecksum); [|reflexivity].
  f_equal.
  - replace (fun j : nat => at_ P (G ++ l) (length G + 7 + j))
      with (fun j : nat =>
              at_ P ((G ++ [HEADER_RESPONSE_CODE; size; op; fst label;
                            snd label; start; cnt])
                     ++ payload ++ c :: G')
                  (length (G ++ [HEADER_RESPONSE_CODE; size; op; fst label;
                                 snd label; start; cnt]) + j)).
    + apply read_payload.
    + rewrite length_app. simpl length. unfold l.
      now rewrite <- app_assoc.
  - rewrite remove_front.
    replace (Z.to_nat (Z.of_nat (length G) + Z.of_nat (length payload) + 7))
      with (length G + (7 + length payload))%nat by lia.
    rewrite skipn_app.
    replace (length G + (7 + length payload) - length G)%nat
      with (7 + length payload)%nat by lia.
    rewrite skipn_all2 by lia. unfold l. simpl.
    rewrite skipn_app, Nat.sub_diag, skipn_all. reflexivity.
Qed.

(** The same buffer read by a decoder that expects another opcode or another
    bank: no packet, and the buffer stays. *)
Lemma readInformationPacket_other P label singleTag verifyChecksum
    (G G' payload : QByteArray) (op' : Z) (label' : Z * Z)
    (size start c : Z) :
  noHeader HEADER_RESPONSE_CODE G ->
  isByte (fst label) -> isByte (snd label) -> isByte size ->
  size <= Z.of_nat (length payload + length G') + 7 ->
  op' <> expectedOpcode singleTag \/ fst label' <> fst label
  \/ snd label' <> snd label ->
  readInformationPacket P label singleTag verifyChecksum
    (G ++ responseFrame op' label' size start payload c ++ G')
  = noPacket 0 (G ++ responseFrame op' label' size start payload c ++ G').
Proof.
  intros HG Hl0 Hl1 Hsize Hfit Hdiff.
  set (cnt := Z.of_nat (length payload) / 2).
  set (l := HEADER_RESPONSE_CODE :: size :: op' :: fst label' :: snd label'
            :: start :: cnt :: payload ++ c :: G').
  assert (Hbuf : G ++ responseFrame op' label' size start payload c ++ G'
                 = G ++ l).
  { unfold responseFrame, responseBody, l. simpl.
    now rewrite <- app_assoc. }
  rewrite Hbuf.
  unfold readInformationPacket.
  assert (Hshift : header_shift HEADER_RESPONSE_CODE (G ++ l) = length G).
  { unfold l. apply header_shift_app; [unfold isByte, HEADER_RESPONSE_CODE; lia
                                      | exact HG]. }
  rewrite Hshift.
  assert (Hlong : (length (G ++ l) <? length G + 1)%nat = false).
  { apply Nat.ltb_ge. rewrite length_app. unfold l. simpl. lia. }
  rewrite Hlong.
  rewrite (at_skip P G l 1 size eq_refl).
  unfold to_quint8 at 1. rewrite (Z.mod_small size 256 Hsize).
  assert (Hfits : (Z.of_nat (length (G ++ l)) >? Z.of_nat (length G) + size)
                  = true).
  { apply Z.gtb_lt. rewrite length_app. unfold l. simpl length.
    rewrite length_app. simpl length. lia. }
  rewrite Hfits.
  unfold ref_eq.
  rewrite (at_skip P G l 3 (fst label') eq_refl).
  rewrite (at_skip P G l 4 (snd label') eq_refl).
  rewrite (at_skip P G l 2 op' eq_refl).
  unfold to_char. rewrite (Z.mod_small _ 256 Hl0), (Z.mod_small _ 256 Hl1).
  assert (Hno : (if singleTag
                 then true && (fst label' =? fst label)
                      && (snd label' =? snd label)
                      && (op' =? DEV_READ_SINGLE_TAG mod 256)
                 else true && (fst label' =? fst label)
                      && (snd label' =? snd label)
                      && (op' =? DEV_READ_TAG_DATA mod 256))
                = false).
  { destruct Hdiff as [H|[H|H]].
    - unfold expectedOpcode in H.
      destruct singleTag; apply andb_false_iff; right; apply Z.eqb_neq;
        exact H.
    - apply Z.eqb_neq in H. rewrite H. simpl. now destruct singleTag.
    - apply Z.eqb_neq in H. rewrite H, andb_false_r. simpl.
      now destruct singleTag. }
  rewrite Hno. reflexivity.
Qed.

(** The acknowledge decoder finds no packet in such a buffer unless the
    opcode of the frame is that of the acknowledge packet. *)
Lemma readAckPacket_other P d sm (G G' payload : QByteArray) (op' : Z)
    (label' : Z * Z) (size start c : Z) :
  noHeader HEADER_RESPONSE_CODE G ->
  op' <> DEV_GET_SINGLE_PARAM ->
  BUFFER d = G ++ responseFrame op' label' size start payload c ++ G' ->
  readAckPacket P d sm = (false, [], d, sm).
Proof.
  intros HG Hop Hb.
  set (cnt := Z.of_nat (length payload) / 2).
  set (l := HEADER_RESPONSE_CODE :: size :: op' :: fst label' :: snd label'
            :: start :: cnt :: payload ++ c :: G').
  assert (Hbuf : BUFFER d = G ++ l).
  { rewrite Hb. unfold responseFrame, responseBody, l. simpl.
    now rewrite <- app_assoc. }
  unfold readAckPacket. rewrite Hbuf.
  assert (Hshift : header_shift HEADER_RESPONSE_CODE (G ++ l) = length G).
  { unfold l. apply header_shift_app; [unfold isByte, HEADER_RESPONSE_CODE; lia
                                      | exact HG]. }
  rewrite Hshift.
  destruct (length (G ++ l) <? length G + 8)%nat; [reflexivity|].
  unfold ref_eq at 3. rewrite (at_skip P G l 2 op' eq_refl).
  replace (op' =? to_char DEV_GET_SINGLE_PARAM) with false
    by (symmetry; apply Z.eqb_neq; exact Hop).
  rewrite andb_false_r. reflexivity.
Qed.

(** X5. Round trip of a bank read response through
    [readInformationPacket]: from a buffer that holds bytes other than the
    response header, then a complete frame for the expected opcode and bank
    with its checksum, then anything, the decoder returns the payload and
    the word start address of the frame, and leaves the checksum byte of the
    frame followed by what came after the frame. *)
Theorem bank_read_round_trip (P : Platform) (label : Z * Z)
    (singleTag verifyChecksum : bool) (G G' payload : QByteArray)
    (size start : Z) (n : nat) :
  noHeader HEADER_RESPONSE_CODE G ->
  isByte (fst label) -> isByte (snd label) ->
  isByte size -> isByte start ->
  length payload = (2 * n)%nat -> (n <= 127)%nat ->
  size <= Z.of_nat (length payload + length G') + 7 ->
  readInformationPacket P label singleTag verifyChecksum
    (G ++ responseFrame (expectedOpcode singleTag) label size start payload
            (Checksum (responseBody (expectedOpcode singleTag) label size
                         start payload))
       ++ G')
  = {| info_ok := true; info_data := payload;
       info_start := char_to_int P start;
       info_buffer :=
         Checksum (responseBody (expectedOpcode singleTag) label size start
                     payload) :: G' |}.
Proof.
  intros HG Hl0 Hl1 Hsize Hstart Hlen Hn Hfit.
  rewrite (readInformationPacket_frame P label singleTag verifyChecksum G G'
             payload size start _ n HG Hl0 Hl1 Hsize Hstart
             (Checksum_byte _) Hlen Hn Hfit).
  now rewrite Z.eqb_refl.
Qed.

Lemma bank_read_round_trip_witness :
  readInformationPacket x86 EPC_LABEL false true
    (BUFFER epcReadAfterGarbage)
  = {| info_ok := true;
       info_data := [0xaa; 0xbb; 0xcc; 0xdd; 0xee; 0xff];
       info_start := 2; info_buffer := [0x93; 0x11] |}.
Proof.
  refine (bank_read_round_trip x86 EPC_LABEL false true [0xff] [0x11]
            [0xaa; 0xbb; 0xcc; 0xdd; 0xee; 0xff] 0x0c 2 3 _ _ _ _ _ _ _ _).
  - repeat constructor. discriminate.
  - unfold isByte. simpl. lia.
  - unfold isByte. simpl. lia.
  - unfold isByte. lia.
  - unfold isByte. lia.
  - reflexivity.
  - lia.
  - simpl. lia.
Defined.

(** X6. The checksum of a response: a decoder that verifies it finds no
    packet in a frame whose last byte is not the checksum of the bytes before
    it, and leaves the buffer untouched; the decoder of the single tag EPC
    response, which does not verify, returns the payload of the same frame
    whatever its last byte. *)
Theorem checksum_is_verified_except_on_scan (P : Platform) (label : Z * Z)
    (singleTag : bool) (G G' payload : QByteArray) (size start c : Z)
    (n : nat) :
  noHeader HEADER_RESPONSE_CODE G ->
  isByte (fst label) -> isByte (snd label) ->
  isByte size -> isByte start -> isByte c ->
  length payload = (2 * n)%nat -> (n <= 127)%nat ->
  size <= Z.of_nat (length payload + length G') + 7 ->
  c <> Checksum (responseBody (expectedOpcode singleTag) label size start
                   payload) ->
  info_ok (readInformationPacket P label singleTag true
             (G ++ responseFrame (expectedOpcode singleTag) label size start
                     payload c ++ G')) = false /\
  info_buffer (readInformationPacket P label singleTag true
                 (G ++ responseFrame (expectedOpcode singleTag) label size
                         start payload c ++ G'))
  = G ++ responseFrame (expectedOpcode singleTag) label size start payload c
      ++ G' /\
  readInformationPacket P label singleTag false
    (G ++ responseFrame (expectedOpcode singleTag) label size start payload c
       ++ G')
  = {| info_ok := true; info_data := payload;
       info_start := char_to_int P start; info_buffer := c :: G' |}.
Proof.
  intros HG Hl0 Hl1 Hsize Hstart Hc Hlen Hn Hfit Hbad.
  rewrite !(readInformationPacket_frame P label singleTag _ G G'
              payload size start c n HG Hl0 Hl1 Hsize Hstart Hc Hlen Hn Hfit).
  apply Z.eqb_neq in Hbad. rewrite Hbad. simpl. auto.
Qed.

Lemma checksum_is_verified_except_on_scan_witness :
  info_ok (readInformationPacket x86 EPC_LABEL true true
             ([0xff] ++ responseFrame DEV_READ_SINGLE_TAG EPC_LABEL 0x08 0
                          [0xaa; 0xbb] 0x00 ++ [0x11])) = false /\
  info_data (readInformationPacket x86 EPC_LABEL true false
               ([0xff] ++ responseFrame DEV_READ_SINGLE_TAG EPC_LABEL 0x08 0
                            [0xaa; 0xbb] 0x00 ++ [0x11])) = [0xaa; 0xbb].
Proof.
  assert (H : noHeader HEADER_RESPONSE_CODE [0xff] ->
              isByte (fst EPC_LABEL) -> isByte (snd EPC_LABEL) ->
              isByte 0x08 -> isByte 0 -> isByte 0x00 ->
              length [0xaa; 0xbb] = (2 * 1)%nat -> (1 <= 127)%nat ->
              0x08 <= Z.of_nat (length [0xaa; 0xbb] + length [0x11]) + 7 ->
              0x00 <> Checksum (responseBody (expectedOpcode true) EPC_LABEL
                                  0x08 0 [0xaa; 0xbb]) -> _)
    by exact (checksum_is_verified_except_on_scan x86 EPC_LABEL true [0xff]
                [0x11] [0xaa; 0xbb] 0x08 0 0x00 1).
  destruct H as (H1 & _ & H3).
  - repeat constructor. discriminate.
  - unfold isByte. simpl. lia.
  - unfold isByte. simpl. lia.
  - unfold isByte. lia.
  - unfold isByte. lia.
  - unfold isByte. lia.
  - reflexivity.
  - lia.
  - simpl. lia.
  - vm_compute. discriminate.
  - split; [exact H1|].
    change DEV_READ_SINGLE_TAG with (expectedOpcode true).
    now rewrite H3.
Defined.

(** ** A response on its way through the ingress handler *)

Lemma set_BUFFER_members b d d' :
  sameMembers d d' -> set_BUFFER b d' = set_BUFFER b d.
Proof.
  intros (H1 & H2 & H3 & H4). unfold set_BUFFER. now rewrite H1, H2, H3, H4.
Qed.

Lemma sameMembers_refl d : sameMembers d d.
Proof. repeat split. Qed.

Lemma sameMembers_trans d1 d2 d3 :
  sameMembers d1 d2 -> sameMembers d2 d3 -> sameMembers d1 d3.
Proof.
  intros (A1 & A2 & A3 & A4) (B1 & B2 & B3 & B4). repeat split; congruence.
Qed.

Lemma tryDecoders_pass P buf pre rest :
  Forall (passesOver P buf) pre ->
  forall d sm, BUFFER d = buf ->
    exists d', BUFFER d' = buf /\ sameMembers d d' /\
               tryDecoders P (pre ++ rest) d sm = tryDecoders P rest d' sm.
Proof.
  induction 1 as [|f pre Hf _ IH]; intros d sm Hb; simpl.
  - exists d. auto using sameMembers_refl.
  - destruct (Hf d sm Hb) as (d1 & Hr & Hb1 & Hm1). rewrite Hr.
    destruct (IH d1 sm Hb1) as (d2 & Hb2 & Hm2 & Ht).
    exists d2. eauto using sameMembers_trans.
Qed.

Lemma bankDecode_passes P label singleTag verifyChecksum sig
    (G G' payload : QByteArray) (op' : Z) (label' : Z * Z)
    (size start c : Z) :
  noHeader HEADER_RESPONSE_CODE G ->
  isByte (fst label) -> isByte (snd label) -> isByte size ->
  size <= Z.of_nat (length payload + length G') + 7 ->
  op' <> expectedOpcode singleTag \/ fst label' <> fst label
  \/ snd label' <> snd label ->
  passesOver P (G ++ responseFrame op' label' size start payload c ++ G')
    (bankDecode label singleTag verifyChecksum sig).
Proof.
  intros HG Hl0 Hl1 Hsize Hfit Hdiff d sm Hb.
  unfold bankDecode. rewrite Hb.
  rewrite (readInformationPacket_other P label singleTag verifyChecksum G G'
             payload op' label' size start c HG Hl0 Hl1 Hsize Hfit Hdiff).
  simpl. eexists. split; [reflexivity|]. split; [reflexivity|].
  repeat split.
Qed.

Lemma readAckPacket_passes P (G G' payload : QByteArray) (op' : Z)
    (label' : Z * Z) (size start c : Z) :
  noHeader HEADER_RESPONSE_CODE G -> op' <> DEV_GET_SINGLE_PARAM ->
  passesOver P (G ++ responseFrame op' label' size start payload c ++ G')
    readAckPacket.
Proof.
  intros HG Hop d sm Hb. exists d.
  split; [|split; [exact Hb | apply sameMembers_refl]].
  now apply (readAckPacket_other P d sm G G' payload op' label' size start c).
Qed.

Lemma bankDecode_reads P label (G G' payload : QByteArray)
    (size start : Z) (n : nat) (d : SM_6210) :
  noHeader HEADER_RESPONSE_CODE G ->
  isByte (fst label) -> isByte (snd label) ->
  isByte size -> isByte start ->
  length payload = (2 * n)%nat -> (n <= 127)%nat ->
  size <= Z.of_nat (length payload + length G') + 7 ->
  BUFFER d = G ++ bankReadResponse label size start payload ++ G' ->
  info_ok (readInformationPacket P label false true (BUFFER d)) = true /\
  info_data (readInformationPacket P label false true (BUFFER d)) = payload /\
  info_start (readInformationPacket P label false true (BUFFER d))
  = char_to_int P start /\
  info_buffer (readInformationPacket P label false true (BUFFER d))
  = Checksum (responseBody DEV_READ_TAG_DATA label size start payload) :: G'.
Proof.
  intros HG Hl0 Hl1 Hsize Hstart Hlen Hn Hfit Hb. rewrite Hb.
  unfold bankReadResponse.
  change DEV_READ_TAG_DATA with (expectedOpcode false).
  rewrite (readInformationPacket_frame P label false true G G' payload size
             start _ n HG Hl0 Hl1 Hsize Hstart (Checksum_byte _) Hlen Hn
             Hfit).
  rewrite Z.eqb_refl. simpl. auto.
Qed.

Lemma decoders_unfolded :
  decoders
  = [readAckPacket; bankDecode EPC_LABEL true false epcFound]
    ++ bankDecode EPC_LABEL false true epcFound
    :: bankDecode TID_LABEL false true tidFound
    :: bankDecode RFU_LABEL false true rfuFound
    :: [readUsrPacket; readStdResponse; readStdResult].
Proof. reflexivity. Qed.

(** X7. A complete, correctly summed bank read response for the RFU, EPC,
    TID or user bank that the buffer and the new batch put together, after
    bytes that are no response header, is reported by the ingress handler
    with its payload through the signal of its bank (a user bank response
    read at a word address below 32 with the datagram index address / 8); the
    buffer is left with the checksum byte of the frame and what came after
    the frame, and nothing is sent. *)
Theorem bank_response_is_reported (P : Platform) (label : Z * Z)
    (G G' payload data : QByteArray) (size start : Z) (n : nat)
    (d : SM_6210) (sm : SerialManager) :
  loaded sm = true -> isEmpty data = false ->
  BUFFER d ++ data = G ++ bankReadResponse label size start payload ++ G' ->
  noHeader HEADER_RESPONSE_CODE G ->
  In label [RFU_LABEL; EPC_LABEL; TID_LABEL; USR_LABEL] ->
  isByte size -> 0 <= start < 32 ->
  length payload = (2 * n)%nat -> (n <= 127)%nat ->
  size <= Z.of_nat (length payload + length G') + 7 ->
  onDataReceived P data d sm
  = ([bankSignal label payload start],
     set_BUFFER
       (Checksum (responseBody DEV_READ_TAG_DATA label size start payload)
        :: G') d,
     sm).
Proof.
  intros Hl He Hcat HG Hlab Hsize Hstart Hlen Hn Hfit.
  assert (Hsb : isByte start) by (unfold isByte; lia).
  unfold onDataReceived. rewrite He, Hl. cbn [negb].
  set (d0 := set_BUFFER (BUFFER d ++ data) d).
  assert (Hb0 : BUFFER d0
                = G ++ bankReadResponse label size start payload ++ G')
    by exact Hcat.
  assert (Hpos : (0 <? length (BUFFER d0))%nat = true).
  { apply Nat.ltb_lt. rewrite Hb0, length_app. unfold bankReadResponse,
      responseFrame, responseBody. simpl. lia. }
  rewrite Hpos.
  assert (Hm0 : sameMembers d d0) by (repeat split).
  assert (Hack : passesOver P (BUFFER d0) readAckPacket).
  { rewrite Hb0. apply readAckPacket_passes; [exact HG | discriminate]. }
  assert (Hscan : passesOver P (BUFFER d0)
                    (bankDecode EPC_LABEL true false epcFound)).
  { rewrite Hb0. apply bankDecode_passes; try exact HG; try exact Hsize;
      try exact Hfit; try (unfold isByte; simpl; lia).
    left. discriminate. }
  assert (Hskip : forall lab sig, fst lab = 0 -> 0 <= snd lab < 4 ->
                                  snd lab <> snd label ->
                                  passesOver P (BUFFER d0)
                                    (bankDecode lab false true sig)).
  { intros lab sig Hf Hs Hne. rewrite Hb0.
    apply bankDecode_passes; try exact HG; try exact Hsize; try exact Hfit;
      try (unfold isByte; lia). }
  assert (Hhit : forall d1, BUFFER d1 = BUFFER d0 -> sameMembers d d1 ->
                   isByte (fst label) -> isByte (snd label) ->
                   info_ok (readInformationPacket P label false true
                              (BUFFER d1)) = true /\
                   info_data (readInformationPacket P label false true
                                (BUFFER d1)) = payload /\
                   info_start (readInformationPacket P label false true
                                 (BUFFER d1)) = start /\
                   set_BUFFER
                     (info_buffer (readInformationPacket P label false true
                                     (BUFFER d1))) d1
                   = set_BUFFER
                       (Checksum (responseBody DEV_READ_TAG_DATA label size
                                    start payload) :: G') d).
  { intros d1 Hb1 Hm1 Hl0 Hl1.
    destruct (bankDecode_reads P label G G' payload size start n d1 HG
                Hl0 Hl1 Hsize Hsb Hlen Hn Hfit (eq_trans Hb1 Hb0))
      as (H1 & H2 & H3 & H4).
    rewrite H1, H2, H3, H4. repeat split.
    - unfold char_to_int.
      replace (128 <=? start) with false by (symmetry; apply Z.leb_gt; lia).
      now rewrite andb_false_r.
    - now apply set_BUFFER_members. }
  rewrite decoders_unfolded.
  destruct (tryDecoders_pass P (BUFFER d0)
              [readAckPacket; bankDecode EPC_LABEL true false epcFound]
              (bankDecode EPC_LABEL false true epcFound
               :: bankDecode TID_LABEL false true tidFound
               :: bankDecode RFU_LABEL false true rfuFound
               :: [readUsrPacket; readStdResponse; readStdResult])
              (Forall_cons _ Hack (Forall_cons _ Hscan (Forall_nil _)))
              d0 sm eq_refl) as (d1 & Hb1 & Hm1 & Ht).
  rewrite Ht. clear Ht.
  pose proof (sameMembers_trans _ _ _ Hm0 Hm1) as Hm01.
  assert (Hbyte : forall x, 0 <= x < 4 -> isByte x)
    by (intros; unfold isByte; lia).
  simpl in Hlab.
  destruct Hlab as [<-|[<-|[<-|[<-|[]]]]].
  - (* RFU *)
    destruct (tryDecoders_pass P (BUFFER d0)
                [bankDecode EPC_LABEL false true epcFound;
                 bankDecode TID_LABEL false true tidFound]
                (bankDecode RFU_LABEL false true rfuFound
                 :: [readUsrPacket; readStdResponse; readStdResult])
                (Forall_cons _ (Hskip EPC_LABEL epcFound eq_refl
                                  ltac:(simpl; lia) ltac:(discriminate))
                   (Forall_cons _ (Hskip TID_LABEL tidFound eq_refl
                                     ltac:(simpl; lia) ltac:(discriminate))
                      (Forall_nil _)))
                d1 sm Hb1) as (d2 & Hb2 & Hm2 & Ht).
    change (bankDecode EPC_LABEL false true epcFound
            :: bankDecode TID_LABEL false true tidFound
            :: bankDecode RFU_LABEL false true rfuFound
            :: [readUsrPacket; readStdResponse; readStdResult])
      with ([bankDecode EPC_LABEL false true epcFound;
             bankDecode TID_LABEL false true tidFound]
            ++ bankDecode RFU_LABEL false true rfuFound
            :: [readUsrPacket; readStdResponse; readStdResult]).
    rewrite Ht. clear Ht.
    destruct (Hhit d2 Hb2 (sameMembers_trans _ _ _ Hm01 Hm2)
                (Hbyte (fst RFU_LABEL) ltac:(simpl; lia))
                (Hbyte (snd RFU_LABEL) ltac:(simpl; lia)))
      as (H1 & H2 & _ & H4).
    cbn [tryDecoders]. unfold bankDecode at 1. rewrite H1, H2, H4.
    reflexivity.
  - (* EPC *)
    destruct (Hhit d1 Hb1 Hm01
                (Hbyte (fst EPC_LABEL) ltac:(simpl; lia))
                (Hbyte (snd EPC_LABEL) ltac:(simpl; lia)))
      as (H1 & H2 & _ & H4).
    cbn [tryDecoders]. unfold bankDecode at 1. rewrite H1, H2, H4.
    reflexivity.
  - (* TID *)
    destruct (tryDecoders_pass P (BUFFER d0)
                [bankDecode EPC_LABEL false true epcFound]
                (bankDecode TID_LABEL false true tidFound
                 :: bankDecode RFU_LABEL false true rfuFound
                 :: [readUsrPacket; readStdResponse; readStdResult])
                (Forall_cons _ (Hskip EPC_LABEL epcFound eq_refl
                                  ltac:(simpl; lia) ltac:(discriminate))
                   (Forall_nil _))
                d1 sm Hb1) as (d2 & Hb2 & Hm2 & Ht).
    change (bankDecode EPC_LABEL false true epcFound
            :: bankDecode TID_LABEL false true tidFound
            :: bankDecode RFU_LABEL false true rfuFound
            :: [readUsrPacket; readStdResponse; readStdResult])
      with ([bankDecode EPC_LABEL false true epcFound]
            ++ bankDecode TID_LABEL false true tidFound
            :: bankDecode RFU_LABEL false true rfuFound
            :: [readUsrPacket; readStdResponse; readStdResult]).
    rewrite Ht. clear Ht.
    destruct (Hhit d2 Hb2 (sameMembers_trans _ _ _ Hm01 Hm2)
                (Hbyte (fst TID_LABEL) ltac:(simpl; lia))
                (Hbyte (snd TID_LABEL) ltac:(simpl; lia)))
      as (H1 & H2 & _ & H4).
    cbn [tryDecoders]. unfold bankDecode at 1. rewrite H1, H2, H4.
    reflexivity.
  - (* USR *)
    destruct (tryDecoders_pass P (BUFFER d0)
                [bankDecode EPC_LABEL false true epcFound;
                 bankDecode TID_LABEL false true tidFound;
                 bankDecode RFU_LABEL false true rfuFound]
                [readUsrPacket; readStdResponse; readStdResult]
                (Forall_cons _ (Hskip EPC_LABEL epcFound eq_refl
                                  ltac:(simpl; lia) ltac:(discriminate))
                   (Forall_cons _ (Hskip TID_LABEL tidFound eq_refl
                                     ltac:(simpl; lia) ltac:(discriminate))
                      (Forall_cons _ (Hskip RFU_LABEL rfuFound eq_refl
                                        ltac:(simpl; lia)
                                        ltac:(discriminate))
                         (Forall_nil _))))
                d1 sm Hb1) as (d2 & Hb2 & Hm2 & Ht).
    change (bankDecode EPC_LABEL false true epcFound
            :: bankDecode TID_LABEL false true tidFound
            :: bankDecode RFU_LABEL false true rfuFound
            :: [readUsrPacket; readStdResponse; readStdResult])
      with ([bankDecode EPC_LABEL false true epcFound;
             bankDecode TID_LABEL false true tidFound;
             bankDecode RFU_LABEL false true rfuFound]
            ++ [readUsrPacket; readStdResponse; readStdResult]).
    rewrite Ht. clear Ht.
    destruct (Hhit d2 Hb2 (sameMembers_trans _ _ _ Hm01 Hm2)
                (Hbyte (fst USR_LABEL) ltac:(simpl; lia))
                (Hbyte (snd USR_LABEL) ltac:(simpl; lia)))
      as (H1 & H2 & H3 & H4).
    cbn [tryDecoders]. unfold readUsrPacket. rewrite H1, H2, H3, H4.
    assert (Hq : 0 <= Z.quot start 8 <= 3).
    { rewrite Z.quot_div_nonneg by lia. split.
      - apply Z.div_pos; lia.
      - apply Z.lt_succ_r. apply Z.div_lt_upper_bound; lia. }
    replace ((start ÷ 8 >? RFID_NUM_USER_DATAGRAMS - 1) || (start ÷ 8 <? 0))
      with false.
    + reflexivity.
    + symmetry. apply orb_false_iff. unfold RFID_NUM_USER_DATAGRAMS. split.
      * rewrite Z.gtb_ltb. apply Z.ltb_ge. lia.
      * apply Z.ltb_ge. lia.
Qed.

(** ** The acknowledge packet *)

Lemma header_shift_le (h : Z) (b : QByteArray) :
  (header_shift h b <= length b)%nat.
Proof.
  induction b as [|c b IH]; simpl; [lia|].
  destruct (c =? to_char h); lia.
Qed.

Lemma readAckPacket_on P d sm (G l : QByteArray) :
  BUFFER d = G ++ l ->
  header_shift HEADER_RESPONSE_CODE (G ++ l) = length G ->
  (firstn 8 l = ackPacket ->
   readAckPacket P d sm
   = (true, [], set_BUFFER (G ++ skipn 8 l) d,
      snd (SerialManager_writeData ackSingleFrame sm))) /\
  (firstn 8 l <> ackPacket -> readAckPacket P d sm = (false, [], d, sm)).
Proof.
  intros Hb Hs. unfold readAckPacket. rewrite Hb, Hs.
  destruct (length (G ++ l) <? length G + 8)%nat eqn:Hlen.
  - apply Nat.ltb_lt in Hlen. rewrite length_app in Hlen.
    split; [|reflexivity].
    intro H. apply (f_equal (@length Z)) in H.
    rewrite length_firstn in H. change (length ackPacket) with 8%nat in H.
    lia.
  - apply Nat.ltb_ge in Hlen. rewrite length_app in Hlen.
    destruct l as [|a0 [|a1 [|a2 [|a3 [|a4 [|a5 [|a6 [|a7 rest]]]]]]]];
      simpl in Hlen; try lia.
    unfold ref_eq.
    set (l := a0 :: a1 :: a2 :: a3 :: a4 :: a5 :: a6 :: a7 :: rest).
    rewrite (at_skip P G l 0 a0 eq_refl), (at_skip P G l 1 a1 eq_refl),
      (at_skip P G l 2 a2 eq_refl), (at_skip P G l 3 a3 eq_refl),
      (at_skip P G l 4 a4 eq_refl), (at_skip P G l 5 a5 eq_refl),
      (at_skip P G l 6 a6 eq_refl), (at_skip P G l 7 a7 eq_refl).
    subst l.
    assert (Hmid : mid (G ++ a0 :: a1 :: a2 :: a3 :: a4 :: a5 :: a6 :: a7
                          :: rest) (length G) 7
                   = [a0; a1; a2; a3; a4; a5; a6]).
    { unfold mid. simpl (7 <? 0).  cbv iota.
      rewrite skipn_app, Nat.sub_diag, skipn_all. reflexivity. }
    rewrite Hmid.
    assert (Hrem : remove (G ++ a0 :: a1 :: a2 :: a3 :: a4 :: a5 :: a6 :: a7
                             :: rest) (length G) 8 = G ++ rest).
    { rewrite remove_inside by (rewrite ?length_app; simpl; lia).
      rewrite firstn_app, Nat.sub_diag, firstn_all. simpl firstn.
      rewrite app_nil_r, skipn_app, skipn_all2 by lia.
      replace (length G + Z.to_nat 8 - length G)%nat with 8%nat by lia.
      reflexivity. }
    rewrite Hrem. simpl firstn. simpl skipn.
    split.
    + intro H. injection H as -> -> -> -> -> -> -> ->. reflexivity.
    + intro Hne.
      match goal with
      | |- (if ?c then _ else _) = _ => destruct c eqn:Hok
      end; [|reflexivity].
      exfalso. apply Hne.
      repeat (apply andb_true_iff in Hok; destruct Hok as [Hok ?]).
      repeat match goal with
             | H : (_ =? _) = true |- _ => apply Z.eqb_eq in H
             end.
      subst a0 a1 a2 a3 a4 a5 a6. subst a7. reflexivity.
Qed.

(** X8. The acknowledge decoder reads a packet exactly when the eight bytes
    from the first response header on are E0 06 61 00 00 64 00 55; it then
    removes these eight bytes, emits no signal and sends the read single tag
    request once.  Otherwise it changes nothing. *)
Theorem ack_decoder_matches_exactly (P : Platform) (d : SM_6210)
    (sm : SerialManager) :
  (firstn 8 (skipn (header_shift HEADER_RESPONSE_CODE (BUFFER d)) (BUFFER d))
   = ackPacket ->
   readAckPacket P d sm
   = (true, [],
      set_BUFFER
        (firstn (header_shift HEADER_RESPONSE_CODE (BUFFER d)) (BUFFER d)
         ++ skipn (header_shift HEADER_RESPONSE_CODE (BUFFER d) + 8)
                  (BUFFER d)) d,
      snd (SerialManager_writeData ackSingleFrame sm))) /\
  (firstn 8 (skipn (header_shift HEADER_RESPONSE_CODE (BUFFER d)) (BUFFER d))
   <> ackPacket ->
   readAckPacket P d sm = (false, [], d, sm)).
Proof.
  set (i := header_shift HEADER_RESPONSE_CODE (BUFFER d)).
  assert (Hi : (i <= length (BUFFER d))%nat) by apply header_shift_le.
  assert (Hlen : length (firstn i (BUFFER d)) = i)
    by (rewrite length_firstn; lia).
  destruct (readAckPacket_on P d sm (firstn i (BUFFER d))
              (skipn i (BUFFER d))) as [Hyes Hno].
  - now rewrite firstn_skipn.
  - now rewrite firstn_skipn, Hlen.
  - split; [|exact Hno].
    intro H. rewrite (Hyes H). do 3 f_equal.
    rewrite skipn_skipn. f_equal. f_equal. lia.
Qed.

Lemma ack_decoder_matches_exactly_witness :
  readAckPacket x86 ackAfterGarbage openPort
  = (true, [], set_BUFFER [0xff; 0x11] ackAfterGarbage,
     snd (SerialManager_writeData ackSingleFrame openPort)) /\
  readAckPacket x86 epcReadAfterGarbage openPort
  = (false, [], epcReadAfterGarbage, openPort).
Proof.
  split.
  - apply (proj1 (ack_decoder_matches_exactly x86 ackAfterGarbage openPort)).
    reflexivity.
  - apply (proj2 (ack_decoder_matches_exactly x86 epcReadAfterGarbage
                    openPort)).
    vm_compute. discriminate.
Defined.

Lemma bank_response_is_reported_witness :
  onDataReceived x86 (skipn 5 tidResponse) tidResponseBegun openPort
  = ([tidFound [0xe2; 0x80; 0x11; 0x05]],
     set_BUFFER [0x1a] tidResponseBegun, openPort).
Proof.
  refine (bank_response_is_reported x86 TID_LABEL [0xff; 0xff; 0xff] []
            [0xe2; 0x80; 0x11; 0x05] (skipn 5 tidResponse) 0x0a 0 2
            tidResponseBegun openPort _ _ _ _ _ _ _ _ _ _).
  - reflexivity.
  - reflexivity.
  - reflexivity.
  - repeat constructor; discriminate.
  - right. right. left. reflexivity.
  - unfold isByte. lia.
  - lia.
  - reflexivity.
  - lia.
  - simpl. lia.
Defined.

(** ** A length byte read as a negative number *)

(** X9. On a platform where [char] is signed, a response or result frame
    whose length byte is 0x80 or more is read as a frame of negative length:
    when the header lies within the first [256 - length byte] bytes of the
    buffer, the decoder reports a packet and removes nothing. *)
Theorem negative_length_byte_stalls (P : Platform) (d : SM_6210)
    (sm : SerialManager) (s : Z) :
  char_signed P = true -> 128 <= s < 256 ->
  (nth_error (BUFFER d)
     (header_shift HEADER_RESPONSE_CODE (BUFFER d) + 1) = Some s ->
   Z.of_nat (header_shift HEADER_RESPONSE_CODE (BUFFER d)) + s <= 256 ->
   readStdResponse P d sm = (true, [], set_BUFFER (BUFFER d) d, sm)) /\
  (nth_error (BUFFER d)
     (header_shift HEADER_RESULT_CODE (BUFFER d) + 1) = Some s ->
   Z.of_nat (header_shift HEADER_RESULT_CODE (BUFFER d)) + s <= 256 ->
   readStdResult P d sm = (true, [], set_BUFFER (BUFFER d) d, sm)).
Proof.
  intros Hsig Hs.
  assert (Hint : char_to_int P s = s - 256).
  { unfold char_to_int. rewrite Hsig.
    replace (128 <=? s) with true by (symmetry; apply Z.leb_le; lia).
    reflexivity. }
  assert (Hrem : forall b (i : nat), Z.of_nat i + s <= 256 ->
                   remove b 0 (Z.of_nat i + (s - 256)) = b).
  { intros b i Hi. unfold remove.
    replace (Z.of_nat i + (s - 256) <=? 0) with true
      by (symmetry; apply Z.leb_le; lia).
    reflexivity. }
  split; intros Hn Hi.
  - unfold readStdResponse, at_. rewrite Hn, Hint.
    assert (Hlt : (header_shift HEADER_RESPONSE_CODE (BUFFER d) + 1
                   < length (BUFFER d))%nat)
      by (apply nth_error_Some; congruence).
    replace (header_shift HEADER_RESPONSE_CODE (BUFFER d)
             <? length (BUFFER d))%nat with true
      by (symmetry; apply Nat.ltb_lt; lia).
    replace (header_shift HEADER_RESPONSE_CODE (BUFFER d) + 1
             <? length (BUFFER d))%nat with true
      by (symmetry; apply Nat.ltb_lt; lia).
    replace (s - 256 <? 6) with true by (symmetry; apply Z.ltb_lt; lia).
    simpl. now rewrite Hrem.
  - unfold readStdResult, at_. rewrite Hn, Hint.
    assert (Hlt : (header_shift HEADER_RESULT_CODE (BUFFER d) + 1
                   < length (BUFFER d))%nat)
      by (apply nth_error_Some; congruence).
    replace (header_shift HEADER_RESULT_CODE (BUFFER d)
             <? length (BUFFER d))%nat with true
      by (symmetry; apply Nat.ltb_lt; lia).
    replace (header_shift HEADER_RESULT_CODE (BUFFER d) + 1
             <? length (BUFFER d))%nat with true
      by (symmetry; apply Nat.ltb_lt; lia).
    simpl. now rewrite Hrem.
Qed.

Lemma negative_length_byte_stalls_witness :
  readStdResponse x86 (set_BUFFER [0xe0; 0xf0; 0x01] SM_6210_new) openPort
  = (true, [], set_BUFFER [0xe0; 0xf0; 0x01] SM_6210_new, openPort) /\
  readStdResult x86 (set_BUFFER [0xe4; 0xf0; 0x01] SM_6210_new) openPort
  = (true, [], set_BUFFER [0xe4; 0xf0; 0x01] SM_6210_new, openPort).
Proof.
  split.
  - apply (proj1 (negative_length_byte_stalls x86
                    (set_BUFFER [0xe0; 0xf0; 0x01] SM_6210_new) openPort
                    0xf0 eq_refl ltac:(lia))); [reflexivity | simpl; lia].
  - apply (proj2 (negative_length_byte_stalls x86
                    (set_BUFFER [0xe4; 0xf0; 0x01] SM_6210_new) openPort
                    0xf0 eq_refl ltac:(lia))); [reflexivity | simpl; lia].
Defined.

(** ** Erasing a tag *)

Lemma allTaken_later pkt sm sm' n :
  sameLink sm sm' n ->
  forallb (takesAll pkt sm') (seq 0 10) = allTaken pkt sm n.
Proof.
  intro H. unfold allTaken. apply forallb_pointwise. intro k.
  apply (takesAll_later _ _ _ _ _ H).
Qed.

(** X10. [eraseTag] with a current tag: the EPC packet (twelve zero bytes)
    goes out ten times; only if every one of these went out whole does the
    RFU packet (eight zero bytes) follow ten times, and only if these did
    too do the four user packets follow, ten times each, the first with
    thirteen zero bytes and the other three with no payload.  The result is
    [true] exactly when all sixty submissions went out whole.  Without a
    current tag nothing is sent and the result is [false]. *)
Theorem eraseTag_stops_at_first_failure (d : SM_6210) (sm : SerialManager) :
  (m_currentTag d = None -> eraseTag d sm = (false, sm)) /\
  (m_currentTag d <> None ->
   submitted (snd (eraseTag d sm))
   = submitted sm ++ repeat eraseEpcPacket 10
     ++ (if allTaken eraseEpcPacket sm 0
         then repeat eraseRfuPacket 10
              ++ (if allTaken eraseRfuPacket sm 10 then eraseUsrPackets
                  else [])
         else []) /\
   fst (eraseTag d sm)
   = allTaken eraseEpcPacket sm 0 && allTaken eraseRfuPacket sm 10
     && allTaken (writePacket (repeat 0 13) USR_LABEL 0 8) sm 20
     && allTaken (writePacket [] USR_LABEL 8 8) sm 30
     && allTaken (writePacket [] USR_LABEL 16 8) sm 40
     && allTaken (writePacket [] USR_LABEL 24 8) sm 50).
Proof.
  split.
  - intro Hc. unfold eraseTag, writeEpc. now rewrite Hc.
  - intro Hc. destruct (m_currentTag d) as [c|] eqn:Ht; [clear Hc|congruence].
    unfold eraseTag, writeEpc, writeRfu. rewrite Ht.
    destruct (writeData_spec (repeat (to_char 0) 12) EPC_LABEL 2 6 sm)
      as (S1 & L1 & R1).
    destruct (writeData (repeat (to_char 0) 12) EPC_LABEL 2 6 sm)
      as [r1 sm1].
    cbn [fst snd] in S1, L1, R1.
    assert (E1 : r1 = allTaken eraseEpcPacket sm 0) by exact R1.
    rewrite <- E1.
    destruct r1.
    + destruct (writeData_spec (repeat (to_char 0) 8) RFU_LABEL 0 4 sm1)
        as (S2 & L2 & R2).
      destruct (writeData (repeat (to_char 0) 8) RFU_LABEL 0 4 sm1)
        as [r2 sm2].
      cbn [fst snd] in S2, L2, R2.
      assert (E2 : r2 = allTaken eraseRfuPacket sm 10).
      { rewrite R2. apply (allTaken_later _ _ _ _ L1). }
      rewrite <- E2.
      pose proof (sameLink_trans _ _ _ _ _ L1 L2) as L12.
      destruct r2.
      * destruct (writeUserData_spec (repeat (to_char 0) 13) d c sm2 Ht)
          as (S3 & R3).
        split.
        -- rewrite S3, S2, S1, <- !app_assoc. reflexivity.
        -- rewrite R3. cbn [andb]. unfold allTaken.
           f_equal; [f_equal; [f_equal|]|]; apply forallb_pointwise;
             intro k; rewrite (takesAll_later _ _ _ _ _ L12);
             f_equal; lia.
      * cbn [fst snd]. split; [|reflexivity].
        rewrite S2, S1, <- !app_assoc, app_nil_r. reflexivity.
    + cbn [fst snd]. split; [|reflexivity].
      rewrite S1, app_nil_r. reflexivity.
Qed.

Lemma eraseTag_stops_at_first_failure_witness :
  eraseTag SM_6210_new openPort = (false, openPort) /\
  length (submitted (snd (eraseTag taggedDriver openPort))) = 60%nat /\
  fst (eraseTag taggedDriver openPort) = true.
Proof.
  split; [|split].
  - apply (proj1 (eraseTag_stops_at_first_failure SM_6210_new openPort)).
    reflexivity.
  - rewrite (proj1 (proj2 (eraseTag_stops_at_first_failure taggedDriver
                             openPort) ltac:(discriminate))).
    reflexivity.
  - rewrite (proj2 (proj2 (eraseTag_stops_at_first_failure taggedDriver
                             openPort) ltac:(discriminate))).
    reflexivity.
Defined.

(** ** A port that is not connected *)

Lemma nothingSent_refl sm : connected sm = false -> nothingSent sm sm.
Proof. intro H. repeat split. exact H. Qed.

Lemma nothingSent_trans sm1 sm2 sm3 :
  nothingSent sm1 sm2 -> nothingSent sm2 sm3 -> nothingSent sm1 sm3.
Proof. intros (A & B & C) (A' & B' & C'). repeat split; congruence. Qed.

Lemma nothingSent_once data sm :
  connected sm = false ->
  nothingSent sm (snd (SerialManager_writeData data sm)).
Proof.
  intro H. unfold SerialManager_writeData. rewrite H.
  repeat split; try exact H.
Qed.

Lemma nothingSent_repeatedly pkt n : forall ok sm,
  connected sm = false ->
  nothingSent sm (snd (sendRepeatedly n pkt ok sm)).
Proof.
  induction n as [|n IH]; intros ok sm H; simpl.
  - now apply nothingSent_refl.
  - pose proof (nothingSent_once pkt sm H) as H1.
    destruct (SerialManager_writeData pkt sm) as [bytes sm1].
    eapply nothingSent_trans; [exact H1|].
    apply IH. apply H1.
Qed.

Lemma takesAll_closed pkt sm from :
  connected sm = false -> forallb (fun k => takesAll pkt sm (from + k))
                                  (seq 0 10) = false.
Proof. intro H. simpl. unfold takesAll. now rewrite H. Qed.

Lemma writeData_closed data label startAddress length_ sm :
  connected sm = false ->
  fst (writeData data label startAddress length_ sm) = false /\
  nothingSent sm (snd (writeData data label startAddress length_ sm)).
Proof.
  intro H. split.
  - rewrite (proj2 (proj2 (writeData_spec data label startAddress length_
                             sm))).
    apply (takesAll_closed _ sm 0 H).
  - now apply nothingSent_repeatedly.
Qed.

Lemma writeEpc_closed e d sm :
  connected sm = false ->
  fst (writeEpc e d sm) = false /\ nothingSent sm (snd (writeEpc e d sm)).
Proof.
  intro H. unfold writeEpc. destruct (m_currentTag d).
  - now apply writeData_closed.
  - split; [reflexivity | now apply nothingSent_refl].
Qed.

Lemma writeRfu_closed f d sm :
  connected sm = false ->
  fst (writeRfu f d sm) = false /\ nothingSent sm (snd (writeRfu f d sm)).
Proof.
  intro H. unfold writeRfu. destruct (m_currentTag d).
  - now apply writeData_closed.
  - split; [reflexivity | now apply nothingSent_refl].
Qed.

Lemma writeUserData_closed u d sm :
  connected sm = false ->
  fst (writeUserData u d sm) = false /\
  nothingSent sm (snd (writeUserData u d sm)).
Proof.
  intro H. unfold writeUserData. destruct (m_currentTag d);
    [|split; [reflexivity | now apply nothingSent_refl]].
  destruct (writeData_closed (mid u 0 16) USR_LABEL 0 8 sm H) as [R1 N1].
  destruct (writeData (mid u 0 16) USR_LABEL 0 8 sm) as [r1 sm1].
  destruct (writeData_closed (mid u 16 32) USR_LABEL 8 8 sm1 (proj1 N1))
    as [R2 N2].
  destruct (writeData (mid u 16 32) USR_LABEL 8 8 sm1) as [r2 sm2].
  destruct (writeData_closed (mid u 32 48) USR_LABEL 16 8 sm2 (proj1 N2))
    as [R3 N3].
  destruct (writeData (mid u 32 48) USR_LABEL 16 8 sm2) as [r3 sm3].
  destruct (writeData_closed (mid u 48 64) USR_LABEL 24 8 sm3 (proj1 N3))
    as [R4 N4].
  destruct (writeData (mid u 48 64) USR_LABEL 24 8 sm3) as [r4 sm4].
  cbn [fst snd] in *. subst. split; [reflexivity|].
  eauto using nothingSent_trans.
Qed.

Lemma eraseTag_closed d sm :
  connected sm = false ->
  fst (eraseTag d sm) = false /\ nothingSent sm (snd (eraseTag d sm)).
Proof.
  intro H. unfold eraseTag.
  destruct (writeEpc_closed (repeat (to_char 0) 12) d sm H) as [R1 N1].
  destruct (writeEpc (repeat (to_char 0) 12) d sm) as [r1 sm1].
  cbn [fst snd] in *. subst r1. split; [reflexivity | exact N1].
Qed.

(** X11. While the port is not connected, no call of the driver puts a byte
    on the wire: the record of what was sent and the count of device writes
    stay as they are, whatever the call, and each of the write and erase
    operations returns [false]. *)
Theorem nothing_leaves_a_closed_port (P : Platform) (c : DriverCall)
    (d : SM_6210) (sm : SerialManager) (payload : QByteArray) :
  connected sm = false ->
  dataSent (snd (runCall P c d sm)) = dataSent sm /\
  writes (snd (runCall P c d sm)) = writes sm /\
  connected (snd (runCall P c d sm)) = false /\
  fst (writeEpc payload d sm) = false /\
  fst (writeRfu payload d sm) = false /\
  fst (writeUserData payload d sm) = false /\
  fst (eraseTag d sm) = false.
Proof.
  intro H.
  assert (Hn : nothingSent sm (snd (runCall P c d sm))).
  { destruct c; simpl.
    - unfold scan. destruct (m_currentTag d).
      + destruct (m_selector d =? 0); [|destruct (m_selector d =? 1);
          [|destruct (m_selector d =? 2)]]; simpl;
          try (now apply nothingSent_once);
          try (unfold readUsr; destruct (m_userStartAddress d >? 24); simpl;
               now apply nothingSent_once).
      + destruct (m_shitCount (set_selector 0 d) >? 10); simpl;
          now apply nothingSent_once.
    - unfold onDataReceived, loaded. rewrite H.
      destruct (isEmpty data); simpl; now apply nothingSent_refl.
    - now apply writeEpc_closed.
    - now apply writeRfu_closed.
    - now apply writeUserData_closed.
    - now apply eraseTag_closed. }
  destruct Hn as (Hc & Hd & Hw).
  split; [exact Hd|]. split; [exact Hw|]. split; [exact Hc|].
  split; [now apply writeEpc_closed|].
  split; [now apply writeRfu_closed|].
  split; [now apply writeUserData_closed | now apply eraseTag_closed].
Qed.

Lemma nothing_leaves_a_closed_port_witness :
  connected closedPort = false /\
  dataSent (snd (runCall x86 (CallWriteEpc [0x01; 0x02]) taggedDriver
                   closedPort)) = [] /\
  fst (writeEpc [0x01; 0x02] taggedDriver closedPort) = false.
Proof.
  pose proof (nothing_leaves_a_closed_port x86 (CallWriteEpc [0x01; 0x02])
                taggedDriver closedPort [0x01; 0x02] eq_refl) as H.
  split; [reflexivity|].
  split; [exact (proj1 H) | exact (proj1 (proj2 (proj2 (proj2 H))))].
Defined.

(** * Further properties of the aggregator *)

(** ** The watchdog, in general *)

Lemma currentTag_reset now r : currentTag (resetCurrentTag now r) = None.
Proof.
  unfold resetCurrentTag, currentTag.
  destruct (m_reader r) eqn:H; simpl; [reflexivity|].
  reflexivity.
Qed.

Lemma expire_keeps now fuel : forall r,
  m_tags (expire fuel now r) = m_tags r /\
  store (expire fuel now r) = store r.
Proof.
  induction fuel as [|fuel IH]; intro r; simpl; [auto|].
  destruct (m_watchdog r) as [t|]; [|auto].
  destruct (_ <=? now); [|auto].
  destruct (IH (resetCurrentTag (t + RFID_CURRENT_TAG_TIMEOUT) r))
    as [H1 H2].
  rewrite H1, H2. unfold resetCurrentTag.
  destruct (m_reader r); auto.
Qed.

Lemma expire_none now fuel : forall r,
  currentTag r = None -> currentTag (expire fuel now r) = None.
Proof.
  induction fuel as [|fuel IH]; intros r H; simpl; [exact H|].
  destruct (m_watchdog r) as [t|]; [|exact H].
  destruct (_ <=? now); [|exact H].
  apply IH, currentTag_reset.
Qed.

(** X12. Letting the time pass up to [now] on an aggregator whose watchdog
    was last started at [t]: before [t + 1000] nothing happens; from
    [t + 1000] on there is no current tag any more, while the history and
    the records are as they were. *)
Theorem watchdog_clears_current_tag_only (now t : Z) (r : RFID) :
  m_watchdog r = Some t ->
  (now < t + RFID_CURRENT_TAG_TIMEOUT -> passTime now r = r) /\
  (t + RFID_CURRENT_TAG_TIMEOUT <= now ->
   currentTag (passTime now r) = None /\
   m_tags (passTime now r) = m_tags r /\
   store (passTime now r) = store r).
Proof.
  intro Hw. unfold passTime. rewrite Hw. unfold RFID_CURRENT_TAG_TIMEOUT.
  split.
  - intro Hlt.
    assert (Hf : Z.to_nat ((now - t) / 1000) = O).
    { assert ((now - t) / 1000 <= 0); [|lia].
      apply Z.lt_succ_r. apply Z.div_lt_upper_bound; lia. }
    now rewrite Hf.
  - intro Hge.
    destruct (expire_keeps now (Z.to_nat ((now - t) / 1000)) r) as [H1 H2].
    split; [|split; [exact H1 | exact H2]].
    assert (Hf : exists f, Z.to_nat ((now - t) / 1000) = S f).
    { assert (1 <= (now - t) / 1000)
        by (apply Z.div_le_lower_bound; lia).
      exists (Z.to_nat ((now - t) / 1000) - 1)%nat. lia. }
    destruct Hf as [f Hf]. rewrite Hf. simpl. rewrite Hw.
    unfold RFID_CURRENT_TAG_TIMEOUT.
    replace (t + 1000 <=? now) with true by (symmetry; apply Z.leb_le; lia).
    apply expire_none, currentTag_reset.
Qed.

Lemma watchdog_clears_current_tag_only_witness :
  passTime 999 taggedRFID = taggedRFID /\
  currentTag (passTime 1000 taggedRFID) = None /\
  m_tags (passTime 1000 taggedRFID) = [O].
Proof.
  pose proof (watchdog_clears_current_tag_only 999 0 taggedRFID eq_refl)
    as H.
  pose proof (watchdog_clears_current_tag_only 1000 0 taggedRFID eq_refl)
    as H'.
  split; [apply (proj1 H); reflexivity|].
  destruct (proj2 H') as (H1 & H2 & _); [discriminate|].
  split; [exact H1 | exact H2].
Defined.

(** ** The first event *)

Lemma updateTagList_first now tag r rd :
  m_reader r = Some rd -> m_tags r = [] -> m_currentTag rd = None ->
  updateTagList now tag r
  = Some {| m_tags := [tag];
            m_reader := Some (setCurrentTag (Some tag) rd);
            m_watchdog := Some now; store := store r;
            emitted := emitted r ++ [tagCountChanged; currentTagChanged] |}.
Proof.
  intros Hr Ht Hc. unfold updateTagList. rewrite Hr, Ht, Hc. reflexivity.
Qed.

Lemma deref_new (s : list RFID_Tag) (v : RFID_Tag) :
  deref (s ++ [v]) (length s) = v.
Proof. unfold deref. now rewrite nth_middle. Qed.

Lemma first_slot now v r rd :
  m_reader r = Some rd -> m_tags r = [] -> m_currentTag rd = None ->
  exists r',
    updateTagList now (length (store r)) (set_store (store r ++ [v]) [] r)
    = Some r' /\
    m_tags r' = [length (store r)] /\
    currentTag r' = Some (length (store r)) /\
    history r' = [v] /\
    m_watchdog r' = Some now /\
    emitted r' = emitted r ++ [tagCountChanged; currentTagChanged].
Proof.
  intros Hr Ht Hc.
  rewrite (updateTagList_first now _ (set_store (store r ++ [v]) [] r) rd
             Hr Ht Hc).
  eexists. split; [reflexivity|]. unfold history, currentTag. simpl.
  rewrite deref_new, app_nil_r. repeat split.
Qed.

(** X13. The first bank event on an aggregator that has a reader, an empty
    history and no current tag creates one record that holds the payload in
    the field of its bank and nothing else, puts it in the history as its
    only entry, makes it the current tag, starts the watchdog and emits
    [tagCountChanged] and [currentTagChanged]. *)
Theorem first_event_creates_record (now : Z) (sig : ReaderSignal) (r : RFID)
    (rd : SM_6210) :
  m_reader r = Some rd -> m_tags r = [] -> m_currentTag rd = None ->
  datagramInRange sig ->
  exists r',
    dispatch now sig r = Some r' /\
    m_tags r' = [length (store r)] /\
    currentTag r' = Some (length (store r)) /\
    history r' = [tagOfSignal sig] /\
    m_watchdog r' = Some now /\
    emitted r' = emitted r ++ [tagCountChanged; currentTagChanged].
Proof.
  intros Hr Ht Hc Hsig.
  assert (Hcur : forall s sigs, currentTag (set_store s sigs r) = None).
  { intros s sigs. unfold currentTag, set_store. simpl. now rewrite Hr. }
  destruct sig as [i|e|f|u k]; simpl dispatch.
  - unfold onTidFound, newTag. rewrite Hcur.
    exact (first_slot now _ r rd Hr Ht Hc).
  - unfold onEpcFound, newTag. rewrite Hcur.
    exact (first_slot now _ r rd Hr Ht Hc).
  - unfold onRfuFound, newTag. rewrite Hcur.
    exact (first_slot now _ r rd Hr Ht Hc).
  - unfold onUsrFound, newTag. simpl in Hsig.
    replace ((k <? RFID_NUM_USER_DATAGRAMS) && (0 <=? k)) with true
      by (symmetry; apply andb_true_iff; split;
          [apply Z.ltb_lt | apply Z.leb_le]; lia).
    rewrite Hcur.
    exact (first_slot now _ r rd Hr Ht Hc).
Qed.

Lemma first_event_creates_record_witness :
  exists r',
    dispatch 0 (usrFound [0xaa; 0xbb] 3) (clearHistory 0 taggedRFID)
    = Some r' /\
    currentTag r' = Some 1%nat /\
    history r'
    = [{| epc := []; tid := []; rfu := [];
          usr := [[]; []; []; [0xaa; 0xbb]] |}].
Proof.
  destruct (first_event_creates_record 0 (usrFound [0xaa; 0xbb] 3)
              (clearHistory 0 taggedRFID) (setCurrentTag None taggedDriver)
              eq_refl eq_refl eq_refl)
    as (r' & Hd & _ & Hc & Hh & _).
  - simpl. unfold RFID_NUM_USER_DATAGRAMS. lia.
  - exists r'. split; [exact Hd|]. split; [exact Hc | exact Hh].
Defined.

(** ** What [updateTagList] does to the history and to the store *)

Lemma bytes_eqb_refl (a : QByteArray) : bytes_eqb a a = true.
Proof.
  induction a as [|x a IH]; simpl; [reflexivity|].
  now rewrite Z.eqb_refl, IH.
Qed.

Lemma findTag_none s tag l :
  findTag s (deref s tag) l = None -> ~ In tag l.
Proof.
  induction l as [|t l IH]; simpl; [tauto|].
  destruct (_ || _) eqn:E; [discriminate|].
  intros H [Ht|Hin]; [|now apply IH].
  subst t. now rewrite bytes_eqb_refl in E.
Qed.

Lemma skipn_S_tl {A : Type} (j : nat) : forall l : list A,
  skipn (S j) l = tl (skipn j l).
Proof.
  induction j as [|j IH]; intros [|x l]; simpl; auto.
  apply (IH l).
Qed.

Lemma removeAt_NoDup {A : Type} (j : nat) (l : list A) :
  NoDup l -> NoDup (removeAt j l).
Proof.
  intro H. unfold removeAt. rewrite skipn_S_tl.
  rewrite <- (firstn_skipn j l) in H.
  destruct (skipn j l) as [|x rest]; simpl.
  - exact H.
  - now apply NoDup_remove_1 in H.
Qed.

Lemma cleanupInner_NoDup fuel s ta : forall j tags sigs,
  NoDup tags -> NoDup (fst (cleanupInner fuel s ta j tags sigs)).
Proof.
  induction fuel as [|fuel IH]; intros j tags sigs H; simpl; [exact H|].
  destruct (j <? length tags)%nat; [|exact H].
  apply IH.
  destruct (ta =? nth j tags O)%nat; [now apply removeAt_NoDup|].
  destruct (bytes_eqb _ _); [now apply removeAt_NoDup | exact H].
Qed.

Lemma cleanupOuter_NoDup fuel s : forall i tags sigs,
  NoDup tags -> NoDup (fst (cleanupOuter fuel s i tags sigs)).
Proof.
  induction fuel as [|fuel IH]; intros i tags sigs H; simpl; [exact H|].
  destruct (i <? length tags)%nat; [|exact H].
  pose proof (cleanupInner_NoDup (length tags) s (nth i tags O) (S i) tags
                sigs H) as Hi.
  destruct (cleanupInner (length tags) s (nth i tags O) (S i) tags sigs)
    as [tags' sigs'].
  now apply IH.
Qed.

(** The list and the store [updateTagList] leaves: the list is the result of
    the cleanup of the old list, with the tag appended if no entry matched
    it; the store is the old one, with the matching entry merged if there
    was one. *)
Lemma updateTagList_result now tag r r' :
  updateTagList now tag r = Some r' ->
  exists tags0 sigs0,
    m_tags r' = fst (cleanupOuter (length tags0) (store r') O tags0 sigs0) /\
    (tags0 = m_tags r \/
     (tags0 = m_tags r ++ [tag] /\
      findTag (store r) (deref (store r) tag) (m_tags r) = None)) /\
    (store r' = store r \/
     exists t, store r'
               = setNth t (fst (mergeInto (deref (store r) t)
                                  (deref (store r) tag))) (store r)).
Proof.
  unfold updateTagList.
  destruct (m_reader r) as [rd|]; [|discriminate].
  destruct (findTag (store r) (deref (store r) tag) (m_tags r)) as [t|] eqn:Hf.
  - destruct (mergeInto (deref (store r) t) (deref (store r) tag))
      as [t' sigs] eqn:Hm.
    destruct (cleanupOuter _ _ _ _ _) as [tags sigs'] eqn:Hc.
    intro H.
    assert (Hr : m_tags r' = tags /\ store r' = setNth t t' (store r)).
    { destruct (m_currentTag rd) as [c|]; [destruct (c =? tag)%nat|];
        injection H as <-; auto. }
    destruct Hr as [Ht Hs].
    exists (m_tags r), sigs. rewrite Hs, Hc, Ht.
    split; [reflexivity|]. split; [now left|].
    right. exists t. now rewrite Hm.
  - destruct (cleanupOuter _ _ _ _ _) as [tags sigs'] eqn:Hc.
    intro H.
    assert (Hr : m_tags r' = tags /\ store r' = store r).
    { destruct (m_currentTag rd) as [c|]; [destruct (c =? tag)%nat|];
        injection H as <-; auto. }
    destruct Hr as [Ht Hs].
    exists (m_tags r ++ [tag]), [tagCountChanged]. rewrite Hs, Hc, Ht.
    split; [reflexivity|]. split; [right; now split | now left].
Qed.

Lemma updateTagList_NoDup now tag r r' :
  NoDup (m_tags r) -> updateTagList now tag r = Some r' -> NoDup (m_tags r').
Proof.
  intros Hn H.
  destruct (updateTagList_result now tag r r' H)
    as (tags0 & sigs0 & Ht & [->|[-> Hf]] & _); rewrite Ht;
    apply cleanupOuter_NoDup; [exact Hn|].
  apply NoDup_app; [exact Hn | repeat constructor; intros [] |].
  intros x Hx [<-|[]]. now apply (findTag_none _ _ _ Hf).
Qed.

Lemma dispatch_NoDup now sig r r' :
  NoDup (m_tags r) -> dispatch now sig r = Some r' -> NoDup (m_tags r').
Proof.
  intros Hn.
  destruct sig as [i|e|f|u k]; simpl;
    [unfold onTidFound|unfold onEpcFound|unfold onRfuFound|unfold onUsrFound];
    unfold newTag;
    repeat match goal with
           | |- context [match currentTag ?x with _ => _ end] =>
               destruct (currentTag x)
           | |- context [if ?c then _ else _] => destruct c
           | |- context [let '(_, _) := updateTagData ?a ?b in _] =>
               destruct (updateTagData a b)
           end;
    intro H;
    try discriminate;
    try (injection H as <-; exact Hn);
    (refine (updateTagList_NoDup _ _ _ _ _ H); exact Hn).
Qed.

Lemma passTime_keeps now r :
  m_tags (passTime now r) = m_tags r /\ store (passTime now r) = store r.
Proof.
  unfold passTime. destruct (m_watchdog r); [apply expire_keeps | auto].
Qed.

(** X14. No record is listed twice in the history: a history without
    repetition stays so through any sequence of bank events and watchdog
    timeouts. *)
Theorem history_lists_each_record_once (evs : list (Z * ReaderSignal))
    (r r' : RFID) :
  NoDup (m_tags r) -> bankEvents evs r = Some r' -> NoDup (m_tags r').
Proof.
  revert r. induction evs as [|[now sig] evs IH]; intros r Hn; simpl.
  - intro H. injection H as <-. exact Hn.
  - unfold bankEvent.
    destruct (dispatch now sig (passTime now r)) as [r1|] eqn:Hd;
      [|discriminate].
    apply IH. apply (dispatch_NoDup now sig (passTime now r) r1); [|exact Hd].
    now rewrite (proj1 (passTime_keeps now r)).
Qed.

Lemma history_lists_each_record_once_witness :
  exists r', bankEvents sharedEpcEvents freshRFID = Some r' /\
             NoDup (m_tags r').
Proof.
  destruct (bankEvents sharedEpcEvents freshRFID) as [r'|] eqn:H.
  - exists r'. split; [reflexivity|].
    apply (history_lists_each_record_once sharedEpcEvents freshRFID r');
      [constructor | exact H].
  - vm_compute in H. discriminate.
Defined.

(** ** Data that has been read stays *)

Lemma updateTagData_keeps dest src :
  dest <> [] -> fst (updateTagData dest src) <> [].
Proof.
  intro H. unfold updateTagData.
  destruct (isEmpty src) eqn:E; simpl; [exact H|].
  destruct (bytes_eqb dest src); simpl; [exact H|].
  intro Hs. subst src. discriminate.
Qed.

Lemma keepsData_refl t : keepsData t t.
Proof. repeat split; auto. Qed.

Lemma keepsData_trans t1 t2 t3 :
  keepsData t1 t2 -> keepsData t2 t3 -> keepsData t1 t3.
Proof.
  intros (A1 & A2 & A3 & A4) (B1 & B2 & B3 & B4). repeat split; auto.
Qed.

Lemma keepsData_empty t : keepsData emptyTag t.
Proof.
  repeat split; simpl; try congruence.
  intros k Hk. destruct k as [|[|[|[|k]]]]; simpl; try congruence.
  unfold RFID_NUM_USER_DATAGRAMS in Hk. simpl in Hk. lia.
Qed.

Lemma mergeInto_keeps t tag : keepsData t (fst (mergeInto t tag)).
Proof.
  unfold mergeInto.
  pose proof (updateTagData_keeps (epc t) (epc tag)) as He.
  pose proof (updateTagData_keeps (tid t) (tid tag)) as Hi.
  pose proof (updateTagData_keeps (rfu t) (rfu tag)) as Hf.
  destruct (updateTagData (epc t) (epc tag)) as [e ue].
  destruct (updateTagData (tid t) (tid tag)) as [i ui].
  destruct (updateTagData (rfu t) (rfu tag)) as [f uf].
  simpl. repeat split; auto.
  intros k Hk Hn.
  unfold RFID_NUM_USER_DATAGRAMS in *. simpl in Hk.
  destruct k as [|[|[|[|k]]]]; simpl; try lia;
    now apply updateTagData_keeps.
Qed.

Lemma deref_setNth (s : list RFID_Tag) (i p : nat) (x : RFID_Tag) :
  deref (setNth i x s) p
  = if ((p =? i) && (i <? length s))%nat then x else deref s p.
Proof.
  unfold deref. revert i p.
  induction s as [|y s IH]; intros i p; simpl.
  - rewrite andb_false_r. now destruct i.
  - destruct i as [|i]; destruct p as [|p]; simpl; try reflexivity.
    rewrite IH. reflexivity.
Qed.

Lemma nth_setNth {A : Type} (l : list A) (k j : nat) (x d : A) :
  nth j (setNth k x l) d
  = if ((j =? k) && (k <? length l))%nat then x else nth j l d.
Proof.
  revert k j. induction l as [|y l IH]; intros k j; simpl.
  - rewrite andb_false_r. now destruct k.
  - destruct k as [|k]; destruct j as [|j]; simpl; try reflexivity.
    rewrite IH. reflexivity.
Qed.

Lemma storeKeepsData_refl s : storeKeepsData s s.
Proof. intro p. apply keepsData_refl. Qed.

Lemma storeKeepsData_trans s1 s2 s3 :
  storeKeepsData s1 s2 -> storeKeepsData s2 s3 -> storeKeepsData s1 s3.
Proof. intros H1 H2 p. eapply keepsData_trans; [apply H1 | apply H2]. Qed.

Lemma storeKeepsData_setNth s i x :
  keepsData (deref s i) x -> storeKeepsData s (setNth i x s).
Proof.
  intros H p. rewrite deref_setNth.
  destruct (p =? i)%nat eqn:E; simpl; [|apply keepsData_refl].
  apply Nat.eqb_eq in E. subst p.
  destruct (i <? length s)%nat; [exact H | apply keepsData_refl].
Qed.

Lemma storeKeepsData_new s v : storeKeepsData s (s ++ [v]).
Proof.
  intro p. unfold deref.
  destruct (Nat.lt_ge_cases p (length s)) as [H|H].
  - rewrite app_nth1 by exact H. apply keepsData_refl.
  - rewrite (nth_overflow s) by exact H. apply keepsData_empty.
Qed.

Lemma updateTagList_keeps now tag r r' :
  updateTagList now tag r = Some r' -> storeKeepsData (store r) (store r').
Proof.
  intro H.
  destruct (updateTagList_result now tag r r' H)
    as (_ & _ & _ & _ & [->|[t ->]]).
  - apply storeKeepsData_refl.
  - apply storeKeepsData_setNth, mergeInto_keeps.
Qed.

Lemma keepsData_epc cur e :
  keepsData cur {| epc := fst (updateTagData (epc cur) e); tid := tid cur;
                   rfu := rfu cur; usr := usr cur |}.
Proof. repeat split; simpl; auto using updateTagData_keeps. Qed.

Lemma keepsData_tid cur i :
  keepsData cur {| epc := epc cur; tid := fst (updateTagData (tid cur) i);
                   rfu := rfu cur; usr := usr cur |}.
Proof. repeat split; simpl; auto using updateTagData_keeps. Qed.

Lemma keepsData_rfu cur f :
  keepsData cur {| epc := epc cur; tid := tid cur;
                   rfu := fst (updateTagData (rfu cur) f); usr := usr cur |}.
Proof. repeat split; simpl; auto using updateTagData_keeps. Qed.

Lemma keepsData_usr cur k u :
  keepsData cur
    {| epc := epc cur; tid := tid cur; rfu := rfu cur;
       usr := setNth k (fst (updateTagData (nth k (usr cur) []) u))
                     (usr cur) |}.
Proof.
  repeat split; simpl; auto.
  intros j Hj Hn. rewrite nth_setNth.
  destruct (j =? k)%nat eqn:E; simpl; [|exact Hn].
  apply Nat.eqb_eq in E. subst j.
  destruct (k <? length (usr cur))%nat; [|exact Hn].
  now apply updateTagData_keeps.
Qed.

Lemma onEpcFound_keeps now e r r' :
  onEpcFound now e r = Some r' -> storeKeepsData (store r) (store r').
Proof.
  unfold onEpcFound, newTag.
  set (r1 := set_store _ [] r).
  assert (H1 : storeKeepsData (store r) (store r1))
    by apply storeKeepsData_new.
  destruct (currentTag r1) as [c|].
  - destruct (_ && _).
    + intro H. eapply storeKeepsData_trans; [exact H1|].
      apply (updateTagList_keeps _ _ _ _ H).
    + pose proof (keepsData_epc (deref (store r1) c) e) as Hk.
      destruct (updateTagData (epc (deref (store r1) c)) e) as [e' u].
      intro H. injection H as <-.
      eapply storeKeepsData_trans; [exact H1|].
      apply storeKeepsData_setNth. exact Hk.
  - intro H. eapply storeKeepsData_trans; [exact H1|].
    apply (updateTagList_keeps _ _ _ _ H).
Qed.

Lemma onTidFound_keeps now i r r' :
  onTidFound now i r = Some r' -> storeKeepsData (store r) (store r').
Proof.
  unfold onTidFound, newTag.
  set (r1 := set_store _ [] r).
  assert (H1 : storeKeepsData (store r) (store r1))
    by apply storeKeepsData_new.
  destruct (currentTag r1) as [c|].
  - destruct (_ && _).
    + intro H. eapply storeKeepsData_trans; [exact H1|].
      apply (updateTagList_keeps _ _ _ _ H).
    + pose proof (keepsData_tid (deref (store r1) c) i) as Hk.
      destruct (updateTagData (tid (deref (store r1) c)) i) as [i' u].
      intro H. eapply storeKeepsData_trans; [exact H1|].
      eapply storeKeepsData_trans;
        [|apply (updateTagList_keeps _ _ _ _ H)].
      apply storeKeepsData_setNth. exact Hk.
  - intro H. eapply storeKeepsData_trans; [exact H1|].
    apply (updateTagList_keeps _ _ _ _ H).
Qed.

Lemma onRfuFound_keeps now f r r' :
  onRfuFound now f r = Some r' -> storeKeepsData (store r) (store r').
Proof.
  unfold onRfuFound, newTag.
  set (r1 := set_store _ [] r).
  assert (H1 : storeKeepsData (store r) (store r1))
    by apply storeKeepsData_new.
  destruct (currentTag r1) as [c|].
  - destruct (_ && _).
    + intro H. eapply storeKeepsData_trans; [exact H1|].
      apply (updateTagList_keeps _ _ _ _ H).
    + pose proof (keepsData_rfu (deref (store r1) c) f) as Hk.
      destruct (updateTagData (rfu (deref (store r1) c)) f) as [f' u].
      intro H. eapply storeKeepsData_trans; [exact H1|].
      eapply storeKeepsData_trans;
        [|apply (updateTagList_keeps _ _ _ _ H)].
      apply storeKeepsData_setNth. exact Hk.
  - intro H. eapply storeKeepsData_trans; [exact H1|].
    apply (updateTagList_keeps _ _ _ _ H).
Qed.

Lemma onUsrFound_keeps now u k r r' :
  onUsrFound now u k r = Some r' -> storeKeepsData (store r) (store r').
Proof.
  unfold onUsrFound, newTag.
  destruct (_ && _); [|discriminate].
  set (r1 := set_store _ [] r).
  assert (H1 : storeKeepsData (store r) (store r1))
    by apply storeKeepsData_new.
  destruct (currentTag r1) as [c|].
  - destruct (_ && _).
    + intro H. eapply storeKeepsData_trans; [exact H1|].
      apply (updateTagList_keeps _ _ _ _ H).
    + pose proof (keepsData_usr (deref (store r1) c) (Z.to_nat k) u) as Hk.
      destruct (updateTagData (nth (Z.to_nat k) (usr (deref (store r1) c)) [])
                  u) as [u' b].
      intro H. eapply storeKeepsData_trans; [exact H1|].
      eapply storeKeepsData_trans;
        [|apply (updateTagList_keeps _ _ _ _ H)].
      apply storeKeepsData_setNth. exact Hk.
  - intro H. eapply storeKeepsData_trans; [exact H1|].
    apply (updateTagList_keeps _ _ _ _ H).
Qed.

(** X15. Through any sequence of bank events and watchdog timeouts, a field
    of a tag record that holds data (EPC, TID, RFU or one of the four user
    datagrams) never becomes empty again: it keeps its bytes or takes
    others. *)
Theorem read_data_is_never_erased (evs : list (Z * ReaderSignal))
    (r r' : RFID) (p : TagPtr) :
  bankEvents evs r = Some r' ->
  keepsData (deref (store r) p) (deref (store r') p).
Proof.
  intro H.
  assert (Hs : storeKeepsData (store r) (store r')); [|apply Hs].
  revert r H. induction evs as [|[now sig] evs IH]; intros r; simpl.
  - intro H. injection H as <-. apply storeKeepsData_refl.
  - unfold bankEvent.
    destruct (dispatch now sig (passTime now r)) as [r1|] eqn:Hd;
      [|discriminate].
    intro H. eapply storeKeepsData_trans; [|apply (IH r1 H)].
    rewrite <- (proj2 (passTime_keeps now r)).
    destruct sig; simpl in Hd.
    + apply (onTidFound_keeps _ _ _ _ Hd).
    + apply (onEpcFound_keeps _ _ _ _ Hd).
    + apply (onRfuFound_keeps _ _ _ _ Hd).
    + apply (onUsrFound_keeps _ _ _ _ _ Hd).
Qed.

Lemma read_data_is_never_erased_witness :
  exists r', bankEvents [(10, tidFound tidA); (20, epcFound epcB)] taggedRFID
             = Some r' /\
             epc (deref (store r') O) <> [].
Proof.
  destruct (bankEvents [(10, tidFound tidA); (20, epcFound epcB)] taggedRFID)
    as [r'|] eqn:H.
  - exists r'. split; [reflexivity|].
    apply (read_data_is_never_erased _ taggedRFID r' O H). discriminate.
  - vm_compute in H. discriminate.
Defined.

(** ** Assembling the user data *)

Lemma updateTagData_same x : updateTagData x x = (x, false).
Proof.
  unfold updateTagData. now rewrite bytes_eqb_refl, andb_false_r.
Qed.

Lemma updateTagData_fill u : fst (updateTagData [] u) = u.
Proof. unfold updateTagData. now destruct u. Qed.

Lemma mergeInto_self t :
  length (usr t) = 4%nat -> mergeInto t t = (t, []).
Proof.
  intro H. unfold mergeInto. rewrite !updateTagData_same.
  destruct t as [e i f us]. simpl in *.
  destruct us as [|a [|b [|c [|d0 [|x us]]]]]; try discriminate.
  simpl. rewrite !updateTagData_same. reflexivity.
Qed.

Lemma setNth_same {A : Type} (d : A) : forall (s : list A) (p : nat),
  setNth p (nth p s d) s = s.
Proof.
  induction s as [|y s IH]; intros [|p]; simpl; try reflexivity.
  now rewrite IH.
Qed.

Lemma setNth_length {A : Type} (x : A) : forall (l : list A) (k : nat),
  length (setNth k x l) = length l.
Proof.
  induction l as [|y l IH]; intros [|k]; simpl; auto.
Qed.

(** [updateTagList] on the current tag when it is the only entry of the
    history: nothing changes but the watchdog. *)
Lemma updateTagList_only_entry now p r rd :
  m_reader r = Some rd -> m_currentTag rd = Some p -> m_tags r = [p] ->
  length (usr (deref (store r) p)) = 4%nat ->
  updateTagList now p r
  = Some {| m_tags := [p]; m_reader := Some rd; m_watchdog := Some now;
            store := store r; emitted := emitted r ++ [] |}.
Proof.
  intros Hr Hc Ht Hu. unfold updateTagList. rewrite Hr, Ht. simpl findTag.
  rewrite bytes_eqb_refl. cbn [orb].
  rewrite (mergeInto_self _ Hu). unfold deref. rewrite setNth_same.
  simpl. rewrite Hc, Nat.eqb_refl. reflexivity.
Qed.

Lemma onUsrFound_fills now u (k : nat) r rd p t :
  m_reader r = Some rd -> m_currentTag rd = Some p -> m_tags r = [p] ->
  (p < length (store r))%nat -> deref (store r) p = t ->
  length (usr t) = 4%nat -> (k < 4)%nat -> nth k (usr t) [] = [] ->
  exists r',
    onUsrFound now u (Z.of_nat k) r = Some r' /\
    m_reader r' = Some rd /\ m_tags r' = [p] /\
    (p < length (store r'))%nat /\
    deref (store r') p
    = {| epc := epc t; tid := tid t; rfu := rfu t;
         usr := setNth k u (usr t) |}.
Proof.
  intros Hr Hc Ht Hp Hd Hu Hk He.
  unfold onUsrFound, newTag.
  replace ((Z.of_nat k <? RFID_NUM_USER_DATAGRAMS) && (0 <=? Z.of_nat k))
    with true
    by (symmetry; apply andb_true_iff; unfold RFID_NUM_USER_DATAGRAMS;
        split; [apply Z.ltb_lt | apply Z.leb_le]; lia).
  rewrite Nat2Z.id.
  set (v := {| epc := []; tid := []; rfu := [];
               usr := setNth k u (usr emptyTag) |}).
  set (r1 := set_store (store r ++ [v]) [] r).
  assert (Hcur : currentTag r1 = Some p).
  { unfold currentTag, r1, set_store. simpl. now rewrite Hr. }
  rewrite Hcur.
  assert (Hd1 : deref (store r1) p = t).
  { unfold r1, set_store, deref. simpl. rewrite app_nth1 by exact Hp.
    exact Hd. }
  rewrite Hd1, He. cbn [isEmpty negb]. rewrite andb_false_r.
  pose proof (updateTagData_fill u) as Hf.
  destruct (updateTagData [] u) as [u' b]. simpl in Hf. subst u'.
  set (t2 := {| epc := epc t; tid := tid t; rfu := rfu t;
                usr := setNth k u (usr t) |}).
  set (r2 := set_store (setNth p t2 (store r1)) (signalIf b tagUpdated) r1).
  assert (Hp1 : (p < length (store r1))%nat).
  { unfold r1, set_store. simpl. rewrite length_app. lia. }
  assert (Hd2 : deref (store r2) p = t2).
  { unfold r2, set_store. cbn [store]. rewrite deref_setNth, Nat.eqb_refl.
    replace (p <? length (store r1))%nat with true
      by (symmetry; now apply Nat.ltb_lt).
    reflexivity. }
  rewrite (updateTagList_only_entry now p r2 rd).
  - eexists. split; [reflexivity|]. simpl.
    split; [reflexivity|]. split; [reflexivity|].
    split; [|exact Hd2].
    rewrite setNth_length. exact Hp1.
  - unfold r2, r1, set_store. simpl. exact Hr.
  - exact Hc.
  - unfold r2, r1, set_store. simpl. exact Ht.
  - rewrite Hd2. unfold t2. simpl. now rewrite setNth_length.
Qed.

(** X16. Four user bank events for the datagrams 0, 1, 2 and 3, arriving on
    an aggregator with a reader, an empty history and no current tag, end up
    in one record, which is the only entry of the history and the current
    tag; its user data is the four payloads one after the other. *)
Theorem user_data_is_assembled (now : Z) (r : RFID) (rd : SM_6210)
    (u0 u1 u2 u3 : QByteArray) :
  m_reader r = Some rd -> m_tags r = [] -> m_currentTag rd = None ->
  exists r' t,
    dispatchAll now [usrFound u0 0; usrFound u1 1; usrFound u2 2;
                     usrFound u3 3] r = Some r' /\
    history r' = [t] /\
    currentTag r' = Some (length (store r)) /\
    usr t = [u0; u1; u2; u3] /\
    getUserData t = u0 ++ u1 ++ u2 ++ u3.
Proof.
  intros Hr Ht Hc.
  set (p := length (store r)).
  set (v := {| epc := []; tid := []; rfu := [];
               usr := setNth 0 u0 (usr emptyTag) |}).
  assert (H0 : dispatch now (usrFound u0 0) r
               = Some {| m_tags := [p];
                         m_reader := Some (setCurrentTag (Some p) rd);
                         m_watchdog := Some now; store := store r ++ [v];
                         emitted := (emitted r ++ [])
                                    ++ [tagCountChanged;
                                        currentTagChanged] |}).
  { assert (Hcur : forall s sigs, currentTag (set_store s sigs r) = None).
    { intros s sigs. unfold currentTag, set_store. simpl. now rewrite Hr. }
    simpl dispatch. unfold onUsrFound, newTag.
    change ((0 <? RFID_NUM_USER_DATAGRAMS) && (0 <=? 0)) with true.
    rewrite Hcur.
    exact (updateTagList_first now p (set_store (store r ++ [v]) [] r) rd
             Hr Ht Hc). }
  set (r0 := {| m_tags := [p];
                m_reader := Some (setCurrentTag (Some p) rd);
                m_watchdog := Some now; store := store r ++ [v];
                emitted := (emitted r ++ [])
                           ++ [tagCountChanged; currentTagChanged] |}) in H0.
  assert (Hp0 : (p < length (store r0))%nat).
  { unfold r0. simpl. rewrite length_app. simpl. unfold p. lia. }
  assert (Hd0 : deref (store r0) p = v) by apply deref_new.
  destruct (onUsrFound_fills now u1 1 r0 _ p v eq_refl eq_refl eq_refl Hp0
              Hd0 eq_refl ltac:(lia) eq_refl)
    as (r1 & E1 & Hr1 & Ht1 & Hp1 & Hd1).
  destruct (onUsrFound_fills now u2 2 r1 _ p _ Hr1 eq_refl Ht1 Hp1 Hd1
              eq_refl ltac:(lia) eq_refl)
    as (r2 & E2 & Hr2 & Ht2 & Hp2 & Hd2).
  destruct (onUsrFound_fills now u3 3 r2 _ p _ Hr2 eq_refl Ht2 Hp2 Hd2
              eq_refl ltac:(lia) eq_refl)
    as (r3 & E3 & Hr3 & Ht3 & Hp3 & Hd3).
  exists r3, (deref (store r3) p).
  split.
  - cbn [dispatchAll]. rewrite H0.
    change (dispatch now (usrFound u1 1) r0)
      with (onUsrFound now u1 (Z.of_nat 1) r0). rewrite E1.
    change (dispatch now (usrFound u2 2) r1)
      with (onUsrFound now u2 (Z.of_nat 2) r1). rewrite E2.
    change (dispatch now (usrFound u3 3) r2)
      with (onUsrFound now u3 (Z.of_nat 3) r2). rewrite E3.
    reflexivity.
  - split; [unfold history; now rewrite Ht3|].
    split; [unfold currentTag; now rewrite Hr3|].
    rewrite Hd3. simpl. split; [reflexivity|].
    unfold getUserData. simpl. now rewrite app_nil_r.
Qed.

Lemma user_data_is_assembled_witness :
  exists r' t,
    dispatchAll 0 [usrFound [0x01] 0; usrFound [0x02] 1; usrFound [0x03] 2;
                   usrFound [0x04] 3] freshRFID = Some r' /\
    history r' = [t] /\
    getUserData t = [0x01; 0x02; 0x03; 0x04].
Proof.
  destruct (user_data_is_assembled 0 freshRFID SM_6210_new [0x01] [0x02]
              [0x03] [0x04] eq_refl eq_refl eq_refl)
    as (r' & t & H1 & H2 & _ & _ & H5).
  exists r', t. split; [exact H1|]. split; [exact H2 | exact H5].
Defined.

(** ** Hexadecimal text *)

Lemma skipn_nth_cons {A : Type} (d : A) : forall (l : list A) (i : nat),
  (i < length l)%nat -> skipn i l = nth i l d :: skipn (S i) l.
Proof.
  induction l as [|x l IH]; intros [|i] H; simpl in *; try lia.
  - reflexivity.
  - apply IH. lia.
Qed.

Lemma separateFrom_separated : forall fuel hex i str,
  (length hex - i <= fuel)%nat ->
  separateFrom fuel hex i str = str ++ separated (skipn i hex).
Proof.
  induction fuel as [|fuel IH]; intros hex i str Hf; simpl.
  - rewrite skipn_all2 by lia. now rewrite app_nil_r.
  - destruct (i <? length hex)%nat eqn:Hi.
    + apply Nat.ltb_lt in Hi.
      rewrite (skipn_nth_cons 0 hex i Hi).
      destruct (i + 1 <? length hex)%nat eqn:Hj.
      * apply Nat.ltb_lt in Hj.
        rewrite IH by lia.
        replace (S i) with (i + 1)%nat by lia.
        rewrite (skipn_nth_cons 0 hex (i + 1) Hj).
        replace (S (i + 1)) with (i + 2)%nat by lia.
        simpl. now rewrite <- !app_assoc.
      * apply Nat.ltb_ge in Hj.
        rewrite IH by lia.
        replace (S i) with (i + 1)%nat by lia.
        rewrite skipn_all2 by lia. simpl. now rewrite app_nil_r.
    + apply Nat.ltb_ge in Hi. rewrite skipn_all2 by lia.
      now rewrite app_nil_r.
Qed.

Lemma removeSpaces_stripLeading str :
  removeSpaces (stripLeading str) = removeSpaces str.
Proof.
  induction str as [|c str IH]; simpl; [reflexivity|].
  destruct (c =? SPACE) eqn:Hc; simpl; [exact IH|].
  now rewrite Hc.
Qed.

Lemma removeSpaces_stripTrailing str :
  removeSpaces (stripTrailing str) = removeSpaces str.
Proof.
  unfold stripTrailing, removeSpaces. rewrite filter_rev.
  fold (removeSpaces (stripLeading (rev str))).
  rewrite removeSpaces_stripLeading. unfold removeSpaces.
  now rewrite filter_rev, rev_involutive.
Qed.

Lemma hexDigit_value n : 0 <= n < 16 -> digitValue (hexDigit n) = Some n.
Proof.
  intro H. unfold hexDigit, digitValue.
  destruct (n <? 10) eqn:Hn.
  - apply Z.ltb_lt in Hn.
    replace ((48 <=? 48 + n) && (48 + n <=? 57)) with true
      by (symmetry; apply andb_true_iff; split; apply Z.leb_le; lia).
    f_equal. lia.
  - apply Z.ltb_ge in Hn.
    replace ((48 <=? 87 + n) && (87 + n <=? 57)) with false
      by (symmetry; apply andb_false_iff; right; apply Z.leb_gt; lia).
    replace ((97 <=? 87 + n) && (87 + n <=? 102)) with true
      by (symmetry; apply andb_true_iff; split; apply Z.leb_le; lia).
    f_equal. lia.
Qed.

Lemma hexDigit_no_space n : 0 <= n -> (hexDigit n =? SPACE) = false.
Proof.
  intro H. unfold hexDigit, SPACE. apply Z.eqb_neq.
  destruct (n <? 10); lia.
Qed.

Lemma removeSpaces_separated (b : QByteArray) :
  Forall isByte b -> removeSpaces (separated (toHex b)) = toHex b.
Proof.
  induction 1 as [|c b Hc _ IH]; [reflexivity|].
  unfold isByte in Hc.
  change (toHex (c :: b))
    with (hexDigit (c / 16) :: hexDigit (c mod 16) :: toHex b).
  cbn [separated removeSpaces filter].
  rewrite (hexDigit_no_space (c / 16)) by (apply Z.div_pos; lia).
  rewrite (hexDigit_no_space (c mod 16)) by (apply Z.mod_pos_bound; lia).
  change (SPACE =? SPACE) with true. cbn [negb].
  fold (removeSpaces (separated (toHex b))). now rewrite IH.
Qed.

Lemma qat_app (T : TextLib) (pre post : QString) (k : nat) (c : Z) :
  nth_error post k = Some c -> qat T (pre ++ post) (length pre + k) = c.
Proof.
  intro H. unfold qat.
  rewrite nth_error_app2 by lia.
  replace (length pre + k - length pre)%nat with k by lia.
  now rewrite H.
Qed.

Lemma hexLoop_toHex (T : TextLib) : forall (rest : QByteArray) fuel pre acc,
  Forall isByte rest ->
  (length (toHex rest) <= fuel)%nat ->
  hexLoop T fuel (pre ++ toHex rest) (length pre) acc = (acc ++ rest, true).
Proof.
  induction rest as [|c rest IH]; intros fuel pre acc Hb Hf.
  - simpl. rewrite !app_nil_r.
    destruct fuel; simpl; [reflexivity|].
    now rewrite Nat.ltb_irrefl.
  - inversion Hb as [|c' rest' Hc Hrest]; subst. unfold isByte in Hc.
    change (toHex (c :: rest))
      with ([hexDigit (c / 16); hexDigit (c mod 16)] ++ toHex rest) in *.
    destruct fuel as [|fuel]; [simpl in Hf; lia|].
    cbn [hexLoop].
    replace (length pre <?
             length (pre ++ [hexDigit (c / 16); hexDigit (c mod 16)]
                         ++ toHex rest))%nat
      with true
      by (symmetry; apply Nat.ltb_lt; rewrite !length_app; simpl; lia).
    replace (length pre) with (length pre + 0)%nat at 1 by lia.
    set (post := [hexDigit (c / 16); hexDigit (c mod 16)] ++ toHex rest).
    rewrite (qat_app T pre post 0 (hexDigit (c / 16)) eq_refl).
    rewrite (qat_app T pre post 1 (hexDigit (c mod 16)) eq_refl).
    subst post.
    cbn [toUInt16].
    rewrite (hexDigit_value (c / 16))
      by (split; [apply Z.div_pos | apply Z.div_lt_upper_bound]; lia).
    rewrite (hexDigit_value (c mod 16)) by (apply Z.mod_pos_bound; lia).
    replace (16 * (c / 16) + c mod 16) with c
      by (pose proof (Z.div_mod c 16); lia).
    replace (to_char (to_quint8 c)) with c
      by (unfold to_char, to_quint8; rewrite Z.mod_mod by lia;
          symmetry; apply Z.mod_small; lia).
    replace (pre ++ [hexDigit (c / 16); hexDigit (c mod 16)] ++ toHex rest)
      with ((pre ++ [hexDigit (c / 16); hexDigit (c mod 16)]) ++ toHex rest)
      by (now rewrite <- app_assoc).
    replace (length pre + 2)%nat
      with (length (pre ++ [hexDigit (c / 16); hexDigit (c mod 16)]))
      by (rewrite length_app; reflexivity).
    rewrite IH; [now rewrite <- app_assoc | exact Hrest |].
    rewrite length_app in Hf. simpl in Hf. lia.
Qed.

(** X17. Decoding the hexadecimal text the main window shows for a byte
    array gives the byte array back and reports success, whatever the
    library does with strings that are not two hexadecimal digits. *)
Theorem hex_text_round_trip (T : TextLib) (data : QByteArray) :
  Forall isByte data ->
  HexToBinary T (ByteArrayToHex data) = (data, true).
Proof.
  intro Hb. unfold HexToBinary, ByteArrayToHex.
  rewrite removeSpaces_stripTrailing, removeSpaces_stripLeading.
  rewrite separateFrom_separated by lia.
  rewrite skipn_O, app_nil_l, (removeSpaces_separated data Hb).
  exact (hexLoop_toHex T data (length (toHex data)) [] [] Hb (le_n _)).
Qed.

Lemma hex_text_round_trip_witness :
  ByteArrayToHex [0xa0; 0x01; 0xff] = [97; 48; 32; 48; 49; 32; 102; 102] /\
  HexToBinary strictText (ByteArrayToHex [0xa0; 0x01; 0xff])
  = ([0xa0; 0x01; 0xff], true).
Proof.
  split; [reflexivity|].
  apply (hex_text_round_trip strictText [0xa0; 0x01; 0xff]).
  repeat constructor; unfold isByte; lia.
Defined.

(** ** Payloads that do not fit the bank *)

Lemma zeroPad_long (n : nat) (b : QByteArray) :
  (n < length b)%nat -> zeroPad n b = b.
Proof.
  intro H. unfold zeroPad.
  replace (n - length b)%nat with O by lia. apply app_nil_r.
Qed.

Lemma zeroPad_fits (n : nat) (b : QByteArray) :
  (n <? length (zeroPad n b))%nat = (n <? length b)%nat.
Proof.
  destruct (n <? length b)%nat eqn:H.
  - apply Nat.ltb_lt in H. rewrite (zeroPad_long n b H). now apply Nat.ltb_lt.
  - apply Nat.ltb_ge in H. rewrite (zeroPad_length n b H).
    apply Nat.ltb_irrefl.
Qed.

(** X18. Each write handler of the main window refuses a payload exactly
    when it is longer than the bank (12 bytes of EPC, 8 of RFU, 64 of user
    data), and a refused payload leaves the serial manager as it was: nothing
    is submitted for it. *)
Theorem long_payload_is_refused (b : QByteArray) (r : RFID)
    (sm : SerialManager) :
  (fst (MainWindow_writeEpcData b r sm) = None
   <-> (RFID_EPC_LENGTH < length b)%nat) /\
  (fst (MainWindow_writeRfuData b r sm) = None
   <-> (RFID_RFU_LENGTH < length b)%nat) /\
  (fst (MainWindow_writeUserData b r sm) = None
   <-> (RFID_USER_LENGTH < length b)%nat) /\
  ((RFID_EPC_LENGTH < length b)%nat ->
   snd (MainWindow_writeEpcData b r sm) = sm) /\
  ((RFID_RFU_LENGTH < length b)%nat ->
   snd (MainWindow_writeRfuData b r sm) = sm) /\
  ((RFID_USER_LENGTH < length b)%nat ->
   snd (MainWindow_writeUserData b r sm) = sm).
Proof.
  unfold MainWindow_writeEpcData, MainWindow_writeRfuData,
    MainWindow_writeUserData.
  rewrite !zeroPad_fits.
  repeat split.
  - destruct (RFID_EPC_LENGTH <? length b)%nat eqn:H;
      [intros _; now apply Nat.ltb_lt|].
    destruct (RFID_writeEpc _ r sm). discriminate.
  - intro H. apply Nat.ltb_lt in H. now rewrite H.
  - destruct (RFID_RFU_LENGTH <? length b)%nat eqn:H;
      [intros _; now apply Nat.ltb_lt|].
    destruct (RFID_writeRfu _ r sm). discriminate.
  - intro H. apply Nat.ltb_lt in H. now rewrite H.
  - destruct (RFID_USER_LENGTH <? length b)%nat eqn:H;
      [intros _; now apply Nat.ltb_lt|].
    destruct (RFID_writeUserData _ r sm). discriminate.
  - intro H. apply Nat.ltb_lt in H. now rewrite H.
  - intro H. apply Nat.ltb_lt in H. now rewrite H.
  - intro H. apply Nat.ltb_lt in H. now rewrite H.
  - intro H. apply Nat.ltb_lt in H. now rewrite H.
Qed.

Lemma long_payload_is_refused_witness :
  MainWindow_writeRfuData (repeat 0x11 9) taggedRFID openPort
  = (None, openPort).
Proof.
  pose proof (long_payload_is_refused (repeat 0x11 9) taggedRFID openPort)
    as (_ & [_ H1] & _ & _ & H2 & _).
  assert (Hlong : (RFID_RFU_LENGTH < length (repeat 0x11 9))%nat)
    by (vm_compute; lia).
  specialize (H1 Hlong). specialize (H2 Hlong).
  destruct (MainWindow_writeRfuData (repeat 0x11 9) taggedRFID openPort)
    as [o s]. simpl in H1, H2. now subst.
Defined.
